(** * The harvest pipeline: a shallow embedding and its properties

    The development follows the Python sources of the crawler:
    - [src/models/image.py]            (module [ImageModel])
    - [src/extractors/image.py]        (module [ImageExtractor])
    - [src/models/project.py]          (module [ProjectModel])
    - [src/storage/project_repository.py], [src/storage/image_repository.py]
      (modules [ProjectRepository], [ImageRepository], over [Mongo])
    - [src/storage/image_pipeline.py]  (module [ImagePipeline])
    - [src/auth/pinterest_auth.py]     (module [PinterestAuth], over
      [Playwright])
    - [scrape_pinterest_images.py]     (modules [PinterestScraper],
      [PinterestBoards])
    - [src/browser/manager.py]         (module [BrowserManager])
    - [src/extractors/search.py], [src/extractors/pinterest.py]
      (modules [SearchExtractor], [PinterestPinExtractor], [PinterestPins])
    - [scripts/scrape_behance.py]      (module [BehanceScraper])
    - [cron_scraper.py]                (module [CronScraper])

    Python values are modelled as follows.  An [int] is a [Z].  A [float]
    is a binary64 [spec_float], and the division of two [int]s rounds and
    overflows as Python's does ([PyNum]).  A [str] is a
    Rocq [string], read as the byte sequence of its UTF-8 encoding; the
    delimiters and letters the code looks for are ASCII, and an ASCII byte
    never occurs inside a multi-byte UTF-8 sequence.  [str.lower] is
    modelled on the ASCII letters; the words the code compares a lower-cased
    string with ([.jpg], [png], [login], ...) are ASCII, and no other
    character lower-cases into one of them.  A raised exception is the
    [Raise] case of [result]; the exceptions are those below [Exception],
    which is what the handlers of the code catch.  Calls to libraries whose
    code is not part of the sources (hashing, URL parsing, paths, the
    browser, the network) are parameters of the sections that use them, or
    answers of an environment; the operations of the document store that
    the repositories use are modelled in [Mongo], where the driver encodes
    what it is given before the server sees it, and refuses an integer
    beyond 64 bits. *)

From Stdlib Require Import ZArith SpecFloat Ascii String List Lia.
From stdpp Require Import gmap strings list.

#[local] Set Warnings "-clear-no-such-hyp".

(** ** Exceptions and results *)

(** The exceptions the modelled code can meet; all of them are subclasses of
    Python's [Exception]. *)
Inductive exn : Type :=
  | ValidationError (fields : list string)
  | ValueError (msg : string)
  | ZeroDivisionError
  | TypeError (msg : string)
  | AttributeError (msg : string)
  | HTTPStatusError (status : Z)
  | OverflowError (msg : string)
  | OtherError (msg : string).

Inductive result (A : Type) : Type :=
  | Ok (a : A)
  | Raise (e : exn).

Arguments Ok {A} a.
Arguments Raise {A} e.

#[global] Instance result_ret : MRet result := fun A a => Ok a.

#[global] Instance result_bind : MBind result := fun A B k r =>
  match r with
  | Ok a => k a
  | Raise e => Raise e
  end.

(** [str(e)]. *)
Definition exn_str (e : exn) : string :=
  match e with
  | ValidationError _ => "validation error"
  | ValueError msg => msg
  | ZeroDivisionError => "division by zero"
  | TypeError msg => msg
  | AttributeError msg => msg
  | HTTPStatusError _ => "HTTP status error"
  | OverflowError msg => msg
  | OtherError msg => msg
  end.

Definition is_ok {A : Type} (r : result A) : bool :=
  match r with
  | Ok _ => true
  | Raise _ => false
  end.

(** ** Stateful code that may raise

    A computation over a state [S] returns a value or raises, and leaves a
    state in both cases. *)

Definition sx (S A : Type) : Type := S -> result A * S.

#[global] Instance sx_ret {S : Type} : MRet (sx S) := fun A a s => (Ok a, s).

#[global] Instance sx_bind {S : Type} : MBind (sx S) := fun A B k m s =>
  match m s with
  | (Ok a, s') => k a s'
  | (Raise e, s') => (Raise e, s')
  end.

(** A pure computation, possibly raising, inside [sx]. *)
Definition lift {S A : Type} (r : result A) : sx S A := fun s => (r, s).

(** [try: body finally: cleanup]; an exception of the cleanup replaces the
    outcome of the body. *)
Definition finally {S A : Type} (body : sx S A) (cleanup : sx S unit) : sx S A :=
  fun s =>
    let '(r, s1) := body s in
    match cleanup s1 with
    | (Ok _, s2) => (r, s2)
    | (Raise e, s2) => (Raise e, s2)
    end.

(** [try: body except: ...] seen from the handler: the outcome of the body
    as a value. *)
Definition attempt {S A : Type} (body : sx S A) : sx S (result A) :=
  fun s => let '(r, s') := body s in (Ok r, s').

(** [try: return body except Exception: return False]. *)
Definition except_false {S : Type} (body : sx S bool) (s : S) : bool * S :=
  match body s with
  | (Ok b, s') => (b, s')
  | (Raise _, s') => (false, s')
  end.

(** ** Python string operations *)

Module PyStr.

(** [c.lower()] on one ASCII character. *)
Definition lower_ascii (c : ascii) : ascii :=
  let n := nat_of_ascii c in
  if (65 <=? n)%nat && (n <=? 90)%nat then ascii_of_nat (n + 32) else c.

(** [s.lower()]. *)
Fixpoint lower (s : string) : string :=
  match s with
  | EmptyString => EmptyString
  | String c t => String (lower_ascii c) (lower t)
  end.

(** [needle in hay] on strings: substring search. *)
Fixpoint contains (needle hay : string) : bool :=
  String.prefix needle hay ||
  match hay with
  | EmptyString => false
  | String _ t => contains needle t
  end.

(** [s.split(c)[0]]: the part of [s] before the first [c]. *)
Fixpoint before (c : ascii) (s : string) : string :=
  match s with
  | EmptyString => EmptyString
  | String a t => if Ascii.eqb a c then EmptyString else String a (before c t)
  end.

(** ['/' in s]. *)
Fixpoint has_slash (s : string) : bool :=
  match s with
  | EmptyString => false
  | String c t => Ascii.eqb c "/" || has_slash t
  end.

(** ['&' in s]. *)
Fixpoint has_amp (s : string) : bool :=
  match s with
  | EmptyString => false
  | String c t => Ascii.eqb c "&" || has_amp t
  end.

(** [x in l] for a list of strings. *)
Definition str_in (x : string) (l : list string) : bool :=
  existsb (String.eqb x) l.

End PyStr.

(** ** Python numbers

    A [float] is a binary64 number, a [spec_float] of the Standard Library
    with 53 bits of precision and exponents below 1024. *)

Module PyNum.

(** An [int] as the numerator or the denominator of a division: the
    integer itself, whatever its size. *)
Definition of_int (a : Z) : spec_float :=
  match a with
  | Z0 => S754_zero false
  | Zpos m => S754_finite false m 0
  | Zneg m => S754_finite true m 0
  end.

(** [a / b] on two [int]s: the [float] nearest to the quotient, ties to
    even; [ZeroDivisionError] on a zero divisor and [OverflowError] when
    the rounded quotient is beyond the largest [float]. *)
Definition true_divide (a b : Z) : result spec_float :=
  if (b =? 0)%Z then Raise ZeroDivisionError
  else
    match SFdiv 53 1024 (of_int a) (of_int b) with
    | S754_infinity _ =>
        Raise (OverflowError "integer division result too large for a float")
    | q => Ok q
    end.

End PyNum.

(** ** [src/models/image.py] *)

Module ImageModel.
Import PyStr.

Record Image : Type := mkImage {
  url : string;
  width : Z;
  height : Z;
  size : Z;
  format : string;
  project_id : Z
}.

Definition valid_formats : list string :=
  ["jpg"; "jpeg"; "png"; "gif"; "webp"; "svg"].

(** [Image.validate_format]. *)
Definition validate_format (v : string) : result string :=
  if negb (str_in (lower v) valid_formats)
  then Raise (ValueError "Image format must be one of the valid formats")
  else Ok (lower v).

(** [Field(..., gt=0)]. *)
Definition gt0 (n : Z) : result Z :=
  if (0 <? n)%Z then Ok n else Raise (ValueError "Input should be greater than 0").

Definition field_error {A : Type} (name : string) (r : result A) : list string :=
  match r with
  | Ok _ => []
  | Raise _ => [name]
  end.

Section Init.
(** Pydantic's [HttpUrl] validation, a library function: the text of the
    accepted URL, or an exception. *)
Variable http_url : string -> result string.

(** [Image(url=..., width=..., height=..., size=..., format=...,
    project_id=...)]: every field is validated, and the failures are
    reported together in one [ValidationError]. *)
Definition Image_init (url0 : string) (width0 height0 size0 : Z)
    (format0 : string) (project_id0 : Z) : result Image :=
  let v_url := http_url url0 in
  let v_width := gt0 width0 in
  let v_height := gt0 height0 in
  let v_format := validate_format format0 in
  match v_url, v_width, v_height, v_format with
  | Ok u, Ok w, Ok h, Ok f =>
      Ok {| url := u; width := w; height := h; size := size0;
            format := f; project_id := project_id0 |}
  | _, _, _, _ =>
      Raise (ValidationError
               (field_error "url" v_url ++ field_error "width" v_width ++
                field_error "height" v_height ++ field_error "format" v_format))
  end.
End Init.

(** [Image.aspect_ratio]: [self.width / self.height]. *)
Definition aspect_ratio (i : Image) : result spec_float :=
  PyNum.true_divide (width i) (height i).

End ImageModel.

(** ** [src/extractors/image.py] *)

Module ImageExtractor.
Import PyStr.

(** [ImageExtractor.extract_format]. *)
Definition extract_format (url : string) : string :=
  let url_lower := lower url in
  if contains ".jpg" url_lower || contains ".jpeg" url_lower then "jpg"
  else if contains ".png" url_lower then "png"
  else if contains ".gif" url_lower then "gif"
  else if contains ".webp" url_lower then "webp"
  else if contains ".svg" url_lower then "svg"
  else "jpg".

(** The extension substrings [extract_format] looks for. *)
Definition known_extensions : list string :=
  [".jpg"; ".jpeg"; ".png"; ".gif"; ".webp"; ".svg"].

Definition extractor_formats : list string :=
  ["jpg"; "png"; "gif"; "webp"; "svg"].

(** The attributes of an [img] element the extractor reads; [None] for an
    attribute the element does not have. *)
Record ImgElement : Type := mkImgElement {
  src : option string;
  data_src : option string;
  width_attr : option string;
  height_attr : option string
}.

Definition image_selectors : list string :=
  ["img[src*='behance.net']"; "img[src*='mir-s3']"; ".project-module img"].

Definition small_markers : list string :=
  ["_thumb"; "_small"; "/32x32/"; "/64x64/"; "/avatar"].

(** [a or b] on attribute values. *)
Definition or_else (a b : option string) : option string :=
  match a with
  | Some s => if String.eqb s "" then b else a
  | None => b
  end.

Section Page.
(** Pydantic's [HttpUrl] validation and Python's [int] on a string. *)
Variable http_url : string -> result string.
Variable int_of_str : string -> result Z.
(** For a selector, the elements [soup.select] returns for it. *)
Variable select : string -> list ImgElement.

(** [int(img_elem.get(name, default))]. *)
Definition int_attr (attr : option string) (default : Z) : result Z :=
  match attr with
  | Some s => int_of_str s
  | None => Ok default
  end.

(** The inner loop of [extract_from_page] over the elements of one
    selector; an exception ends the extraction. *)
Fixpoint collect_images (project_id0 : Z) (img_elements : list ImgElement)
    (seen_urls : gset string) (images : list ImageModel.Image)
    : result (gset string * list ImageModel.Image) :=
  match img_elements with
  | [] => Ok (seen_urls, images)
  | img_elem :: rest =>
      match or_else (src img_elem) (data_src img_elem) with
      | None => collect_images project_id0 rest seen_urls images
      | Some img_url =>
          if String.eqb img_url "" || bool_decide (img_url ∈ seen_urls)
          then collect_images project_id0 rest seen_urls images
          else if existsb (fun size => contains size img_url) small_markers
          then collect_images project_id0 rest seen_urls images
          else
            let seen_urls := {[ img_url ]} ∪ seen_urls in
            width ← int_attr (width_attr img_elem) 1920;
            height ← int_attr (height_attr img_elem) 1080;
            image ← ImageModel.Image_init http_url img_url width height 0
                      (extract_format img_url) project_id0;
            collect_images project_id0 rest seen_urls (images ++ [image])
      end
  end.

(** The outer loop, over the selectors. *)
Fixpoint collect_selectors (project_id0 : Z) (selectors : list string)
    (seen_urls : gset string) (images : list ImageModel.Image)
    : result (gset string * list ImageModel.Image) :=
  match selectors with
  | [] => Ok (seen_urls, images)
  | selector :: rest =>
      r ← collect_images project_id0 (select selector) seen_urls images;
      collect_selectors project_id0 rest r.1 r.2
  end.

(** [ImageExtractor.extract_from_page], from the parsed page. *)
Definition extract_from_page (project_id0 : Z) : result (list ImageModel.Image) :=
  r ← collect_selectors project_id0 image_selectors ∅ [];
  mret r.2.

(** An image of the extraction and the source URL it was made from. *)
Definition extracted (project_id0 : Z) (img_url : string)
    (image : ImageModel.Image) : Prop :=
  (exists selector img_elem,
     selector ∈ image_selectors /\ img_elem ∈ select selector /\
     or_else (src img_elem) (data_src img_elem) = Some img_url /\
     int_attr (width_attr img_elem) 1920 = Ok (ImageModel.width image) /\
     int_attr (height_attr img_elem) 1080 = Ok (ImageModel.height image)) /\
  existsb (fun size => contains size img_url) small_markers = false /\
  http_url img_url = Ok (ImageModel.url image) /\
  ImageModel.format image = extract_format img_url /\
  ImageModel.size image = 0%Z /\
  ImageModel.project_id image = project_id0 /\
  (0 < ImageModel.width image)%Z /\ (0 < ImageModel.height image)%Z.

(** What holds of the images collected so far, made from [img_urls]. *)
Definition images_invariant (project_id0 : Z) (img_urls : list string)
    (seen_urls : gset string) (images : list ImageModel.Image) : Prop :=
  seen_urls = list_to_set img_urls /\ NoDup img_urls /\
  Forall2 (extracted project_id0) img_urls images.

End Page.

End ImageExtractor.

(** ** MongoDB collections

    The part of the document store the repositories use: a collection is
    the list of its documents in insertion order, and a counter from which
    the [_id] of an inserted document is drawn. *)

Module Mongo.

#[warnings="-register-all"]
Inductive value : Type :=
  | VInt (n : Z)
  | VStr (s : string)
  | VDate (t : Z)
  | VOid (n : nat)
  | VList (l : list value)
  | VDoc (fields : list (string * value)).

Record collection : Type := mkCollection {
  docs : list (gmap string value);
  next_oid : nat
}.

Definition empty_collection : collection :=
  {| docs := []; next_oid := 0 |}.

(** The filters of the repositories: [{field: n}] for an integer [n]. *)
Inductive query : Type :=
  | FieldEqInt (field : string) (n : Z).

Definition value_is_int (n : Z) (v : value) : bool :=
  match v with
  | VInt m => (m =? n)%Z
  | _ => false
  end.

(** An equality filter selects a document whose field holds the value, or
    holds an array with the value among its elements. *)
Definition matches (q : query) (d : gmap string value) : bool :=
  match q with
  | FieldEqInt field n =>
      match d !! field with
      | Some (VList l) => existsb (value_is_int n) l
      | Some v => value_is_int n v
      | None => false
      end
  end.

Definition query_fields (q : query) : gmap string value :=
  match q with
  | FieldEqInt field n => {[ field := VInt n ]}
  end.

(** *** What the driver can encode

    The driver encodes every command before it sends it, and BSON holds
    integers of 64 bits: an [int] outside that range makes the call raise
    [OverflowError], and nothing reaches the server. *)

Definition int64 (n : Z) : bool :=
  ((-9223372036854775808 <=? n) && (n <=? 9223372036854775807))%Z.

Fixpoint encodable (v : value) : bool :=
  match v with
  | VInt n => int64 n
  | VList l => forallb encodable l
  | VDoc fields => forallb (fun kv => encodable (snd kv)) fields
  | _ => true
  end.

Definition doc_encodable (d : gmap string value) : bool :=
  bool_decide (map_Forall (fun _ v => encodable v = true) d).

Definition query_encodable (q : query) : bool :=
  match q with
  | FieldEqInt _ n => int64 n
  end.

Definition not_encodable : exn :=
  OverflowError "MongoDB can only handle up to 8-byte ints".

(** *** What the server does with a command *)

(** Apply [f] to the first document that satisfies [p]. *)
Fixpoint update_first (p : gmap string value -> bool)
    (f : gmap string value -> gmap string value)
    (l : list (gmap string value)) : option (list (gmap string value)) :=
  match l with
  | [] => None
  | d :: t =>
      if p d then Some (f d :: t)
      else match update_first p f t with
           | Some t' => Some (d :: t')
           | None => None
           end
  end.

(** An update with [{"$set": fields}]: the fields are written into the
    first matching document; without a match and with [upsert], a document
    made of the filter's fields and the new fields is inserted under a
    fresh [_id]. *)
Definition apply_update_one (q : query) (fields : gmap string value)
    (upsert : bool) (c : collection) : collection :=
  match update_first (matches q) (fun d => fields ∪ d) (docs c) with
  | Some l => {| docs := l; next_oid := next_oid c |}
  | None =>
      if upsert
      then {| docs := docs c ++
                [<["_id" := VOid (next_oid c)]> (fields ∪ query_fields q)];
              next_oid := S (next_oid c) |}
      else c
  end.

(** The insertion of a dict without [_id]. *)
Definition apply_insert_one (d : gmap string value) (c : collection) : collection :=
  {| docs := docs c ++ [<["_id" := VOid (next_oid c)]> d];
     next_oid := S (next_oid c) |}.

(** The documents stored for the dicts [ds] when the counter is at [n]. *)
Fixpoint stamp (n : nat) (ds : list (gmap string value))
    : list (gmap string value) :=
  match ds with
  | [] => []
  | d :: t => <["_id" := VOid n]> d :: stamp (S n) t
  end.

(** The insertion of dicts without [_id], in one batch. *)
Definition apply_insert_many (ds : list (gmap string value)) (c : collection)
    : collection :=
  {| docs := docs c ++ stamp (next_oid c) ds;
     next_oid := next_oid c + length ds |}.

(** Remove the first document that satisfies [p]. *)
Fixpoint remove_first (p : gmap string value -> bool)
    (l : list (gmap string value)) : list (gmap string value) :=
  match l with
  | [] => []
  | d :: t => if p d then t else d :: remove_first p t
  end.

Definition apply_delete_one (q : query) (c : collection) : collection :=
  {| docs := remove_first (matches q) (docs c); next_oid := next_oid c |}.

(** *** The calls of the driver

    A call runs on the collection and returns or raises; a call that
    raises leaves the collection as it was. *)

(** A command that is sent only when the driver can encode it. *)
Definition encoded {A : Type} (ok : bool) (answer : collection -> A)
    (effect : collection -> collection) : sx collection A := fun c =>
  if ok then (Ok (answer c), effect c) else (Raise not_encodable, c).

(** [collection.update_one(q, {"$set": fields}, upsert=upsert)]. *)
Definition update_one (q : query) (fields : gmap string value)
    (upsert : bool) : sx collection unit :=
  encoded (query_encodable q && doc_encodable fields) (fun _ => tt)
    (apply_update_one q fields upsert).

(** [collection.insert_one(d)] for a dict without [_id]. *)
Definition insert_one (d : gmap string value) : sx collection unit :=
  encoded (doc_encodable d) (fun _ => tt) (apply_insert_one d).

(** The documents of [ds] before the first one the driver cannot encode. *)
Fixpoint encodable_prefix (ds : list (gmap string value))
    : list (gmap string value) :=
  match ds with
  | [] => []
  | d :: rest => if doc_encodable d then d :: encodable_prefix rest else []
  end.

Section Batches.
(** How many documents of a call the driver had sent, in the messages
    before the one in which it met a document it cannot encode. *)
Variable sent : list (gmap string value) -> nat.

(** [collection.insert_many(ds)] for dicts without [_id].  The driver
    refuses an empty list.  It encodes the documents as it fills the
    messages of the call, in order, and the server stores each message as
    it comes: when a document cannot be encoded, the call raises, and the
    documents of the earlier messages, all before that one, are stored. *)
Definition insert_many (ds : list (gmap string value)) : sx collection unit :=
  match ds with
  | [] => lift (Raise (TypeError "documents must be a non-empty list"))
  | _ => fun c =>
      if forallb doc_encodable ds
      then (Ok tt, apply_insert_many ds c)
      else (Raise not_encodable,
            apply_insert_many (take (sent ds) (encodable_prefix ds)) c)
  end.

End Batches.

(** [collection.delete_one(q)]. *)
Definition delete_one (q : query) : sx collection unit :=
  encoded (query_encodable q) (fun _ => tt) (apply_delete_one q).


(** [collection.find(q).to_list(length=None)]. *)
Definition find (q : query) : sx collection (list (gmap string value)) :=
  encoded (query_encodable q) (fun c => List.filter (matches q) (docs c))
    (fun c => c).

(** [collection.count_documents(q)]. *)
Definition count_documents (p : gmap string value -> bool) (c : collection) : nat :=
  length (filter (fun d => p d = true) (docs c)).

End Mongo.

(** ** [src/models/project.py] *)

Module ProjectModel.
Import Mongo.

Record ProjectStats : Type := mkProjectStats {
  views : Z;
  appreciations : Z;
  comments : Z
}.

Record Project : Type := mkProject {
  id : Z;
  title : string;
  description : string;
  url : string;
  published_on : Z;
  created_on : Z;
  modified_on : Z;
  stats : ProjectStats;
  tags : list string;
  covers : list (string * string);
  owner_id : Z;
  owner_username : string
}.

(** [project.model_dump()], with the URL already as text. *)
Definition model_dump (p : Project) : gmap string value :=
  list_to_map
    [("id", VInt (id p)); ("title", VStr (title p));
     ("description", VStr (description p)); ("url", VStr (url p));
     ("published_on", VDate (published_on p));
     ("created_on", VDate (created_on p));
     ("modified_on", VDate (modified_on p));
     ("stats", VDoc [("views", VInt (views (stats p)));
                     ("appreciations", VInt (appreciations (stats p)));
                     ("comments", VInt (comments (stats p)))]);
     ("tags", VList (map VStr (tags p)));
     ("covers", VDoc (map (fun kv => (fst kv, VStr (snd kv))) (covers p)));
     ("owner_id", VInt (owner_id p));
     ("owner_username", VStr (owner_username p))].

(** The loop of [Project.deduplicate_tags]. *)
Fixpoint deduplicate_from (v : list string) (seen : gset string)
    (result : list string) : list string :=
  match v with
  | [] => result
  | tag :: rest =>
      if bool_decide (tag ∈ seen) then deduplicate_from rest seen result
      else deduplicate_from rest ({[ tag ]} ∪ seen) (result ++ [tag])
  end.

(** [Project.deduplicate_tags]. *)
Definition deduplicate_tags (v : list string) : list string :=
  deduplicate_from v ∅ [].

End ProjectModel.

(** ** [src/storage/project_repository.py] *)

Module ProjectRepository.
Import Mongo ProjectModel.

(** The dict the repository writes for a project. *)
Definition project_dict (project : Project) : gmap string value :=
  <["url" := VStr (url project)]> (model_dump project).

(** The integers of a project fit BSON. *)
Definition fits (project : Project) : bool :=
  int64 (id project) && int64 (views (stats project)) &&
  int64 (appreciations (stats project)) && int64 (comments (stats project)) &&
  int64 (owner_id project).

(** [ProjectRepository.save]. *)
Definition save (project : Project) : sx collection Project :=
  let project_dict := model_dump project in
  let project_dict := <["url" := VStr (url project)]> project_dict in
  _ ← insert_one project_dict;
  mret project.

(** [ProjectRepository.upsert]. *)
Definition upsert (project : Project) : sx collection unit :=
  let project_dict := model_dump project in
  let project_dict := <["url" := VStr (url project)]> project_dict in
  update_one (FieldEqInt "id" (id project)) project_dict true.

(** [ProjectRepository.count], restricted to one project id. *)
Definition count_id (n : Z) (c : collection) : nat :=
  count_documents (matches (FieldEqInt "id" n)) c.

Section Reading.
(** The [Project] the model builds from the fields of a stored document,
    with their validation. *)
Variable Project_of_doc : gmap string value -> result Project.


End Reading.

(** [ProjectRepository.update]. *)
Definition update (project : Project) : sx collection unit :=
  let project_dict := model_dump project in
  let project_dict := <["url" := VStr (url project)]> project_dict in
  update_one (FieldEqInt "id" (id project)) project_dict false.

(** [ProjectRepository.delete]. *)
Definition delete (project_id : Z) : sx collection unit :=
  delete_one (FieldEqInt "id" project_id).

(** [ProjectRepository.count]. *)
Definition count (c : collection) : nat :=
  count_documents (fun _ => true) c.


End ProjectRepository.

(** ** [src/storage/image_repository.py] *)

Module ImageRepository.
Import Mongo ImageModel.

(** [image.model_dump()], with the URL already as text. *)
Definition model_dump (i : Image) : gmap string value :=
  list_to_map
    [("url", VStr (url i)); ("width", VInt (width i));
     ("height", VInt (height i)); ("size", VInt (size i));
     ("format", VStr (format i)); ("project_id", VInt (project_id i))].

(** The dict the repository writes for an image. *)
Definition image_dict (image : Image) : gmap string value :=
  <["url" := VStr (url image)]> (model_dump image).

(** The integers of an image fit BSON. *)
Definition fits (image : Image) : bool :=
  int64 (width image) && int64 (height image) && int64 (size image) &&
  int64 (project_id image).

(** [ImageRepository.save_many]; [sent] is the driver's, see
    [Mongo.insert_many]. *)
Definition save_many (sent : list (gmap string value) -> nat)
    (images : list Image) : sx collection unit :=
  let image_dicts :=
    map (fun image =>
           let image_dict := model_dump image in
           <["url" := VStr (url image)]> image_dict) images in
  insert_many sent image_dicts.




Section Reading.
(** The [Image] the model builds from the fields of a stored document,
    with their validation. *)
Variable Image_of_doc : gmap string value -> result Image.

(** The list comprehension over the documents found. *)
Fixpoint images_of_docs (ds : list (gmap string value)) : result (list Image) :=
  match ds with
  | [] => Ok []
  | doc :: rest =>
      image ← Image_of_doc doc;
      images ← images_of_docs rest;
      mret (image :: images)
  end.

(** [ImageRepository.find_by_project]. *)
Definition find_by_project (project_id0 : Z) : sx collection (list Image) :=
  docs ← find (FieldEqInt "project_id" project_id0);
  lift (images_of_docs docs).

End Reading.

(** [ImageRepository.save]. *)
Definition save (image : Image) : sx collection Image :=
  let image_dict := model_dump image in
  let image_dict := <["url" := VStr (url image)]> image_dict in
  _ ← insert_one image_dict;
  mret image.

End ImageRepository.

(** ** [src/storage/image_pipeline.py]

    The pipeline talks to the network and to the file system.  Both are
    outside the program: [Env] gives, for every point of the run, the answer
    of the network and whether an operation of the operating system fails;
    [World] is the state the run changes. *)

Module ImagePipeline.

Record ImageDownloadResult : Type := mkImageDownloadResult {
  success : bool;
  url : string;
  local_path : option string;
  error_message : option string
}.

Record Response : Type := mkResponse {
  status_code : Z;
  content : string
}.

Record Env : Type := mkEnv {
  net : nat -> string -> result Response;
  fault : nat -> option exn
}.

Record World : Type := mkWorld {
  clock : nat;
  files : gmap string string;
  dirs : gset string
}.

#[local] Abbreviation io := (sx World).

Definition tick (w : World) : World :=
  {| clock := S (clock w); files := files w; dirs := dirs w |}.

(** [response.raise_for_status()]. *)
Definition raise_for_status (r : Response) : result unit :=
  if (200 <=? status_code r)%Z && (status_code r <=? 299)%Z
  then Ok tt else Raise (HTTPStatusError (status_code r)).

Section Pipeline.
(** Library functions: [hashlib.md5(url.encode()).hexdigest()],
    [urlparse(url).path], [Path(path).suffix] and [str(Path(dir) / name)]. *)
Variable md5_hexdigest : string -> string.
Variable urlparse_path : string -> result string.
Variable path_suffix : string -> string.
Variable path_join : string -> string -> string.

Variable env : Env.

(** An operation of the operating system or of the HTTP client: it fails
    when the environment says so, and has the effect [act] otherwise. *)
Definition external (act : World -> World) : io unit := fun w =>
  match fault env (clock w) with
  | Some e => (Raise e, tick w)
  | None => (Ok tt, tick (act w))
  end.

(** [ImagePipeline.generate_filename]. *)
Definition generate_filename (url0 : string) : result string :=
  path ← urlparse_path url0;
  let extension := path_suffix path in
  let extension := if String.eqb extension "" then ".jpg" else extension in
  let url_hash := md5_hexdigest url0 in
  mret (url_hash +:+ extension).

(** [ImagePipeline.ensure_output_dir]. *)
Definition ensure_output_dir (output_dir : string) : io unit :=
  external (fun w =>
    {| clock := clock w; files := files w; dirs := {[ output_dir ]} ∪ dirs w |}).

(** [await client.get(url)]. *)
Definition client_get (url0 : string) : io Response := fun w =>
  (net env (clock w) url0, tick w).

(** [await aiofiles.open(local_path, 'wb')]: creates or truncates the file. *)
Definition aiofiles_open (path : string) : io unit :=
  external (fun w =>
    {| clock := clock w; files := <[path := ""]> (files w); dirs := dirs w |}).

(** [await file_handle.write(data)]. *)
Definition file_write (path data : string) : io unit :=
  external (fun w =>
    {| clock := clock w; files := <[path := data]> (files w); dirs := dirs w |}).

(** [await file_handle.close()] and [await client.aclose()]. *)
Definition file_close : io unit := external (fun w => w).
Definition client_aclose : io unit := external (fun w => w).

(** The [try] block of [download_image]. *)
Definition download_body (output_dir url0 : string) : io string :=
  _ ← ensure_output_dir output_dir;
  filename ← lift (generate_filename url0);
  let local_path0 := path_join output_dir filename in
  _ ← finally
        (response ← client_get url0;
         _ ← lift (raise_for_status response);
         _ ← aiofiles_open local_path0;
         finally (file_write local_path0 (content response)) file_close)
        client_aclose;
  mret local_path0.

(** [ImagePipeline.download_image]. *)
Definition download_image (output_dir url0 : string) (w : World)
    : ImageDownloadResult * World :=
  match download_body output_dir url0 w with
  | (Ok local_path0, w') =>
      ({| success := true; url := url0; local_path := Some local_path0;
          error_message := None |}, w')
  | (Raise e, w') =>
      ({| success := false; url := url0; local_path := None;
          error_message := Some (exn_str e) |}, w')
  end.

(** [ImagePipeline.download_many].  [asyncio.gather] returns the results in
    the order of its arguments whatever the schedule of the tasks; the
    tasks are run here one after the other. *)
Fixpoint download_many (output_dir : string) (urls : list string) (w : World)
    : list ImageDownloadResult * World :=
  match urls with
  | [] => ([], w)
  | url0 :: rest =>
      let '(r, w1) := download_image output_dir url0 w in
      let '(rs, w2) := download_many output_dir rest w1 in
      (r :: rs, w2)
  end.

End Pipeline.

(** An environment without faults of the operating system, in which the
    answer of the network depends on the URL alone. *)
Definition steady_env (answer : string -> result Response) : Env :=
  {| net := fun _ url0 => answer url0; fault := fun _ => None |}.

(** The URLs that can be fetched in such an environment: the URL parses and
    the server answers with a success status. *)
Definition fetchable (urlparse_path : string -> result string)
    (answer : string -> result Response) (url0 : string) : bool :=
  is_ok (urlparse_path url0) &&
  match answer url0 with
  | Ok r => is_ok (raise_for_status r)
  | Raise _ => false
  end.

(** A result that reports a success with its path, or a failure with its
    message. *)
Definition captured (r : ImageDownloadResult) : Prop :=
  (success r = true /\ is_Some (local_path r) /\ error_message r = None) \/
  (success r = false /\ local_path r = None /\ is_Some (error_message r)).

End ImagePipeline.

(** ** The browser

    The scrapers drive a browser through Playwright.  Every request to the
    browser, to the cookie file or to the console is a [Call]; the state of
    a run is the list of the calls made so far, and the environment decides
    the answer of each call from its position in the run.  Inside the CSS
    selectors the double quotes of the source are written as single
    quotes. *)

Module Playwright.

Inductive Call : Type :=
  | Print (msg : string)
  | PathExists (path : string)
  | ReadJson (path : string)
  | AddCookies (cookies : list string)
  | GetCookies
  | MkdirParent (path : string)
  | WriteJson (path : string) (cookies : list string)
  | Goto (page : nat) (url : string) (wait_until : string)
  | Evaluate (page : nat) (script : string)
  | WaitForTimeout (page : nat) (ms : Z)
  | WaitForSelector (page : nat) (selector : string)
  | WaitForLoadState (page : nat)
  | QuerySelector (page : nat) (selector : string)
  | PageUrl (page : nat)
  | ContextPages (page : nat)
  | IsClosed (page : nat)
  | ClosePage (page : nat)
  | Click (handle : nat)
  | Fill (handle : nat) (text : string)
  | Press (handle : nat) (key : string)
  | TextContent (handle : nat).

Inductive Answer : Type :=
  | AUnit
  | ABool (b : bool)
  | AStr (s : string)
  | AHandle (h : option nat)
  | APages (pages : list nat)
  | ACookies (cookies : list string).

Definition as_unit (a : Answer) : result unit :=
  match a with AUnit => Ok tt | _ => Raise (TypeError "unexpected answer") end.
Definition as_bool (a : Answer) : result bool :=
  match a with ABool b => Ok b | _ => Raise (TypeError "unexpected answer") end.
Definition as_str (a : Answer) : result string :=
  match a with AStr s => Ok s | _ => Raise (TypeError "unexpected answer") end.
Definition as_handle (a : Answer) : result (option nat) :=
  match a with AHandle h => Ok h | _ => Raise (TypeError "unexpected answer") end.
Definition as_pages (a : Answer) : result (list nat) :=
  match a with APages l => Ok l | _ => Raise (TypeError "unexpected answer") end.
Definition as_cookies (a : Answer) : result (list string) :=
  match a with ACookies l => Ok l | _ => Raise (TypeError "unexpected answer") end.

Section Browser.
Variable env : nat -> Call -> result Answer.

#[local] Abbreviation io := (sx (list Call)).

Definition call (c : Call) : io Answer := fun log =>
  (env (length log) c, log ++ [c]).

(** [print(msg)] does not fail. *)
Definition print (msg : string) : io unit := fun log =>
  (Ok tt, log ++ [Print msg]).

Definition goto (page : nat) (url wait_until : string) : io unit :=
  a ← call (Goto page url wait_until); lift (as_unit a).
Definition evaluate (page : nat) (script : string) : io unit :=
  a ← call (Evaluate page script); lift (as_unit a).
Definition wait_for_timeout (page : nat) (ms : Z) : io unit :=
  a ← call (WaitForTimeout page ms); lift (as_unit a).
Definition wait_for_selector (page : nat) (selector : string) : io (option nat) :=
  a ← call (WaitForSelector page selector); lift (as_handle a).
Definition wait_for_load_state (page : nat) : io unit :=
  a ← call (WaitForLoadState page); lift (as_unit a).
Definition query_selector (page : nat) (selector : string) : io (option nat) :=
  a ← call (QuerySelector page selector); lift (as_handle a).
Definition page_url (page : nat) : io string :=
  a ← call (PageUrl page); lift (as_str a).
Definition context_pages (page : nat) : io (list nat) :=
  a ← call (ContextPages page); lift (as_pages a).
Definition is_closed (page : nat) : io bool :=
  a ← call (IsClosed page); lift (as_bool a).
Definition close_page (page : nat) : io unit :=
  a ← call (ClosePage page); lift (as_unit a).

(** A method of an element handle; on [None] Python raises
    [AttributeError]. *)
Definition on_handle (h : option nat) (c : nat -> Call) : io Answer :=
  match h with
  | Some n => call (c n)
  | None => lift (Raise (AttributeError "'NoneType' object has no attribute"))
  end.

Definition click (h : option nat) : io unit :=
  a ← on_handle h Click; lift (as_unit a).
Definition fill (h : option nat) (text : string) : io unit :=
  a ← on_handle h (fun n => Fill n text); lift (as_unit a).
Definition press (h : option nat) (key : string) : io unit :=
  a ← on_handle h (fun n => Press n key); lift (as_unit a).
Definition text_content (h : option nat) : io string :=
  a ← on_handle h TextContent; lift (as_str a).

End Browser.

(** Whatever the state, the computation appends calls that satisfy [P]. *)
Definition emits (P : list Call -> Prop) {A : Type} (m : sx (list Call) A) : Prop :=
  forall log, exists l, (m log).2 = log ++ l /\ P l.

(** The computation returns [True] only after calls that satisfy [P]. *)
Definition true_after (P : list Call -> Prop) (m : sx (list Call) bool) : Prop :=
  forall log log', m log = (Ok true, log') -> exists l, log' = log ++ l /\ P l.

(** A call that writes the cookie file. *)
Definition writes_file (c : Call) : bool :=
  match c with
  | WriteJson _ _ => true
  | _ => false
  end.

(** A call that looks at the page: what a logged-in probe is made of. *)
Definition observes_page (c : Call) : bool :=
  match c with
  | WaitForSelector _ _ | QuerySelector _ _ | PageUrl _ => true
  | _ => false
  end.

End Playwright.

(** ** [src/browser/manager.py]

    The manager holds the handles Playwright gives it.  The requests to
    Playwright are [Request]s, answered by an environment with a handle or
    an exception; the state of a run is the manager and the requests made
    so far. *)

Module BrowserManager.

Record BrowserConfig : Type := mkBrowserConfig {
  headless : bool;
  user_data_dir : option string;
  viewport_width : Z;
  viewport_height : Z;
  stealth_mode : bool
}.




Inductive Request : Type :=
  | Start
  | Launch (headless : bool) (args : list string) (user_data_dir : option string)
  | NewContext (browser : nat) (width height : Z)
  | CloseBrowser (browser : nat)
  | Stop (playwright : nat).

Record Manager : Type := mkManager {
  config : BrowserConfig;
  browser : option nat;
  contexts : list nat;
  _playwright : option nat
}.

Definition State : Type := (Manager * list Request)%type.

(** [BrowserManager.__init__]. *)
Definition Manager_init (config0 : BrowserConfig) : Manager :=
  {| config := config0; browser := None; contexts := []; _playwright := None |}.

Definition launch_args (stealth : bool) : list string :=
  ["--disable-blink-features=AutomationControlled"; "--no-sandbox";
   "--disable-setuid-sandbox"] ++
  (if stealth
   then ["--disable-web-security";
         "--disable-features=IsolateOrigins,site-per-process"]
   else []).

Section Manager.
Variable env : nat -> Request -> result nat.

Definition request (r : Request) : sx State nat := fun st =>
  (env (length st.2) r, (st.1, st.2 ++ [r])).

Definition get : sx State Manager := fun st => (Ok st.1, st).

Definition set (f : Manager -> Manager) : sx State unit := fun st =>
  (Ok tt, (f st.1, st.2)).

(** [BrowserManager.launch]. *)
Definition launch : sx State unit :=
  pw ← request Start;
  _ ← set (fun m => {| config := config m; browser := browser m;
                       contexts := contexts m; _playwright := Some pw |});
  m ← get;
  let args := launch_args (stealth_mode (config m)) in
  let dir := match user_data_dir (config m) with
             | Some d => if String.eqb d "" then None else Some d
             | None => None
             end in
  b ← request (Launch (headless (config m)) args dir);
  set (fun m => {| config := config m; browser := Some b;
                   contexts := contexts m; _playwright := _playwright m |}).

(** [BrowserManager.create_context]; without a browser,
    [self.browser.new_context] raises [AttributeError]. *)
Definition create_context : sx State nat :=
  m ← get;
  match browser m with
  | None =>
      lift (Raise (AttributeError "'NoneType' object has no attribute 'new_context'"))
  | Some b =>
      context ← request (NewContext b (viewport_width (config m))
                           (viewport_height (config m)));
      _ ← set (fun m => {| config := config m; browser := browser m;
                           contexts := contexts m ++ [context];
                           _playwright := _playwright m |});
      mret context
  end.

(** [BrowserManager.close]. *)
Definition close : sx State unit :=
  m ← get;
  _ ← (match browser m with
       | Some b =>
           _ ← request (CloseBrowser b);
           set (fun m => {| config := config m; browser := None;
                            contexts := contexts m; _playwright := _playwright m |})
       | None => mret tt
       end);
  m ← get;
  _ ← (match _playwright m with
       | Some p =>
           _ ← request (Stop p);
           set (fun m => {| config := config m; browser := browser m;
                            contexts := contexts m; _playwright := None |})
       | None => mret tt
       end);
  set (fun m => {| config := config m; browser := browser m;
                   contexts := []; _playwright := _playwright m |}).

End Manager.

End BrowserManager.

(** ** [src/auth/pinterest_auth.py]

    Of the progress messages only those that open a strategy and the final
    warning are kept. *)

Module PinterestAuth.
Import PyStr Playwright.

Definition google_start : string := "Logging into Pinterest with Google...".
Definition direct_start : string := "Logging into Pinterest...".
Definition not_logged_in : string :=
  "WARNING: Not logged in - Pinterest may limit content!".
Definition login_hint : string :=
  "Use --email and --password to login, or provide --cookies-path".
Definition login_url : string := "https://www.pinterest.com/login/".

Definition google_selectors : list string :=
  ["div[data-test-id='google-connect-button']";
   "button[data-provider='google']";
   "button:has-text('Continue with Google')";
   "[aria-label*='Google']"].

Definition next_selectors : list string :=
  ["#identifierNext button";
   "button:has-text('Next')";
   "button[type='button']:has-text('Next')";
   "[id='identifierNext']"].

Definition signin_selectors : list string :=
  ["#passwordNext button";
   "button:has-text('Next')";
   "button[type='button']:has-text('Next')";
   "[id='passwordNext']"].

Definition logged_in_indicators : list string :=
  ["[data-test-id='header-profile']";
   "[aria-label*='Profile']";
   "div[data-test-id='user-menu']"].

Section Strategies.
Variable env : nat -> Call -> result Answer.

#[local] Abbreviation io := (sx (list Call)).

#[local] Abbreviation call := (call env).
#[local] Abbreviation goto := (goto env).
#[local] Abbreviation wait_for_timeout := (wait_for_timeout env).
#[local] Abbreviation wait_for_selector := (wait_for_selector env).
#[local] Abbreviation wait_for_load_state := (wait_for_load_state env).
#[local] Abbreviation query_selector := (query_selector env).
#[local] Abbreviation page_url := (page_url env).
#[local] Abbreviation context_pages := (context_pages env).
#[local] Abbreviation is_closed := (is_closed env).
#[local] Abbreviation close_page := (close_page env).
#[local] Abbreviation click := (click env).
#[local] Abbreviation fill := (fill env).
#[local] Abbreviation press := (press env).
#[local] Abbreviation text_content := (text_content env).

(** The loop over [google_selectors]: the first selector whose wait returns
    an element; a selector that raises is skipped. *)
Fixpoint find_button (page : nat) (selectors : list string) : io (option nat) :=
  match selectors with
  | [] => mret None
  | selector :: rest =>
      r ← attempt (wait_for_selector page selector);
      match r with
      | Ok (Some h) => mret (Some h)
      | _ => find_button page rest
      end
  end.

(** The loops over [next_selectors] and [signin_selectors]: wait for the
    button and click it; a selector that raises is skipped. *)
Fixpoint click_first (page : nat) (selectors : list string) : io bool :=
  match selectors with
  | [] => mret false
  | selector :: rest =>
      r ← attempt (button ← wait_for_selector page selector; click button);
      match r with
      | Ok _ => mret true
      | Raise _ => click_first page rest
      end
  end.

(** The loop over [logged_in_indicators]. *)
Fixpoint find_indicator (page : nat) (indicators : list string) : io bool :=
  match indicators with
  | [] => mret false
  | indicator :: rest =>
      element ← query_selector page indicator;
      match element with
      | Some _ => mret true
      | None => find_indicator page rest
      end
  end.

(** The [try] block of [login_with_google]. *)
Definition login_with_google_body (page : nat) (email password : string) : io bool :=
  _ ← print google_start;
  _ ← goto page login_url "domcontentloaded";
  _ ← wait_for_timeout page 3000;
  google_button ← find_button page google_selectors;
  match google_button with
  | None => mret false
  | Some _ =>
    _ ← click google_button;
    _ ← wait_for_timeout page 3000;
    current_url ← page_url page;
    target ←
      (if contains "accounts.google.com" current_url then mret (Some page)
       else
         popup_pages ← context_pages page;
         if (1 <? length popup_pages)%nat then
           let google_page := List.last popup_pages page in
           _ ← wait_for_load_state google_page;
           mret (Some google_page)
         else mret None);
    match target with
    | None => mret false
    | Some google_page =>
      r ← attempt
            (email_input ← wait_for_selector google_page "input[type='email']";
             _ ← fill email_input email;
             _ ← wait_for_timeout google_page 1000;
             mret email_input);
      match r with
      | Raise _ => mret false
      | Ok email_input =>
        next_clicked ← click_first google_page next_selectors;
        _ ← (if negb next_clicked then press email_input "Enter" else mret tt);
        _ ← wait_for_timeout google_page 3000;
        r ← attempt
              (password_input ← wait_for_selector google_page "input[type='password']";
               _ ← fill password_input password;
               _ ← wait_for_timeout google_page 1000;
               mret password_input);
        match r with
        | Raise _ => mret false
        | Ok password_input =>
          signin_clicked ← click_first google_page signin_selectors;
          _ ← (if negb signin_clicked then press password_input "Enter" else mret tt);
          _ ← wait_for_timeout page 10000;
          open_popup ←
            (if negb (google_page =? page)%nat
             then closed ← is_closed google_page; mret (negb closed)
             else mret false);
          _ ← (if open_popup : bool then close_page google_page else mret tt);
          _ ← wait_for_timeout page 2000;
          current_url ← page_url page;
          if contains "pinterest.com" current_url &&
             negb (contains "login" (lower current_url))
          then mret true
          else
            found ← attempt (find_indicator page logged_in_indicators);
            match found with
            | Ok true => mret true
            | _ =>
                if contains "pinterest.com" current_url then mret true
                else mret false
            end
        end
      end
    end
  end.

(** [PinterestAuthenticator.login_with_google]. *)
Definition login_with_google (page : nat) (email password : string)
    : list Call -> bool * list Call :=
  except_false (login_with_google_body page email password).

(** The [try] block of [login]. *)
Definition login_body (page : nat) (email password : string) : io bool :=
  _ ← print direct_start;
  _ ← goto page login_url "domcontentloaded";
  _ ← wait_for_timeout page 2000;
  email_input ← wait_for_selector page "input[id='email']";
  _ ← fill email_input email;
  _ ← wait_for_timeout page 500;
  password_input ← wait_for_selector page "input[id='password']";
  _ ← fill password_input password;
  _ ← wait_for_timeout page 500;
  login_button ← wait_for_selector page "button[type='submit']";
  _ ← click login_button;
  _ ← wait_for_timeout page 5000;
  current_url ← page_url page;
  if negb (contains "login" (lower current_url)) then mret true
  else
    error ← query_selector page
              "div[data-test-id='error-message'], div:has-text('incorrect')";
    _ ← (match error with
         | Some _ => _ ← text_content error; mret tt
         | None => mret tt
         end);
    mret false.

(** [PinterestAuthenticator.login]. *)
Definition login (page : nat) (email password : string)
    : list Call -> bool * list Call :=
  except_false (login_body page email password).

(** The [try] block of [login_with_cookies]. *)
Definition login_with_cookies_body (cookies_path : string) : io bool :=
  a ← call (PathExists cookies_path);
  file_exists ← lift (as_bool a);
  if negb file_exists then mret false
  else
    a ← call (ReadJson cookies_path);
    cookies ← lift (as_cookies a);
    a ← call (AddCookies cookies);
    _ ← lift (as_unit a);
    mret true.

(** [PinterestAuthenticator.login_with_cookies]. *)
Definition login_with_cookies (cookies_path : string)
    : list Call -> bool * list Call :=
  except_false (login_with_cookies_body cookies_path).

(** [PinterestAuthenticator.save_cookies]. *)
Definition save_cookies (cookies_path : string) : list Call -> bool * list Call :=
  except_false
    (a ← call GetCookies;
     cookies ← lift (as_cookies a);
     a ← call (MkdirParent cookies_path);
     _ ← lift (as_unit a);
     a ← call (WriteJson cookies_path cookies);
     _ ← lift (as_unit a);
     mret true).

End Strategies.

(** The calls hold the typing of the password into the password field of
    the page [google_page]; of the e-mail into its e-mail field and then of
    the password. *)
Definition types_password (google_page : nat) (password : string)
    (l : list Call) : Prop :=
  exists h l2 l3,
    l = l2 ++ [WaitForSelector google_page "input[type='password']";
               Fill h password] ++ l3.

Definition types_credentials (google_page : nat) (email password : string)
    (l : list Call) : Prop :=
  exists h l1 l',
    l = l1 ++ [WaitForSelector google_page "input[type='email']";
               Fill h email] ++ l' /\
    types_password google_page password l'.

(** An environment in which the saved cookies load but the site does not
    take them for a session: no profile marker is found, and the page stays
    on the login URL. *)
Definition stale_cookies_env (n : nat) (c : Call) : result Answer :=
  match c with
  | PathExists _ => Ok (ABool true)
  | ReadJson _ => Ok (ACookies ["_pinterest_sess=expired"])
  | AddCookies _ => Ok AUnit
  | QuerySelector _ _ => Ok (AHandle None)
  | PageUrl _ => Ok (AStr login_url)
  | Goto _ _ _ | WaitForTimeout _ _ => Ok AUnit
  | _ => Raise (OtherError "Timeout 5000ms exceeded")
  end.

(** An environment in which every call times out. *)
Definition timeout_env (n : nat) (c : Call) : result Answer :=
  Raise (OtherError "Timeout 30000ms exceeded").

(** An environment without a cookie file in which the Google login goes
    through: the page is at the identity provider after the click on the
    Google button and back at the site at the end. *)
Definition google_env (n : nat) (c : Call) : result Answer :=
  match c with
  | PathExists _ => Ok (ABool false)
  | Goto _ _ _ | WaitForTimeout _ _ | Click _ | Fill _ _ | Press _ _
  | MkdirParent _ | WriteJson _ _ => Ok AUnit
  | WaitForSelector _ _ => Ok (AHandle (Some 1))
  | PageUrl _ =>
      if (n <? 10)%nat then Ok (AStr "https://accounts.google.com/signin")
      else Ok (AStr "https://www.pinterest.com/")
  | GetCookies => Ok (ACookies ["_pinterest_sess=fresh"])
  | _ => Raise (OtherError "Timeout 30000ms exceeded")
  end.

End PinterestAuth.

(** ** [scrape_pinterest_images.py]: authentication *)

Module PinterestScraper.
Import Playwright PinterestAuth.

(** The fields of [PinterestScraper] the authentication reads; [None] is
    Python's [None]. *)
Record Config : Type := mkConfig {
  cookies_path : option string;
  email : option string;
  password : option string
}.

(** Python's truth value of an optional string. *)
Definition truthy (o : option string) : bool :=
  match o with
  | Some s => negb (String.eqb s "")
  | None => false
  end.

Definition text (o : option string) : string := default "" o.

Inductive strategy : Type :=
  | SessionRestore
  | Federated
  | DirectCredential.

(** The call that opens a strategy. *)
Definition strategy_of (c : Call) : option strategy :=
  match c with
  | PathExists _ => Some SessionRestore
  | Print msg =>
      if String.eqb msg google_start then Some Federated
      else if String.eqb msg direct_start then Some DirectCredential
      else None
  | _ => None
  end.

(** The strategies a run attempted, in the order of their attempts. *)
Definition attempts (l : list Call) : list strategy := omap strategy_of l.

Definition profile_url (username : string) : string :=
  "https://www.pinterest.com/" +:+ username +:+ "/".

Section Scraper.
Variable env : nat -> Call -> result Answer.

(** The authentication block of [PinterestScraper.scrape_profile]. *)
Definition authenticate (cfg : Config) (page : nat) (log : list Call)
    : bool * list Call :=
  let logged_in := false in
  let '(logged_in, log) :=
    if truthy (cookies_path cfg)
    then login_with_cookies env (text (cookies_path cfg)) log
    else (logged_in, log) in
  let '(logged_in, log) :=
    if negb logged_in && truthy (email cfg) && truthy (password cfg) then
      let '(logged_in, log) :=
        login_with_google env page (text (email cfg)) (text (password cfg)) log in
      let '(logged_in, log) :=
        if negb logged_in
        then login env page (text (email cfg)) (text (password cfg)) log
        else (logged_in, log) in
      let log :=
        if logged_in && truthy (cookies_path cfg)
        then (save_cookies env (text (cookies_path cfg)) log).2
        else log in
      (logged_in, log)
    else (logged_in, log) in
  let log :=
    if negb logged_in
    then log ++ [Print not_logged_in; Print login_hint]
    else log in
  (logged_in, log).

(** [scrape_profile] up to the navigation to the profile. *)
Definition scrape_profile_start (cfg : Config) (username : string) (page : nat)
    : sx (list Call) bool :=
  fun log =>
    let '(logged_in, log) := authenticate cfg page log in
    (r ← attempt (goto env page (profile_url username) "domcontentloaded");
     _ ← (match r with
          | Ok _ => mret tt
          | Raise _ => goto env page (profile_url username) "load"
          end);
     _ ← wait_for_timeout env page 5000;
     mret logged_in) log.

End Scraper.

End PinterestScraper.

(** ** [src/extractors/search.py] and [src/extractors/pinterest.py]:
    scrolling *)

Module SearchExtractor.
Import Playwright.

Definition scroll_script : string :=
  "window.scrollTo(0, document.body.scrollHeight)".

Definition link_selectors : list string :=
  ["a[href*='/gallery/']"; "div[class*='ProjectCover'] a"; ".project-link"].

(** The full URL of a link: a relative [href] is put under the site. *)
Definition full_url_of (href : string) : string :=
  if String.prefix "/" href then "https://www.behance.net" +:+ href else href.

(** [full_url.split('?')[0]]. *)
Definition base_url_of (full_url : string) : string :=
  PyStr.before "?" full_url.

Section Links.
(** For a selector, the [href] attribute of every element [soup.select]
    returns for it, in document order; [None] for an element without the
    attribute. *)
Variable select : string -> list (option string).

(** The inner loop of [extract_project_links] over the elements of one
    selector. *)
Fixpoint collect_links (hrefs : list (option string)) (seen_urls : gset string)
    (project_links : list string) : gset string * list string :=
  match hrefs with
  | [] => (seen_urls, project_links)
  | href :: rest =>
      match href with
      | None => collect_links rest seen_urls project_links
      | Some href =>
          if String.eqb href "" then collect_links rest seen_urls project_links
          else
            let full_url := full_url_of href in
            let base_url := base_url_of full_url in
            if negb (bool_decide (base_url ∈ seen_urls)) &&
               PyStr.contains "/gallery/" base_url
            then collect_links rest ({[ base_url ]} ∪ seen_urls)
                   (project_links ++ [full_url])
            else collect_links rest seen_urls project_links
      end
  end.

(** The outer loop, over the selectors. *)
Fixpoint collect_selectors (selectors : list string) (seen_urls : gset string)
    (project_links : list string) : gset string * list string :=
  match selectors with
  | [] => (seen_urls, project_links)
  | selector :: rest =>
      let '(seen_urls, project_links) :=
        collect_links (select selector) seen_urls project_links in
      collect_selectors rest seen_urls project_links
  end.

(** [SearchExtractor.extract_project_links], from the parsed page. *)
Definition extract_project_links : list string :=
  (collect_selectors link_selectors ∅ []).2.

(** What holds of the links collected so far. *)
Definition links_invariant (selectors : list string) (seen_urls : gset string)
    (project_links : list string) : Prop :=
  seen_urls = list_to_set (base_url_of <$> project_links) /\
  NoDup (base_url_of <$> project_links) /\
  Forall (fun u => PyStr.contains "/gallery/" (base_url_of u) = true) project_links /\
  Forall (fun u => exists selector href,
            selector ∈ selectors /\ Some href ∈ select selector /\
            u = full_url_of href) project_links.

End Links.

Definition skipped_hrefs : list string := ["/"; "/search"; "/discover"].

Definition skipped_parts : list string :=
  ["/about"; "/contact"; "/terms"; "/privacy"; "/help"].

(** The character class [[a-zA-Z0-9_-]]. *)
Definition username_char (c : ascii) : bool :=
  let n := nat_of_ascii c in
  ((97 <=? n)%nat && (n <=? 122)%nat) || ((65 <=? n)%nat && (n <=? 90)%nat) ||
  ((48 <=? n)%nat && (n <=? 57)%nat) || (n =? 95)%nat || (n =? 45)%nat.

(** [[a-zA-Z0-9_-]*$] on what is left of the string: [$] matches at the end
    of the string and before a newline that ends it. *)
Fixpoint username_rest (s : string) : bool :=
  match s with
  | EmptyString => true
  | String c t =>
      if username_char c then username_rest t
      else Ascii.eqb c "010" && String.eqb t ""
  end.

(** Every character of [s] is in the class. *)
Fixpoint username (s : string) : bool :=
  match s with
  | EmptyString => true
  | String c t => username_char c && username t
  end.

(** [s] without the prefix [p], when it starts with it. *)
Fixpoint after_prefix (p s : string) : option string :=
  match p, s with
  | EmptyString, _ => Some s
  | String a p', String b s' =>
      if Ascii.eqb a b then after_prefix p' s' else None
  | _, _ => None
  end.

(** [re.match(r'^https://www\.behance\.net/[a-zA-Z0-9_-]+$', base_url)]. *)
Definition is_profile_url (base_url : string) : bool :=
  match after_prefix "https://www.behance.net/" base_url with
  | Some (String c t) => username_char c && username_rest t
  | _ => false
  end.

(** The loop of [extract_user_links] over the [href] attributes of the
    elements of its selector. *)
Fixpoint collect_user_links (hrefs : list (option string)) (seen_urls : gset string)
    (user_links : list string) : list string :=
  match hrefs with
  | [] => user_links
  | href :: rest =>
      match href with
      | None => collect_user_links rest seen_urls user_links
      | Some href =>
          if String.eqb href "" || PyStr.str_in href skipped_hrefs
          then collect_user_links rest seen_urls user_links
          else if existsb (fun skip => PyStr.contains skip href) skipped_parts
          then collect_user_links rest seen_urls user_links
          else
            let full_url := full_url_of href in
            let base_url := base_url_of full_url in
            if is_profile_url base_url then
              if negb (bool_decide (base_url ∈ seen_urls))
              then collect_user_links rest ({[ base_url ]} ∪ seen_urls)
                     (user_links ++ [full_url])
              else collect_user_links rest seen_urls user_links
            else collect_user_links rest seen_urls user_links
      end
  end.

(** The URLs the pattern of [extract_user_links] matches: the site, then
    one segment of characters of the class, then the end of the string or
    one newline that ends it. *)
Definition profile_shape (base_url : string) : Prop :=
  exists name tail,
    base_url = "https://www.behance.net/" +:+ name +:+ tail /\
    name <> "" /\ username name = true /\
    (tail = "" \/ tail = String "010" "").

(** What holds of the profile links collected so far, out of the
    attributes [all]. *)
Definition user_links_invariant (all : list (option string))
    (seen_urls : gset string) (user_links : list string) : Prop :=
  seen_urls = list_to_set (base_url_of <$> user_links) /\
  NoDup (base_url_of <$> user_links) /\
  Forall (fun u =>
            is_profile_url (base_url_of u) = true /\
            exists href,
              Some href ∈ all /\ u = full_url_of href /\
              PyStr.str_in href skipped_hrefs = false /\
              existsb (fun skip => PyStr.contains skip href) skipped_parts = false)
    user_links.

(** [SearchExtractor.extract_user_links], from the parsed page. *)
Definition extract_user_links (hrefs : list (option string)) : list string :=
  collect_user_links hrefs ∅ [].

Section Extractor.
Variable env : nat -> Call -> result Answer.

(** The body of the [for] loop of [scroll_to_load_more], run [n] times. *)
Fixpoint scroll_rounds (page : nat) (n : nat) : sx (list Call) unit :=
  match n with
  | O => mret tt
  | S n' =>
      _ ← evaluate env page scroll_script;
      _ ← wait_for_timeout env page 2000;
      load_more_button ← query_selector env page "button:has-text('Load More')";
      _ ← (match load_more_button with
           | Some _ =>
               _ ← click env load_more_button;
               wait_for_timeout env page 2000
           | None => mret tt
           end);
      scroll_rounds page n'
  end.

(** [SearchExtractor.scroll_to_load_more]; [range(scroll_count)] is empty
    for a count that is not positive. *)
Definition scroll_to_load_more (page : nat) (scroll_count : Z)
    : sx (list Call) unit :=
  scroll_rounds page (Z.to_nat scroll_count).

End Extractor.

End SearchExtractor.

Module PinterestPinExtractor.
Import Playwright.

Section Extractor.
Variable env : nat -> Call -> result Answer.

Fixpoint scroll_rounds (page : nat) (n : nat) : sx (list Call) unit :=
  match n with
  | O => mret tt
  | S n' =>
      _ ← evaluate env page SearchExtractor.scroll_script;
      _ ← wait_for_timeout env page 1500;
      scroll_rounds page n'
  end.

(** [PinterestPinExtractor._scroll_to_load]. *)
Definition _scroll_to_load (page : nat) (scrolls : Z) : sx (list Call) unit :=
  scroll_rounds page (Z.to_nat scrolls).

End Extractor.

End PinterestPinExtractor.

(** A page whose listing never grows: scrolling and waiting succeed, and no
    [Load More] button ever shows. *)
Definition still_listing_env (n : nat) (c : Playwright.Call)
    : result Playwright.Answer :=
  match c with
  | Playwright.Evaluate _ _ | Playwright.WaitForTimeout _ _ => Ok Playwright.AUnit
  | Playwright.QuerySelector _ _ => Ok (Playwright.AHandle None)
  | _ => Raise (OtherError "Timeout 30000ms exceeded")
  end.

(** The scroll-advances among the calls of a run. *)
Definition is_scroll (c : Playwright.Call) : bool :=
  match c with
  | Playwright.Evaluate _ script => String.eqb script SearchExtractor.scroll_script
  | _ => false
  end.

Definition count_scrolls (l : list Playwright.Call) : nat :=
  length (List.filter is_scroll l).

(** ** [scripts/scrape_behance.py]: the collection loop

    What [scrape_project] does to the browser, the store and the disk is
    not looked into: it is a computation on a state [W] that returns or
    raises. *)

Module BehanceScraper.

Inductive Event : Type :=
  | Skipping (url : string)
  | Processing (url : string)
  | ErrorScraping (msg : string)
  | Sleep (seconds : Z).

Record State (W : Type) : Type := mkState {
  processed_projects : gset string;
  world : W;
  output : list Event
}.

Arguments mkState {W} _ _ _.
Arguments processed_projects {W} _.
Arguments world {W} _.
Arguments output {W} _.

(** [l[:stop]]. *)
Definition slice_to {A : Type} (stop : Z) (l : list A) : list A :=
  if (0 <=? stop)%Z then take (Z.to_nat stop) l
  else take (length l - Z.to_nat (- stop)) l.

Section Scraper.
Variable W : Type.
Variable scrape_project : string -> sx W unit.

(** The [for] loop of [scrape_search]; [n] is [len(project_links)] and [i]
    the index [enumerate] gives to the head of [project_links]. *)
Fixpoint scrape_each (n i : nat) (project_links : list string) (count : nat)
    (st : State W) : nat * State W :=
  match project_links with
  | [] => (count, st)
  | project_url :: rest =>
      if bool_decide (project_url ∈ processed_projects st) then
        scrape_each n (S i) rest count
          (mkState (processed_projects st) (world st)
             (output st ++ [Skipping project_url]))
      else
        match scrape_project project_url (world st) with
        | (Ok _, w) =>
            scrape_each n (S i) rest (S count)
              (mkState ({[ project_url ]} ∪ processed_projects st) w
                 (output st ++ [Processing project_url] ++
                    (if (i <? n)%nat then [Sleep 3] else [])))
        | (Raise e, w) =>
            scrape_each n (S i) rest count
              (mkState (processed_projects st) w
                 (output st ++ [Processing project_url; ErrorScraping (exn_str e)]))
        end
  end.

(** [BehanceScraper.scrape_search], from the links the search returned. *)
Definition scrape_search (project_links : list string) (max_projects : Z)
    (st : State W) : nat * State W :=
  let project_links := slice_to max_projects project_links in
  scrape_each (length project_links) 1 project_links 0 st.

(** The state of [W] after [scrape_project] has run on each of [urls]. *)
Definition replay (urls : list string) (w : W) : W :=
  fold_left (fun w url => (scrape_project url w).2) urls w.

End Scraper.

(** A [scrape_project] for examples: the state records the URLs it was
    given, and the URL [bad] times out. *)
Definition timing_out (bad : string) (url : string) : sx (list string) unit :=
  fun w =>
    (if String.eqb url bad then Raise (OtherError "Timeout 30000ms exceeded")
     else Ok tt,
     w ++ [url]).

(** The URLs a run handed to [scrape_project], in order. *)
Definition attempted (l : list Event) : list string :=
  omap (fun ev => match ev with Processing url => Some url | _ => None end) l.

Definition errors (l : list Event) : nat :=
  length (List.filter (fun ev => match ev with ErrorScraping _ => true | _ => false end) l).

(** The skip messages and the pauses among the events of a run. *)
Definition skipped (l : list Event) : nat :=
  length (List.filter (fun ev => match ev with Skipping _ => true | _ => false end) l).

Definition sleeps (l : list Event) : nat :=
  length (List.filter (fun ev => match ev with Sleep _ => true | _ => false end) l).

End BehanceScraper.

(** ** [cron_scraper.py]: the loop over the projects *)

Module CronScraper.

(** [re.search(r'search=([^&]+)', search_url)]: the first place where
    [search=] is followed by a character other than [&], and the characters
    from there up to the next [&]. *)
Fixpoint search_query (search_url : string) : option string :=
  let later :=
    match search_url with
    | EmptyString => None
    | String _ t => search_query t
    end in
  match SearchExtractor.after_prefix "search=" search_url with
  | Some (String c t) =>
      if Ascii.eqb c "&" then later else Some (PyStr.before "&" (String c t))
  | _ => later
  end.

(** [query_match.group(1) if query_match else 'design']. *)
Definition query_of (search_url : string) : string :=
  default "design" (search_query search_url).

(** [f"https://www.behance.net/search/projects?search={query}"], the URL
    [search_projects] goes to. *)
Definition search_url_of (query : string) : string :=
  "https://www.behance.net/search/projects?search=" +:+ query.

Definition configured_urls : list string :=
  ["https://www.behance.net/search/projects?search=magenta";
   "https://www.behance.net/search/projects?search=branding"].

Record Stats : Type := mkStats {
  projects_scraped : nat;
  images_downloaded : nat;
  errors : nat
}.

Section Scraper.
Variable W : Type.
(** The [try] block up to the update of the statistics: [None] when the
    project has no image, the number of downloaded images otherwise. *)
Variable scrape_one : string -> sx W (option nat).

(** The loop over [project_links] of [CronScraper.scrape_behance]. *)
Fixpoint scrape_each (project_links : list string) (stats : Stats) (w : W)
    (visited : list string) : Stats * W * list string :=
  match project_links with
  | [] => (stats, w, visited)
  | project_url :: rest =>
      match scrape_one project_url w with
      | (Ok (Some success_count), w') =>
          scrape_each rest
            (mkStats (projects_scraped stats + 1)
               (images_downloaded stats + success_count) (errors stats))
            w' (visited ++ [project_url])
      | (Ok None, w') =>
          scrape_each rest stats w' (visited ++ [project_url])
      | (Raise _, w') =>
          scrape_each rest
            (mkStats (projects_scraped stats) (images_downloaded stats)
               (errors stats + 1))
            w' (visited ++ [project_url])
      end
  end.

End Scraper.

End CronScraper.

(** ** [scrape_pinterest_images.py]: the loop over the boards *)

Module PinterestBoards.

Record Board : Type := mkBoard {
  name : string;
  url : string
}.

Record Stats : Type := mkStats {
  boards_scraped : nat;
  pins_scraped : nat;
  images_downloaded : nat;
  boards : list (string * nat * nat)
}.

Record State (W : Type) : Type := mkState {
  processed_boards : gset string;
  stats : Stats;
  world : W;
  visited : list string
}.

Arguments mkState {W} _ _ _ _.
Arguments processed_boards {W} _.
Arguments stats {W} _.
Arguments world {W} _.
Arguments visited {W} _.

Section Scraper.
Variable W : Type.
(** The [try] block of the loop up to the statistics: the number of pins of
    the board and the number of images downloaded for them. *)
Variable scrape_board : Board -> sx W (nat * nat).

(** The loop over [boards] of [PinterestScraper.scrape_profile]. *)
Fixpoint scrape_each (boards0 : list Board) (st : State W) : State W :=
  match boards0 with
  | [] => st
  | board :: rest =>
      if bool_decide (url board ∈ processed_boards st) then scrape_each rest st
      else
        match scrape_board board (world st) with
        | (Ok (pins, success_count), w) =>
            let s := stats st in
            let s :=
              if (0 <? pins)%nat
              then mkStats (boards_scraped s) (pins_scraped s + pins)
                     (images_downloaded s + success_count) (boards s)
              else s in
            scrape_each rest
              (mkState ({[ url board ]} ∪ processed_boards st)
                 (mkStats (boards_scraped s + 1) (pins_scraped s)
                    (images_downloaded s)
                    (boards s ++
                       [(name board, pins,
                         if (0 <? pins)%nat then success_count else 0)]))
                 w (visited st ++ [url board]))
        | (Raise _, w) =>
            scrape_each rest
              (mkState (processed_boards st) (stats st) w
                 (visited st ++ [url board]))
        end
  end.

End Scraper.

End PinterestBoards.

(** ** [src/extractors/pinterest.py]: the loop over the pin elements

    What [_extract_pin_from_element] asks the browser is not looked into:
    it is a computation on a state [W] that returns a pin, returns [None],
    or raises. *)

Module PinterestPins.

Section Pins.
Variables W Elem Pin : Type.
Variable _extract_pin_from_element : Elem -> sx W (option Pin).

(** The loop over [pin_elements[:max_pins]] of [extract_pins_from_board]. *)
Fixpoint extract_each (pin_elements : list Elem) (pins : list Pin) (w : W)
    : list Pin * W :=
  match pin_elements with
  | [] => (pins, w)
  | elem :: rest =>
      match _extract_pin_from_element elem w with
      | (Ok (Some pin), w') => extract_each rest (pins ++ [pin]) w'
      | (Ok None, w') => extract_each rest pins w'
      | (Raise _, w') => extract_each rest pins w'
      end
  end.

(** [extract_pins_from_board], from the elements found on the page. *)
Definition extract_pins (pin_elements : list Elem) (max_pins : Z) (w : W)
    : list Pin * W :=
  extract_each (BehanceScraper.slice_to max_pins pin_elements) [] w.

(** The pins the elements give, one after the other, from the state [w]. *)
Fixpoint pins_of (pin_elements : list Elem) (w : W) : list Pin :=
  match pin_elements with
  | [] => []
  | elem :: rest =>
      match _extract_pin_from_element elem w with
      | (Ok (Some pin), w') => pin :: pins_of rest w'
      | (_, w') => pins_of rest w'
      end
  end.

End Pins.

End PinterestPins.

(** * Properties *)

(** ** The image model *)

Section ImageFacts.
Import PyStr ImageModel ImageExtractor.

Example lower_mixed : lower "PnG" = "png".
Proof. reflexivity. Qed.

Example contains_mid : contains ".png" "https://cdn/x.png?w=3" = true.
Proof. reflexivity. Qed.

Example extract_format_upper : extract_format "https://cdn/A.JPEG" = "jpg".
Proof. reflexivity. Qed.

Example extract_format_none : extract_format "https://cdn/picture" = "jpg".
Proof. reflexivity. Qed.

Lemma str_in_elem x l : str_in x l = true <-> x ∈ l.
Proof.
  unfold str_in. rewrite existsb_exists. split.
  - intros (y & Hy & Heq). apply String.eqb_eq in Heq. subst.
    by apply list_elem_of_In.
  - intros H. exists x. split; [by apply list_elem_of_In | apply String.eqb_refl].
Qed.

Lemma validate_format_ok v f :
  validate_format v = Ok f -> f = lower v /\ f ∈ valid_formats.
Proof.
  unfold validate_format.
  destruct (str_in (lower v) valid_formats) eqn:E; simpl; [|discriminate].
  intros [= <-]. split; [done | by apply str_in_elem].
Qed.

Lemma lower_valid_formats f : f ∈ valid_formats -> lower f = f.
Proof.
  unfold valid_formats. rewrite !elem_of_cons, elem_of_nil.
  intros [->|[->|[->|[->|[->|[->|[]]]]]]]; reflexivity.
Qed.

Lemma gt0_ok n m : gt0 n = Ok m -> m = n /\ (0 < n)%Z.
Proof.
  unfold gt0. destruct (0 <? n)%Z eqn:E; [|discriminate].
  intros [= <-]. split; [done | by apply Z.ltb_lt].
Qed.

Variable http_url : string -> result string.

Lemma Image_init_ok u w h s f p img :
  Image_init http_url u w h s f p = Ok img ->
  http_url u = Ok (url img) /\ gt0 w = Ok (width img) /\
  gt0 h = Ok (height img) /\ validate_format f = Ok (format img) /\
  size img = s /\ project_id img = p.
Proof.
  unfold Image_init.
  destruct (http_url u), (gt0 w), (gt0 h), (validate_format f);
    try discriminate.
  intros [= <-]. simpl. auto 6.
Qed.

Lemma true_divide_cases a b :
  (b <> 0)%Z ->
  (exists q,
     PyNum.true_divide a b = Ok q /\
     q = SFdiv 53 1024 (PyNum.of_int a) (PyNum.of_int b) /\
     forall s, q <> S754_infinity s) \/
  (exists s msg,
     PyNum.true_divide a b = Raise (OverflowError msg) /\
     SFdiv 53 1024 (PyNum.of_int a) (PyNum.of_int b) = S754_infinity s).
Proof.
  intros Hb. unfold PyNum.true_divide.
  destruct (Z.eqb_spec b 0) as [|_]; [done|].
  destruct (SFdiv 53 1024 (PyNum.of_int a) (PyNum.of_int b)) as [s|s| |s m e] eqn:E;
    [left|right|left|left]; eauto.
Qed.

(** C9, as stated, fails: the constructor accepts an image of width
    10^400 and height 1, and on it [aspect_ratio] raises [OverflowError];
    the property is not total on the images the constructor returns. *)
Lemma aspect_ratio_overflows :
  let img := mkImage "https://cdn/a.png" (10 ^ 400) 1 0 "png" 7 in
  Image_init Ok "https://cdn/a.png" (10 ^ 400) 1 0 "png" 7 = Ok img /\
  aspect_ratio img =
    Raise (OverflowError "integer division result too large for a float").
Proof. vm_compute. split; reflexivity. Qed.

Example aspect_ratio_full_hd :
  aspect_ratio (mkImage "https://cdn/a.png" 1920 1080 0 "png" 7) =
  Ok (S754_finite false 8006399337547548 (-52)).
Proof. vm_compute. reflexivity. Qed.

(** C9, amended. Every [Image] the constructor returns has positive width
    and height and a lower-case format among jpg, jpeg, png, gif, webp and
    svg; on such an image [aspect_ratio] never raises [ZeroDivisionError]:
    it returns the float nearest to width / height, or raises
    [OverflowError] when that float would be beyond the largest one. *)
Theorem Image_init_valid u w h s f p img :
  Image_init http_url u w h s f p = Ok img ->
  (0 < width img)%Z /\ (0 < height img)%Z /\
  format img ∈ valid_formats /\ format img = lower f /\
  lower (format img) = format img /\
  aspect_ratio img <> Raise ZeroDivisionError /\
  ((exists q,
      aspect_ratio img = Ok q /\
      q = SFdiv 53 1024 (PyNum.of_int (width img)) (PyNum.of_int (height img)) /\
      forall sign, q <> S754_infinity sign) \/
   (exists sign msg,
      aspect_ratio img = Raise (OverflowError msg) /\
      SFdiv 53 1024 (PyNum.of_int (width img)) (PyNum.of_int (height img)) =
        S754_infinity sign)).
Proof.
  intros H. apply Image_init_ok in H as (_ & Hw & Hh & Hf & _ & _).
  apply gt0_ok in Hw as [Hw1 Hw2], Hh as [Hh1 Hh2].
  apply validate_format_ok in Hf as [Hf1 Hf2].
  rewrite Hw1, Hh1. repeat split; try done.
  - by apply lower_valid_formats.
  - unfold aspect_ratio. rewrite Hw1, Hh1.
    destruct (true_divide_cases w h ltac:(lia)) as [(q & -> & _)|(sg & msg & -> & _)];
      discriminate.
  - unfold aspect_ratio. rewrite Hw1, Hh1. apply true_divide_cases. lia.
Qed.

End ImageFacts.

Lemma Image_init_valid_witness :
  let img := ImageModel.mkImage "https://cdn/a.PNG" 1920 1080 0 "png" 7 in
  ImageModel.Image_init Ok "https://cdn/a.PNG" 1920 1080 0 "PNG" 7 = Ok img /\
  ImageModel.aspect_ratio img <> Raise ZeroDivisionError.
Proof.
  simpl. split; [reflexivity|].
  apply (Image_init_valid Ok "https://cdn/a.PNG" 1920 1080 0 "PNG" 7).
  reflexivity.
Defined.

Section ExtractFormatFacts.
Import PyStr ImageModel ImageExtractor.

Lemma extract_format_cases u :
  extract_format u ∈ extractor_formats.
Proof.
  unfold extract_format, extractor_formats.
  repeat match goal with
         | |- context [if ?b then _ else _] => destruct b
         end; set_solver.
Qed.

Lemma extract_format_default u :
  forallb (fun e => negb (contains e (lower u))) known_extensions = true ->
  extract_format u = "jpg".
Proof.
  unfold known_extensions, extract_format. simpl.
  rewrite !andb_true_iff, !negb_true_iff.
  intros (-> & -> & -> & -> & -> & -> & _). reflexivity.
Qed.

Lemma validate_extractor_format f :
  f ∈ extractor_formats -> validate_format f = Ok f.
Proof.
  unfold extractor_formats. rewrite !elem_of_cons, elem_of_nil.
  intros [->|[->|[->|[->|[->|[]]]]]]; reflexivity.
Qed.

(** C10. For every URL string [extract_format] returns one of jpg, png,
    gif, webp, svg; it returns jpg when none of the known extension
    substrings occurs in the lower-cased URL; and the format validator of
    the [Image] model accepts the value unchanged. *)
Theorem extract_format_accepted u :
  extract_format u ∈ extractor_formats /\
  (extract_format u = "jpg" \/
   existsb (fun e => contains e (lower u)) known_extensions = true) /\
  validate_format (extract_format u) = Ok (extract_format u).
Proof.
  split; [apply extract_format_cases|]. split.
  - destruct (existsb _ known_extensions) eqn:E; [by right|left].
    apply extract_format_default.
    rewrite forallb_forall. intros e He.
    destruct (contains e (lower u)) eqn:Hc; [|done].
    assert (existsb (fun e => contains e (lower u)) known_extensions = true)
      by (apply existsb_exists; eauto).
    congruence.
  - apply validate_extractor_format, extract_format_cases.
Qed.

End ExtractFormatFacts.

(** ** Persistence *)

Section MongoFacts.
Import Mongo.

Implicit Types (d fields : gmap string value) (c : collection).

Lemma update_first_None p f l :
  update_first p f l = None <-> Forall (fun d => p d = false) l.
Proof.
  induction l as [|d l IH]; simpl.
  - split; [constructor | done].
  - destruct (p d) eqn:E.
    + split; [done | intros H; inversion H; congruence].
    + destruct (update_first p f l).
      * split; [done | intros H; inversion H; subst].
        destruct IH as [_ IH]. by discriminate IH.
      * split; [|done]. intros _. constructor; [done | by apply IH].
Qed.




Lemma filter_none (P : gmap string value -> Prop)
    `{!forall d, Decision (P d)} l :
  Forall (fun d => ¬ P d) l -> filter P l = [].
Proof.
  induction 1 as [|d l Hd _ IH]; [done|]. by rewrite filter_cons_False.
Qed.










End MongoFacts.

Section RepositoryFacts.
Import Mongo.

Lemma length_stamp n ds : length (stamp n ds) = length ds.
Proof. revert n. induction ds; intros n; simpl; [done | by rewrite IHds]. Qed.






(** The texts of a document are always encodable. *)
Lemma encodable_strings (l : list string) : forallb encodable (map VStr l) = true.
Proof. by induction l. Qed.

Lemma encodable_covers (l : list (string * string)) :
  forallb (fun kv => encodable (snd kv))
    (map (fun kv => (fst kv, VStr (snd kv))) l) = true.
Proof. by induction l. Qed.

(** The driver can encode the dict of a project exactly when the integers
    of the project fit. *)
Lemma project_dict_encodable p :
  doc_encodable (ProjectRepository.project_dict p) = ProjectRepository.fits p.
Proof.
  apply eq_true_iff_eq. unfold doc_encodable, ProjectRepository.fits.
  rewrite bool_decide_eq_true, !andb_true_iff. split.
  - intros H.
    pose proof (H "id" _ eq_refl) as H1. pose proof (H "owner_id" _ eq_refl) as H2.
    pose proof (H "stats" _ eq_refl) as H3. cbn in H1, H2, H3.
    rewrite !andb_true_iff in H3. tauto.
  - intros ((((H1 & H2) & H3) & H4) & H5) k v Hk.
    unfold ProjectRepository.project_dict, ProjectModel.model_dump in Hk.
    apply lookup_insert_Some in Hk as [[_ <-]|[_ Hk]]; [done|].
    apply elem_of_list_to_map_2 in Hk.
    repeat (apply elem_of_cons in Hk as [Hk|Hk];
            [simplify_eq; cbn [encodable forallb snd];
             rewrite ?H1, ?H2, ?H3, ?H4, ?H5, ?encodable_strings, ?encodable_covers;
             done|]).
    by apply elem_of_nil in Hk.
Qed.

Lemma image_dict_encodable i :
  doc_encodable (ImageRepository.image_dict i) = ImageRepository.fits i.
Proof.
  apply eq_true_iff_eq. unfold doc_encodable, ImageRepository.fits.
  rewrite bool_decide_eq_true, !andb_true_iff. split.
  - intros H.
    pose proof (H "width" _ eq_refl) as H1. pose proof (H "height" _ eq_refl) as H2.
    pose proof (H "size" _ eq_refl) as H3. pose proof (H "project_id" _ eq_refl) as H4.
    cbn in H1, H2, H3, H4. tauto.
  - intros (((H1 & H2) & H3) & H4) k v Hk.
    unfold ImageRepository.image_dict, ImageRepository.model_dump in Hk.
    apply lookup_insert_Some in Hk as [[_ <-]|[_ Hk]]; [done|].
    apply elem_of_list_to_map_2 in Hk.
    repeat (apply elem_of_cons in Hk as [Hk|Hk];
            [simplify_eq; cbn [encodable]; rewrite ?H1, ?H2, ?H3, ?H4; done|]).
    by apply elem_of_nil in Hk.
Qed.

Lemma image_dicts_encodable images :
  forallb doc_encodable (map ImageRepository.image_dict images) =
  forallb ImageRepository.fits images.
Proof.
  induction images as [|i images IH]; [done|]. simpl.
  by rewrite image_dict_encodable, IH.
Qed.

(** What the calls of the repositories come to. *)
Lemma upsert_run p c :
  ProjectRepository.upsert p c =
  if ProjectRepository.fits p
  then (Ok tt, apply_update_one (FieldEqInt "id" (ProjectModel.id p))
                 (ProjectRepository.project_dict p) true c)
  else (Raise not_encodable, c).
Proof.
  unfold ProjectRepository.upsert, update_one, encoded.
  fold (ProjectRepository.project_dict p). rewrite project_dict_encodable.
  unfold ProjectRepository.fits, query_encodable.
  by destruct (int64 (ProjectModel.id p)).
Qed.


Lemma save_many_run sent images c :
  ImageRepository.save_many sent images c =
  match images with
  | [] => (Raise (TypeError "documents must be a non-empty list"), c)
  | _ =>
      let ds := map ImageRepository.image_dict images in
      if forallb ImageRepository.fits images
      then (Ok tt, apply_insert_many ds c)
      else (Raise not_encodable,
            apply_insert_many (take (sent ds) (encodable_prefix ds)) c)
  end.
Proof.
  unfold ImageRepository.save_many.
  change (map _ images) with (map ImageRepository.image_dict images).
  destruct images as [|i images]; [done|].
  cbn [map insert_many]. cbv zeta.
  change (ImageRepository.image_dict i :: map ImageRepository.image_dict images)
    with (map ImageRepository.image_dict (i :: images)).
  by rewrite image_dicts_encodable.
Qed.

End RepositoryFacts.

Section PersistenceClaims.
Import Mongo.

Example upsert_into_empty :
  let p := ProjectModel.mkProject 5 "t" "d" "https://www.behance.net/gallery/5/t"
             0 0 0 (ProjectModel.mkProjectStats 1 2 3) ["a"] [] 9 "o" in
  ProjectRepository.count_id 5
    (ProjectRepository.upsert p (ProjectRepository.upsert p empty_collection).2).2 = 1.
Proof. reflexivity. Qed.

Example save_then_upsert_keeps_both :
  let p := ProjectModel.mkProject 5 "t" "d" "https://www.behance.net/gallery/5/t"
             0 0 0 (ProjectModel.mkProjectStats 1 2 3) ["a"] [] 9 "o" in
  ProjectRepository.count_id 5
    (ProjectRepository.upsert p
       (ProjectRepository.save p (ProjectRepository.save p empty_collection).2).2).2 = 2.
Proof. reflexivity. Qed.

Example upsert_beyond_int64 :
  let p := ProjectModel.mkProject (2 ^ 63) "t" "d" "https://www.behance.net/gallery/5/t"
             0 0 0 (ProjectModel.mkProjectStats 1 2 3) ["a"] [] 9 "o" in
  ProjectRepository.upsert p empty_collection =
  (Raise not_encodable, empty_collection).
Proof. reflexivity. Qed.



Example save_many_beyond_int64 :
  let good := ImageModel.mkImage "https://cdn/a.png" 1920 1080 0 "png" 7 in
  let big := ImageModel.mkImage "https://cdn/b.png" (2 ^ 63) 1080 0 "png" 7 in
  forall sent,
    (ImageRepository.save_many sent [good; big] empty_collection).1 =
      Raise not_encodable /\
    length (docs (ImageRepository.save_many sent [good; big] empty_collection).2) <= 1.
Proof.
  intros good big sent. rewrite save_many_run. cbv zeta.
  change (forallb ImageRepository.fits [good; big]) with false. cbn [fst snd].
  split; [reflexivity|].
  cbn [apply_insert_many docs empty_collection app]. rewrite length_stamp.
  change (encodable_prefix (map ImageRepository.image_dict [good; big]))
    with [ImageRepository.image_dict good].
  rewrite length_take. cbn [length]. lia.
Qed.


End PersistenceClaims.

(** ** The image pipeline *)

Section PipelineFacts.
Import ImagePipeline.

Variable md5_hexdigest : string -> string.
Variable urlparse_path : string -> result string.
Variable path_suffix : string -> string.
Variable path_join : string -> string -> string.

#[local] Abbreviation generate_filename :=
  (generate_filename md5_hexdigest urlparse_path path_suffix).
#[local] Abbreviation download_image :=
  (download_image md5_hexdigest urlparse_path path_suffix path_join).
#[local] Abbreviation download_many :=
  (download_many md5_hexdigest urlparse_path path_suffix path_join).
#[local] Abbreviation download_body :=
  (download_body md5_hexdigest urlparse_path path_suffix path_join).

Lemma download_image_url env out u w : url (download_image env out u w).1 = u.
Proof.
  unfold ImagePipeline.download_image.
  by destruct (download_body env out u w) as [[p|e] w'].
Qed.

Lemma download_image_captured env out u w :
  captured (download_image env out u w).1.
Proof.
  unfold ImagePipeline.download_image, captured.
  destruct (download_body env out u w) as [[p|e] w']; simpl; [left|right]; eauto.
Qed.

Lemma download_many_cons env out u urls w :
  download_many env out (u :: urls) w =
  ((download_image env out u w).1 ::
     (download_many env out urls (download_image env out u w).2).1,
   (download_many env out urls (download_image env out u w).2).2).
Proof.
  simpl. destruct (download_image env out u w) as [r w1]. simpl.
  by destruct (download_many env out urls w1) as [rs w2].
Qed.

Lemma download_many_urls env out urls w :
  url <$> (download_many env out urls w).1 = urls.
Proof.
  revert w. induction urls as [|u urls IH]; intros w; [done|].
  rewrite download_many_cons. cbn [fst fmap list_fmap].
  f_equal; [apply download_image_url | apply IH].
Qed.

Lemma download_many_captured env out urls w :
  Forall captured (download_many env out urls w).1.
Proof.
  revert w. induction urls as [|u urls IH]; intros w; [constructor|].
  rewrite download_many_cons. constructor; [apply download_image_captured | apply IH].
Qed.

Lemma generate_filename_is_ok u :
  is_ok (generate_filename u) = is_ok (urlparse_path u).
Proof.
  unfold ImagePipeline.generate_filename. by destruct (urlparse_path u).
Qed.

Lemma download_image_steady answer out u w :
  success (download_image (steady_env answer) out u w).1 =
  fetchable urlparse_path answer u.
Proof.
  unfold ImagePipeline.download_image, ImagePipeline.download_body, fetchable.
  rewrite <- generate_filename_is_ok.
  unfold mbind, sx_bind, ensure_output_dir, aiofiles_open, file_write,
    file_close, client_aclose, client_get, external, finally, lift; simpl.
  destruct (generate_filename u) as [f|e]; simpl; [|done].
  destruct (answer u) as [r|e]; simpl; [|done].
  destruct (raise_for_status r) as [[]|e]; done.
Qed.

(** C4. [download_many] returns one result per input URL, the i-th result
    carrying the i-th URL; every result is either a success with its local
    path or a failure with an error message, whatever fails underneath
    ([download_image] has no raising outcome); and under a fault-free file
    system, with a network whose answer depends on the URL alone, each URL
    succeeds or fails on its own merits, whatever its siblings do. *)
Theorem download_many_one_result_per_url env out urls w :
  url <$> (download_many env out urls w).1 = urls /\
  length (download_many env out urls w).1 = length urls /\
  Forall captured (download_many env out urls w).1 /\
  forall answer,
    success <$> (download_many (steady_env answer) out urls w).1 =
    fetchable urlparse_path answer <$> urls.
Proof.
  split; [apply download_many_urls|].
  split; [by rewrite <- (download_many_urls env out urls w) at 2; rewrite length_fmap|].
  split; [apply download_many_captured|].
  intros answer. revert w. induction urls as [|u urls IH]; intros w; [done|].
  rewrite download_many_cons. cbn [fst fmap list_fmap].
  f_equal; [apply download_image_steady | apply IH].
Qed.


Ltac run_download :=
  unfold ImagePipeline.download_image, ImagePipeline.download_body, mbind,
    sx_bind, ensure_output_dir, aiofiles_open, file_write, file_close,
    client_aclose, client_get, external, finally, lift, mret, sx_ret;
  simpl.




End PipelineFacts.


(** ** Authentication *)

Section EmitFacts.
Import Playwright.

Variable env : nat -> Call -> result Answer.
Variable P : list Call -> Prop.
Hypothesis P_nil : P [].
Hypothesis P_app : forall l1 l2, P l1 -> P l2 -> P (l1 ++ l2).

Lemma emits_ret {A} (a : A) : emits P (mret a).
Proof. intros log. exists []. by rewrite app_nil_r. Qed.

Lemma emits_lift {A} (r : result A) : emits P (lift r).
Proof. intros log. exists []. by rewrite app_nil_r. Qed.

Lemma emits_call c : P [c] -> emits P (call env c).
Proof. intros Hc log. by exists [c]. Qed.

Lemma emits_print msg : P [Print msg] -> emits P (print msg).
Proof. intros Hc log. by exists [Print msg]. Qed.

Lemma emits_bind {A B} (m : sx (list Call) A) (k : A -> sx (list Call) B) :
  emits P m -> (forall a, emits P (k a)) -> emits P (m ≫= k).
Proof.
  intros Hm Hk log. unfold mbind, sx_bind.
  destruct (Hm log) as (l1 & E1 & H1).
  destruct (m log) as [[a|e] log1]; simpl in E1; subst log1.
  - destruct (Hk a (log ++ l1)) as (l2 & E2 & H2).
    exists (l1 ++ l2). rewrite E2, app_assoc. auto.
  - by exists l1.
Qed.

Lemma emits_attempt {A} (m : sx (list Call) A) : emits P m -> emits P (attempt m).
Proof.
  intros Hm log. destruct (Hm log) as (l & E & H). exists l.
  unfold attempt. by destruct (m log).
Qed.

Lemma emits_except_false (m : sx (list Call) bool) log :
  emits P m -> exists l, (except_false m log).2 = log ++ l /\ P l.
Proof.
  intros Hm. destruct (Hm log) as (l & E & H). exists l.
  unfold except_false. by destruct (m log) as [[b|e] log'].
Qed.

End EmitFacts.

Section CallFacts.
Import Playwright.

Variable env : nat -> Call -> result Answer.
Variable Q : Call -> Prop.

Lemma calls_ret {A} (a : A) : emits (Forall Q) (mret a).
Proof. apply emits_ret. constructor. Qed.

Lemma calls_lift {A} (r : result A) : emits (Forall Q) (lift r).
Proof. apply emits_lift. constructor. Qed.

Lemma calls_call c : Q c -> emits (Forall Q) (call env c).
Proof. intros H. apply emits_call. by constructor. Qed.

Lemma calls_bind {A B} (m : sx (list Call) A) (k : A -> sx (list Call) B) :
  emits (Forall Q) m -> (forall a, emits (Forall Q) (k a)) ->
  emits (Forall Q) (m ≫= k).
Proof. apply emits_bind. intros l1 l2. apply Forall_app_2. Qed.

Lemma calls_attempt {A} (m : sx (list Call) A) :
  emits (Forall Q) m -> emits (Forall Q) (attempt m).
Proof. apply emits_attempt. Qed.

End CallFacts.

(** Steps through a computation built from [call]s, leaving the side
    conditions on the calls. *)
Ltac calls_step :=
  first
    [ apply calls_ret
    | apply calls_lift
    | apply calls_call
    | apply calls_attempt
    | apply calls_bind; [|intros ?]
    | match goal with
      | |- Playwright.emits _ (match ?x with _ => _ end) => destruct x
      end ].

Ltac calls_run :=
  unfold Playwright.goto, Playwright.wait_for_timeout,
    Playwright.wait_for_selector, Playwright.wait_for_load_state,
    Playwright.query_selector, Playwright.page_url,
    Playwright.context_pages, Playwright.is_closed,
    Playwright.close_page, Playwright.click, Playwright.fill,
    Playwright.press, Playwright.text_content, Playwright.on_handle;
  repeat calls_step.

Section StrategyFacts.
Import Playwright PinterestAuth PinterestScraper.

Variable env : nat -> Call -> result Answer.
Variable Q : Call -> Prop.
Hypothesis Q_page : forall c, strategy_of c = None -> Q c.

Lemma calls_find_button page selectors :
  emits (Forall Q) (find_button env page selectors).
Proof.
  induction selectors as [|selector rest IH]; simpl; [apply calls_ret|].
  calls_run; try assumption; by apply Q_page.
Qed.

Lemma calls_click_first page selectors :
  emits (Forall Q) (click_first env page selectors).
Proof.
  induction selectors as [|selector rest IH]; simpl; [apply calls_ret|].
  calls_run; try assumption; by apply Q_page.
Qed.

Lemma calls_find_indicator page indicators :
  emits (Forall Q) (find_indicator env page indicators).
Proof.
  induction indicators as [|indicator rest IH]; simpl; [apply calls_ret|].
  calls_run; try assumption; by apply Q_page.
Qed.

Lemma except_false_print msg (k : unit -> sx (list Call) bool) log :
  except_false (print msg ≫= k) log = except_false (k tt) (log ++ [Print msg]).
Proof. reflexivity. Qed.

(** The Google strategy announces itself and then only drives the page. *)
Lemma login_with_google_calls page e p log :
  exists l,
    (login_with_google env page e p log).2 = log ++ Print google_start :: l /\
    Forall Q l.
Proof.
  unfold login_with_google, login_with_google_body.
  rewrite except_false_print.
  match goal with
  | |- context [except_false ?m _] =>
      destruct (emits_except_false (Forall Q) m (log ++ [Print google_start]))
        as (l & E & H)
  end.
  - cbv beta.
    repeat first
      [ apply calls_find_button | apply calls_click_first
      | apply calls_find_indicator | progress calls_run ];
      by apply Q_page.
  - exists l. by rewrite E, <- app_assoc.
Qed.

(** So does the direct strategy. *)
Lemma login_calls page e p log :
  exists l,
    (login env page e p log).2 = log ++ Print direct_start :: l /\ Forall Q l.
Proof.
  unfold login, login_body. rewrite except_false_print.
  match goal with
  | |- context [except_false ?m _] =>
      destruct (emits_except_false (Forall Q) m (log ++ [Print direct_start]))
        as (l & E & H)
  end.
  - cbv beta. calls_run; by apply Q_page.
  - exists l. by rewrite E, <- app_assoc.
Qed.

Lemma save_cookies_calls path log :
  exists l, (save_cookies env path log).2 = log ++ l /\ Forall Q l.
Proof.
  unfold save_cookies. apply emits_except_false.
  calls_run; by apply Q_page.
Qed.

End StrategyFacts.

Section CookieFacts.
Import Playwright PinterestAuth PinterestScraper.

Variable env : nat -> Call -> result Answer.

Lemma login_with_cookies_true path log :
  (login_with_cookies env path log).1 = true <->
  exists cookies,
    env (length log) (PathExists path) = Ok (ABool true) /\
    env (S (length log)) (ReadJson path) = Ok (ACookies cookies) /\
    env (S (S (length log))) (AddCookies cookies) = Ok AUnit.
Proof.
  unfold login_with_cookies, login_with_cookies_body, except_false, mbind,
    sx_bind, call, lift, mret, sx_ret.
  split.
  - intros H. repeat (case_match; simplify_eq/=).
    repeat match goal with
           | E : context [length (_ ++ _)] |- _ =>
               rewrite length_app in E; simpl in E; rewrite Nat.add_1_r in E
           end.
    destruct a, a1, a3; simplify_eq/=. destruct a0; simplify_eq/=. eauto.
  - intros (cookies & H1 & H2 & H3). rewrite H1. simpl.
    rewrite length_app. simpl. rewrite Nat.add_1_r, H2. simpl.
    rewrite !length_app. simpl. rewrite !Nat.add_1_r, H3. reflexivity.
Qed.

Lemma login_with_cookies_calls path log :
  exists l,
    (login_with_cookies env path log).2 = log ++ PathExists path :: l /\
    Forall (fun c => strategy_of c = None /\ observes_page c = false) l.
Proof.
  unfold login_with_cookies, login_with_cookies_body, except_false, mbind,
    sx_bind, call, lift, mret, sx_ret.
  repeat (case_match; simplify_eq/=); rewrite <- ?app_assoc; simpl;
    eexists; (split; [reflexivity|]); repeat constructor.
Qed.

End CookieFacts.

Section AuthenticationClaims.
Import Playwright PinterestAuth PinterestScraper.

Example all_strategies_time_out :
  let r := authenticate timeout_env
             (mkConfig (Some "./pinterest_cookies.json") (Some "e") (Some "p")) 0 [] in
  r.1 = false /\
  attempts r.2 = [SessionRestore; Federated; DirectCredential] /\
  r.2 = [PathExists "./pinterest_cookies.json";
         Print google_start; Goto 0 login_url "domcontentloaded";
         Print direct_start; Goto 0 login_url "domcontentloaded";
         Print not_logged_in; Print login_hint].
Proof. vm_compute. repeat split; reflexivity. Qed.

Example google_login_succeeds :
  let r := authenticate google_env
             (mkConfig (Some "./pinterest_cookies.json") (Some "e") (Some "p")) 0 [] in
  r.1 = true /\
  attempts r.2 = [SessionRestore; Federated] /\
  last r.2 = Some (WriteJson "./pinterest_cookies.json" ["_pinterest_sess=fresh"]).
Proof. vm_compute. repeat split; reflexivity. Qed.

Example no_credentials_no_login :
  let r := authenticate google_env (mkConfig None None None) 0 [] in
  r = (false, [Print not_logged_in; Print login_hint]).
Proof. reflexivity. Qed.

Example stale_cookies_google_fails :
  (login_with_google stale_cookies_env 0 "e" "p" []).1 = false.
Proof. reflexivity. Qed.

Example stale_cookies_direct_fails :
  (login stale_cookies_env 0 "e" "p" []).1 = false.
Proof. reflexivity. Qed.

(** C2, as stated, fails: with saved cookies that load but that the site no
    longer accepts, [login_with_cookies] reports success after three calls,
    none of which looks at the page, although no profile marker can be
    found and the page is on the login URL; the authentication block takes
    this for a login and tries no other strategy. *)
Lemma login_with_cookies_no_probe :
  let r := login_with_cookies stale_cookies_env "./pinterest_cookies.json" [] in
  r.1 = true /\
  r.2 = [PathExists "./pinterest_cookies.json";
         ReadJson "./pinterest_cookies.json";
         AddCookies ["_pinterest_sess=expired"]] /\
  existsb observes_page r.2 = false /\
  (find_indicator stale_cookies_env 0 logged_in_indicators r.2).1 = Ok false /\
  (page_url stale_cookies_env 0 r.2).1 = Ok login_url /\
  authenticate stale_cookies_env
    (mkConfig (Some "./pinterest_cookies.json") (Some "e") (Some "p")) 0 [] =
  (true, r.2).
Proof. simpl. repeat split; reflexivity. Qed.

(** C2, amended. [login_with_cookies] reports success exactly when the
    cookie file exists, is read, and its cookies are added to the browsing
    context without error; it makes no call that looks at the page, so no
    logged-in probe takes part in its answer. *)
Theorem login_with_cookies_reports_load env path log :
  ((login_with_cookies env path log).1 = true <->
   exists cookies,
     env (length log) (PathExists path) = Ok (ABool true) /\
     env (S (length log)) (ReadJson path) = Ok (ACookies cookies) /\
     env (S (S (length log))) (AddCookies cookies) = Ok AUnit) /\
  exists l,
    (login_with_cookies env path log).2 = log ++ l /\
    Forall (fun c => observes_page c = false) l.
Proof.
  split; [apply login_with_cookies_true|].
  destruct (login_with_cookies_calls env path log) as (l & E & H).
  exists (PathExists path :: l). split; [done|].
  constructor; [done|]. eapply Forall_impl; [exact H|]. by intros c [_ ?].
Qed.

Lemma attempts_quiet l :
  Forall (fun c => strategy_of c = None) l -> attempts l = [].
Proof.
  induction 1 as [|c l Hc _ IH]; [done|]. unfold attempts in *. simpl.
  by rewrite Hc.
Qed.

Lemma attempts_app l1 l2 : attempts (l1 ++ l2) = attempts l1 ++ attempts l2.
Proof. apply omap_app. Qed.

Lemma attempts_marker c s l :
  strategy_of c = Some s -> Forall (fun c => strategy_of c = None) l ->
  attempts (c :: l) = [s].
Proof.
  intros Hc Hl. change (c :: l) with ([c] ++ l).
  rewrite attempts_app, (attempts_quiet l Hl), app_nil_r.
  unfold attempts. simpl. by rewrite Hc.
Qed.

(** The strategies that need credentials, from any point of a run: the
    Google login, then the direct login if that failed, then the saving of
    the cookies after a success. *)
Lemma credential_strategies env cfg page log1 :
  let e := text (email cfg) in
  let p := text (password cfg) in
  let rg := login_with_google env page e p log1 in
  let rd := login env page e p rg.2 in
  let block :=
    (let '(logged_in, log) := login_with_google env page e p log1 in
     let '(logged_in, log) :=
       if negb logged_in then login env page e p log else (logged_in, log) in
     let log :=
       if logged_in && truthy (cookies_path cfg)
       then (save_cookies env (text (cookies_path cfg)) log).2
       else log in
     (logged_in, log)) in
  exists l,
    block.2 = log1 ++ l /\
    attempts l = [Federated] ++ (if negb rg.1 then [DirectCredential] else []) /\
    block.1 = rg.1 || rd.1.
Proof.
  intros e p rg rd block. subst block rd rg.
  destruct (login_with_google_calls env _ (fun _ H => H) page e p log1)
    as (lg & Eg & Hg).
  destruct (login_with_google env page e p log1) as [bg logg].
  simpl in Eg. subst logg. cbn [fst snd].
  destruct bg; cbn [negb orb].
  - destruct (save_cookies_calls env _ (fun _ H => H)
                (text (cookies_path cfg)) (log1 ++ Print google_start :: lg))
      as (ls & Es & Hs).
    destruct (true && truthy (cookies_path cfg)); cbn [fst snd].
    + rewrite Es. exists ((Print google_start :: lg) ++ ls).
      rewrite app_assoc. split; [done|]. split; [|done].
      rewrite attempts_app, (attempts_quiet ls Hs), app_nil_r.
      by rewrite (attempts_marker _ Federated).
    + exists (Print google_start :: lg). split; [done|]. split; [|done].
      by rewrite (attempts_marker _ Federated).
  - destruct (login_calls env _ (fun _ H => H) page e p
                (log1 ++ Print google_start :: lg)) as (ld & Ed & Hd).
    destruct (login env page e p (log1 ++ Print google_start :: lg)) as [bd logd].
    simpl in Ed. subst logd. cbn [fst snd].
    destruct (save_cookies_calls env _ (fun _ H => H)
                (text (cookies_path cfg))
                ((log1 ++ Print google_start :: lg) ++ Print direct_start :: ld))
      as (ls & Es & Hs).
    destruct (bd && truthy (cookies_path cfg)); cbn [fst snd].
    + rewrite Es.
      exists ((Print google_start :: lg) ++ (Print direct_start :: ld) ++ ls).
      rewrite !app_assoc. split; [done|]. split; [|done].
      rewrite !attempts_app, (attempts_quiet ls Hs), app_nil_r.
      by rewrite (attempts_marker _ Federated), (attempts_marker _ DirectCredential).
    + exists ((Print google_start :: lg) ++ Print direct_start :: ld).
      rewrite !app_assoc. split; [done|]. split; [|done].
      rewrite attempts_app.
      by rewrite (attempts_marker _ Federated), (attempts_marker _ DirectCredential).
Qed.

Lemma except_false_raise {S} (m : sx S bool) s ex s' :
  m s = (Raise ex, s') -> except_false m s = (false, s').
Proof. intros H. unfold except_false. by rewrite H. Qed.

Lemma attempt_call_bind {A B} env c (f : Playwright.Answer -> result A)
    (k : result A -> sx (list Playwright.Call) B) log :
  (attempt (a ← call env c; lift (f a)) ≫= k) log =
  k (a ← env (length log) c; f a) (log ++ [c]).
Proof.
  unfold attempt, call, lift, mbind, sx_bind, result_bind.
  by destruct (env (length log) c).
Qed.

Lemma scrape_profile_start_goes_on env cfg username page log :
  exists l,
    (scrape_profile_start env cfg username page log).2 =
    (authenticate env cfg page log).2 ++
      Goto page (profile_url username) "domcontentloaded" :: l.
Proof.
  unfold scrape_profile_start.
  destruct (authenticate env cfg page log) as [b log1]. cbn [snd].
  unfold goto. rewrite attempt_call_bind.
  match goal with
  | |- context [(?m ≫= ?k) (log1 ++ [?c])] =>
      assert (emits (Forall (fun _ => True)) (m ≫= k)) as Hk
  end.
  - calls_run; done.
  - destruct (Hk (log1 ++ [Goto page (profile_url username) "domcontentloaded"]))
      as (l & -> & _).
    exists l. by rewrite <- app_assoc.
Qed.

(** C6. The authentication block tries the strategies in the order session
    restore, Google login, direct login: the Google login is tried only if
    the session restore did not report a session (and credentials are
    configured), the direct login only if the Google login was tried and
    failed.  The block itself never raises: a strategy whose body raises
    returns [False], and when every strategy has failed the warning is
    printed and the run goes on to navigate to the profile. *)
Theorem authenticate_in_order env cfg username page log :
  let cp := text (cookies_path cfg) in
  let e := text (email cfg) in
  let p := text (password cfg) in
  let rc := if truthy (cookies_path cfg)
            then login_with_cookies env cp log else (false, log) in
  let rg := login_with_google env page e p rc.2 in
  let rd := login env page e p rg.2 in
  let tried_g := negb rc.1 && truthy (email cfg) && truthy (password cfg) in
  let tried_d := tried_g && negb rg.1 in
  let r := authenticate env cfg page log in
  (exists l,
     r.2 = log ++ l /\
     attempts l =
       (if truthy (cookies_path cfg) then [SessionRestore] else []) ++
       (if tried_g then [Federated] else []) ++
       (if tried_d then [DirectCredential] else []) /\
     (r.1 = false ->
      exists l0, l = l0 ++ [Print not_logged_in; Print login_hint])) /\
  r.1 = rc.1 || tried_g && (rg.1 || rd.1) /\
  (exists l, (scrape_profile_start env cfg username page log).2 =
             r.2 ++ Goto page (profile_url username) "domcontentloaded" :: l) /\
  (forall log0 ex log',
     login_with_cookies_body env cp log0 = (Raise ex, log') ->
     login_with_cookies env cp log0 = (false, log')) /\
  (forall log0 ex log',
     login_with_google_body env page e p log0 = (Raise ex, log') ->
     login_with_google env page e p log0 = (false, log')) /\
  (forall log0 ex log',
     login_body env page e p log0 = (Raise ex, log') ->
     login env page e p log0 = (false, log')).
Proof.
  intros cp e p rc rg rd tried_g tried_d r. subst cp e p.
  assert (Hmain :
    exists l, r.2 = log ++ l /\
      attempts l =
        (if truthy (cookies_path cfg) then [SessionRestore] else []) ++
        (if tried_g then [Federated] else []) ++
        (if tried_d then [DirectCredential] else []) /\
      (r.1 = false ->
       exists l0, l = l0 ++ [Print not_logged_in; Print login_hint]) /\
      r.1 = rc.1 || tried_g && (rg.1 || rd.1)).
  { assert (Hrc : exists l1, rc.2 = log ++ l1 /\
              attempts l1 =
                if truthy (cookies_path cfg) then [SessionRestore] else []).
    { subst rc. destruct (truthy (cookies_path cfg)).
      - destruct (login_with_cookies_calls env (text (cookies_path cfg)) log)
          as (lc & Ec & Hc).
        exists (PathExists (text (cookies_path cfg)) :: lc). split; [done|].
        apply (attempts_marker _ SessionRestore); [done|].
        eapply Forall_impl; [exact Hc|]. by intros c [? _].
      - exists []. by rewrite app_nil_r. }
    destruct Hrc as (l1 & E1 & A1).
    destruct (credential_strategies env cfg page rc.2) as (l2 & E2 & A2 & B2).
    cbv zeta in E2, A2, B2. fold rg rd in E2, A2, B2.
    subst r tried_d tried_g. unfold authenticate.
    fold rc. destruct rc as [b1 log1]. cbn [fst snd] in *. subst log1.
    destruct b1; cbn [negb andb orb].
    - exists l1. rewrite A1, !app_nil_r. done.
    - destruct (truthy (email cfg)) eqn:Ee, (truthy (password cfg)) eqn:Ep;
        cbn [andb negb].
      1: { cbv zeta in E2, B2 |- *. fold rg.
           match type of E2 with
           | ?blk.2 = _ => destruct blk as [b2 log2]
           end.
           cbn [fst snd] in *. subst log2 b2.
           destruct (rg.1 || rd.1) eqn:Eor; cbn [negb].
           - exists (l1 ++ l2). rewrite app_assoc, attempts_app, A1, A2. done.
           - exists (l1 ++ l2 ++ [Print not_logged_in; Print login_hint]).
             rewrite !app_assoc. split; [done|].
             rewrite !attempts_app, A1, A2, app_nil_r, <- app_assoc.
             split; [done|]. split; [|done]. intros _. by exists (l1 ++ l2). }
      all: exists (l1 ++ [Print not_logged_in; Print login_hint]);
        rewrite app_assoc, attempts_app, A1, !app_nil_r;
        (split; [done|]); (split; [done|]); (split; [|done]);
        intros _; by exists l1. }
  destruct Hmain as (l & El & Al & Hl & Hr).
  split; [by exists l|]. split; [exact Hr|].
  split; [apply scrape_profile_start_goes_on|].
  repeat split; intros log0 ex log' H; by apply except_false_raise with ex.
Qed.

End AuthenticationClaims.

(** ** The collection loops *)

Section CollectorFacts.
Import BehanceScraper.

Variable W : Type.
Variable scrape_project : string -> sx W unit.

Lemma attempted_app l1 l2 : attempted (l1 ++ l2) = attempted l1 ++ attempted l2.
Proof. apply omap_app. Qed.

Lemma errors_app l1 l2 : errors (l1 ++ l2) = errors l1 + errors l2.
Proof. unfold errors. by rewrite List.filter_app, length_app. Qed.

Lemma attempted_sleep (b : bool) : attempted (if b then [Sleep 3] else []) = [].
Proof. by destruct b. Qed.

Lemma errors_sleep (b : bool) : errors (if b then [Sleep 3] else []) = 0.
Proof. by destruct b. Qed.

(** What the loop hands to [scrape_project]: nothing that was in the
    processed set at the start, and the state [W] changes through these
    calls only; the processed set grows. *)
Lemma scrape_each_trace project_links n i count (st : State W) :
  let r := scrape_each W scrape_project n i project_links count st in
  exists new,
    output r.2 = output st ++ new /\
    world r.2 = replay W scrape_project (attempted new) (world st) /\
    (forall u, u ∈ attempted new ->
       (u ∉ processed_projects st) /\ (u ∈ project_links)) /\
    processed_projects st ⊆ processed_projects r.2.
Proof.
  revert i count st. induction project_links as [|u rest IH]; intros i count st.
  - exists []. simpl. rewrite app_nil_r. set_solver.
  - simpl. case_bool_decide as Hin.
    + match goal with
      | |- context [scrape_each _ _ _ _ _ ?c ?st1] =>
          destruct (IH (S i) c st1) as (new & Eo & Ew & Ha & Hp)
      end.
      cbn [output world processed_projects] in *.
      exists (Skipping u :: new). rewrite Eo, <- app_assoc.
      split; [done|]. split; [done|]. split; [|done].
      intros u' Hu'. destruct (Ha u' Hu'). set_solver.
    + destruct (scrape_project u (world st)) as [[[]|e] w] eqn:Es.
      * match goal with
        | |- context [scrape_each _ _ _ _ _ ?c ?st1] =>
            destruct (IH (S i) c st1) as (new & Eo & Ew & Ha & Hp)
        end.
        cbn [output world processed_projects] in *.
        exists ((Processing u :: (if (i <? n)%nat then [Sleep 3] else [])) ++ new).
        rewrite Eo, <- !app_assoc. split; [done|].
        rewrite attempted_app. change (attempted (Processing u :: ?l))
          with (u :: attempted l). rewrite attempted_sleep. simpl.
        rewrite Es. split; [done|]. split; [|set_solver].
        intros u' Hu'. apply elem_of_cons in Hu' as [->|Hu']; [set_solver|].
        destruct (Ha u' Hu'). set_solver.
      * match goal with
        | |- context [scrape_each _ _ _ _ _ ?c ?st1] =>
            destruct (IH (S i) c st1) as (new & Eo & Ew & Ha & Hp)
        end.
        cbn [output world processed_projects] in *.
        exists (Processing u :: ErrorScraping (exn_str e) :: new).
        rewrite Eo, <- app_assoc. split; [done|].
        change (attempted (Processing u :: ErrorScraping ?m :: ?l))
          with (u :: attempted l). simpl.
        rewrite Es. split; [done|]. split; [|done].
        intros u' Hu'. apply elem_of_cons in Hu' as [->|Hu']; [set_solver|].
        destruct (Ha u' Hu'). set_solver.
Qed.

End CollectorFacts.

Section BoardFacts.
Import PinterestBoards.

Variable W : Type.
Variable scrape_board : Board -> sx W (nat * nat).

Lemma boards_trace boards0 (st : State W) :
  let st' := scrape_each W scrape_board boards0 st in
  exists new,
    visited st' = visited st ++ new /\
    (forall u, u ∈ new -> u ∉ processed_boards st) /\
    processed_boards st ⊆ processed_boards st'.
Proof.
  revert st. induction boards0 as [|board rest IH]; intros st.
  - exists []. simpl. rewrite app_nil_r. set_solver.
  - simpl. case_bool_decide as Hin; [apply IH|].
    destruct (scrape_board board (world st)) as [[[pins success_count]|e] w];
      match goal with
      | |- context [scrape_each _ _ _ ?st1] =>
          destruct (IH st1) as (new & Ev & Ha & Hp)
      end;
      cbn [visited processed_boards] in *;
      exists (url board :: new); rewrite Ev, <- app_assoc;
      (split; [done|]); (split; [|set_solver]);
      intros u Hu; apply elem_of_cons in Hu as [->|Hu]; [done| |done|];
      specialize (Ha u Hu); set_solver.
Qed.

End BoardFacts.

Section FaultFacts.
Import BehanceScraper.

Variable W : Type.
Variable scrape_project : string -> sx W unit.
Variable fails : string -> bool.
Hypothesis project_fails :
  forall u w, is_ok (scrape_project u w).1 = negb (fails u).

Lemma scrape_each_faults project_links n i count (st : State W) :
  NoDup project_links ->
  (forall u, u ∈ project_links -> u ∉ processed_projects st) ->
  let r := scrape_each W scrape_project n i project_links count st in
  exists new,
    output r.2 = output st ++ new /\
    attempted new = project_links /\
    processed_projects r.2 =
      list_to_set (filter (fun u => fails u = false) project_links) ∪
      processed_projects st /\
    r.1 = count + length (filter (fun u => fails u = false) project_links) /\
    errors new = length (filter (fun u => fails u = true) project_links).
Proof.
  revert i count st.
  induction project_links as [|u rest IH]; intros i count st Hnd Hnew.
  - exists []. simpl. rewrite app_nil_r. repeat split; [set_solver | lia].
  - apply NoDup_cons in Hnd as [Hu Hnd]. simpl.
    rewrite bool_decide_eq_false_2 by (apply Hnew; set_solver).
    specialize (project_fails u (world st)).
    destruct (scrape_project u (world st)) as [[[]|e] w]; simpl in project_fails;
      symmetry in project_fails;
      [apply negb_true_iff in project_fails | apply negb_false_iff in project_fails];
      match goal with
      | |- context [scrape_each _ _ _ _ _ ?c ?st1] =>
          destruct (IH (S i) c st1 Hnd) as (new & Eo & Ea & Ep & Ec & Ee);
            [cbn [processed_projects]; intros u' Hu'; specialize (Hnew u');
               set_solver|]
      end;
      cbn [output world processed_projects] in *;
      rewrite Eo, Ep, Ec, !filter_cons, project_fails; simpl.
    + exists ((Processing u :: (if (i <? n)%nat then [Sleep 3] else [])) ++ new).
      rewrite <- !app_assoc. split; [done|].
      rewrite attempted_app, errors_app.
      change (attempted (Processing u :: ?l)) with (u :: attempted l).
      change (errors (Processing u :: ?l)) with (errors l).
      rewrite attempted_sleep, errors_sleep, Ea, Ee. simpl.
      repeat split; [set_solver | lia].
    + exists (Processing u :: ErrorScraping (exn_str e) :: new).
      rewrite <- !app_assoc. split; [done|].
      change (attempted (Processing u :: ErrorScraping ?m :: ?l))
        with (u :: attempted l).
      change (errors (Processing u :: ErrorScraping ?m :: ?l))
        with (S (errors l)).
      rewrite Ea, Ee. done.
Qed.

End FaultFacts.

Section CronFaultFacts.

Variable W : Type.
Variable scrape_one : string -> sx W (option nat).
Variable fails : string -> bool.
Hypothesis one_fails :
  forall u w, is_ok (scrape_one u w).1 = negb (fails u).

Lemma cron_scrape_each_faults project_links stats w visited :
  let r := CronScraper.scrape_each W scrape_one project_links stats w visited in
  r.2 = visited ++ project_links /\
  CronScraper.errors r.1.1 =
    CronScraper.errors stats + length (filter (fun u => fails u = true) project_links).
Proof.
  revert stats w visited.
  induction project_links as [|u rest IH]; intros stats w visited.
  - simpl. by rewrite app_nil_r, Nat.add_0_r.
  - simpl. specialize (one_fails u w).
    destruct (scrape_one u w) as [[[c|]|e] w']; simpl in one_fails;
      symmetry in one_fails;
      [apply negb_true_iff in one_fails | apply negb_true_iff in one_fails
      | apply negb_false_iff in one_fails];
      match goal with
      | |- context [CronScraper.scrape_each _ _ _ ?s ?w1 ?v] =>
          destruct (IH s w1 v) as [Ev Ee]
      end;
      rewrite Ev, Ee, filter_cons, one_fails, <- app_assoc; simpl;
      (split; [done | lia]).
Qed.

End CronFaultFacts.

Section OneFault.

Lemma filter_others_length (k : string) l :
  NoDup l -> k ∈ l ->
  S (length (filter (fun u => bool_decide (u = k) = false) l)) = length l /\
  length (filter (fun u => bool_decide (u = k) = true) l) = 1.
Proof.
  induction l as [|u l IH]; intros Hnd Hk; [by apply elem_of_nil in Hk|].
  apply NoDup_cons in Hnd as [Hu Hnd]. rewrite !filter_cons.
  destruct (decide (u = k)) as [->|Hne].
  - rewrite bool_decide_eq_true_2 by done. simpl.
    assert (Hall : Forall (fun u => u <> k) l).
    { apply Forall_forall. intros u' Hu' ->. done. }
    clear -Hall. induction Hall as [|u l Hu _ [IH1 IH2]]; [done|].
    rewrite !filter_cons, bool_decide_eq_false_2 by done. simpl in *.
    split; [lia | done].
  - rewrite bool_decide_eq_false_2 by done. simpl.
    apply elem_of_cons in Hk as [->|Hk]; [done|].
    destruct (IH Hnd Hk) as [IH1 IH2]. split; [lia | done].
Qed.

Lemma filter_others_set (k : string) l :
  list_to_set (filter (fun u => bool_decide (u = k) = false) l) =@{gset string}
  list_to_set l ∖ {[k]}.
Proof.
  apply set_eq. intros u.
  rewrite elem_of_difference, !elem_of_list_to_set, list_elem_of_filter,
    bool_decide_eq_false, elem_of_singleton.
  tauto.
Qed.

End OneFault.

Section CollectorClaims.
Import BehanceScraper.

(** C3, as stated, fails: in a listing of three items whose second item
    times out, the loop goes on to the third item, but the second is not in
    the processed set afterwards, and a second pass over the listing in the
    same run hands it to [scrape_project] again. *)
Lemma failed_item_not_marked_seen :
  let links := ["https://www.behance.net/gallery/1/a";
                "https://www.behance.net/gallery/2/b";
                "https://www.behance.net/gallery/3/c"] in
  let scrape_project := timing_out "https://www.behance.net/gallery/2/b" in
  let r1 := scrape_search (list string) scrape_project links 10
              (mkState ∅ [] []) in
  let r2 := scrape_search (list string) scrape_project links 10 r1.2 in
  r1.1 = 2 /\
  attempted (output r1.2) = links /\
  errors (output r1.2) = 1 /\
  bool_decide ("https://www.behance.net/gallery/2/b" ∈ processed_projects r1.2) = false /\
  world r2.2 = links ++ ["https://www.behance.net/gallery/2/b"].
Proof. vm_compute. repeat split; reflexivity. Qed.

(** C3, amended. When processing one item [k] of a listing raises, the loop
    records the error once and goes on: every kept item, before and after
    [k], is handed to the processing step in listing order, and all of them
    but [k] end up processed.  The faulting item is not added to the
    processed set.  The cron loop, which keeps no such set, visits every
    item and counts one error. *)
Theorem fault_isolation W scrape_project scrape_one k project_links
    max_projects (st : State W) stats w visited :
  let kept := slice_to max_projects project_links in
  (forall u w, is_ok (scrape_project u w).1 = negb (bool_decide (u = k))) ->
  (forall u w, is_ok (scrape_one u w).1 = negb (bool_decide (u = k))) ->
  NoDup kept -> k ∈ kept ->
  (forall u, u ∈ kept -> u ∉ processed_projects st) ->
  let r := scrape_search W scrape_project project_links max_projects st in
  let c := CronScraper.scrape_each W scrape_one kept stats w visited in
  (exists new,
     output r.2 = output st ++ new /\ attempted new = kept /\ errors new = 1) /\
  processed_projects r.2 = (list_to_set kept ∖ {[k]}) ∪ processed_projects st /\
  (k ∉ processed_projects r.2) /\
  S r.1 = length kept /\
  c.2 = visited ++ kept /\
  CronScraper.errors c.1.1 = CronScraper.errors stats + 1.
Proof.
  intros kept Hp Ho Hnd Hk Hnew r c.
  destruct (filter_others_length k kept Hnd Hk) as [Hlen Hone].
  destruct (scrape_each_faults W scrape_project (fun u => bool_decide (u = k)) Hp
              kept (length kept) 1 0 st Hnd Hnew)
    as (new & Eo & Ea & Ep & Ec & Ee).
  destruct (cron_scrape_each_faults W scrape_one (fun u => bool_decide (u = k)) Ho
              kept stats w visited) as [Ev Ece].
  fold c in Ev, Ece. change (scrape_each W scrape_project _ _ _ _ _) with r in *.
  rewrite filter_others_set in Ep.
  split; [exists new; by rewrite Ee, Hone|].
  split; [done|]. split; [rewrite Ep; specialize (Hnew k Hk); set_solver|].
  split; [rewrite Ec; simpl; lia|]. split; [done|]. by rewrite Ece, Hone.
Qed.

Lemma fault_isolation_witness :
  let links := ["https://www.behance.net/gallery/1/a";
                "https://www.behance.net/gallery/2/b";
                "https://www.behance.net/gallery/3/c"] in
  let k := "https://www.behance.net/gallery/2/b" in
  let scrape_one := fun u (w : list string) =>
    (if String.eqb u k then Raise (OtherError "Timeout 30000ms exceeded")
     else Ok (Some 1), w ++ [u]) in
  let r := scrape_search (list string) (timing_out k) links 10 (mkState ∅ [] []) in
  (k ∈ slice_to 10 links) /\ S r.1 = 3 /\ (k ∉ processed_projects r.2).
Proof.
  intros links k scrape_one r.
  assert (Hk : k ∈ slice_to 10 links) by (vm_compute; set_solver).
  split; [exact Hk|].
  assert (Hnd : NoDup (slice_to 10 links)).
  { vm_compute. repeat (apply NoDup_cons; split; [set_solver|]). apply NoDup_nil_2. }
  assert (Hp : forall u w, is_ok (timing_out k u w).1 = negb (bool_decide (u = k))).
  { intros u w. unfold timing_out. cbn [fst].
    destruct (String.eqb_spec u k) as [->|Hne].
    - by rewrite bool_decide_eq_true_2.
    - by rewrite bool_decide_eq_false_2. }
  assert (Ho : forall u w, is_ok (scrape_one u w).1 = negb (bool_decide (u = k))).
  { intros u w. unfold scrape_one. cbn [fst].
    destruct (String.eqb_spec u k) as [->|Hne].
    - by rewrite bool_decide_eq_true_2.
    - by rewrite bool_decide_eq_false_2. }
  destruct (fault_isolation (list string) (timing_out k) scrape_one k links 10
              (mkState ∅ [] []) (CronScraper.mkStats 0 0 0) [] [] Hp Ho Hnd Hk
              ltac:(set_solver))
    as (_ & _ & Hnot & Hcount & _).
  split; [exact Hcount | exact Hnot].
Defined.

(** C7. In a collection run, an item key that is in the processed set when
    the loop starts is never handed to the processing step, and the state
    outside the scraper changes through the processing of the other items
    only; keys are added to the processed set and never removed.  This holds
    for the project loop of the Behance scraper and for the board loop of
    the Pinterest scraper. *)
Theorem processed_items_skipped W scrape_project scrape_board project_links
    max_projects (st : State W) boards (bst : PinterestBoards.State W) :
  let r := scrape_search W scrape_project project_links max_projects st in
  let b := PinterestBoards.scrape_each W scrape_board boards bst in
  (exists new,
     output r.2 = output st ++ new /\
     world r.2 = replay W scrape_project (attempted new) (world st) /\
     forall u, u ∈ processed_projects st -> u ∉ attempted new) /\
  processed_projects st ⊆ processed_projects r.2 /\
  (exists new,
     PinterestBoards.visited b = PinterestBoards.visited bst ++ new /\
     forall u, u ∈ PinterestBoards.processed_boards bst -> u ∉ new) /\
  PinterestBoards.processed_boards bst ⊆ PinterestBoards.processed_boards b.
Proof.
  intros r b.
  destruct (scrape_each_trace W scrape_project
              (slice_to max_projects project_links)
              (length (slice_to max_projects project_links)) 1 0 st)
    as (new & Eo & Ew & Ha & Hp).
  destruct (boards_trace W scrape_board boards bst) as (bnew & Ev & Hb & Hbp).
  split; [|split; [exact Hp|split; [|exact Hbp]]].
  - exists new. split; [exact Eo|]. split; [exact Ew|].
    intros u Hu Hin. by destruct (Ha u Hin).
  - exists bnew. split; [exact Ev|]. intros u Hu Hin. by apply (Hb u Hin).
Qed.

End CollectorClaims.

(** ** Scrolling *)

Section ScrollFacts.
Import Playwright.

Variable env : nat -> Call -> result Answer.

Lemma count_scrolls_app l1 l2 :
  count_scrolls (l1 ++ l2) = count_scrolls l1 + count_scrolls l2.
Proof. unfold count_scrolls. by rewrite List.filter_app, length_app. Qed.

Ltac run_round :=
  unfold evaluate, wait_for_timeout, query_selector, click, on_handle, call,
    lift, mbind, sx_bind, mret, sx_ret;
  repeat (case_match; simplify_eq/=).

Lemma count_scrolls_cons c l :
  count_scrolls (c :: l) = (if is_scroll c then 1 else 0) + count_scrolls l.
Proof. unfold count_scrolls. simpl. by destruct (is_scroll c). Qed.

Ltac finish_round IH l :=
  let new := fresh "new" in
  let E := fresh "E" in
  let Hc := fresh "Hc" in
  let Hl := fresh "Hl" in
  let Hok := fresh "Hok" in
  let Hr := fresh "Hr" in
  destruct (IH l) as (new & E & Hc & Hl & Hok);
  rewrite E; eexists; (split; [repeat rewrite <- app_assoc; reflexivity|]);
  cbn [app length]; rewrite !count_scrolls_cons; cbn [is_scroll];
  rewrite ?String.eqb_refl;
  (split; [lia|]); (split; [lia|]);
  intros Hr; specialize (Hok Hr); lia.

Ltac close_round IH :=
  first
    [ match goal with
      | |- context [SearchExtractor.scroll_rounds _ _ _ ?l] => finish_round IH l
      | |- context [PinterestPinExtractor.scroll_rounds _ _ _ ?l] =>
          finish_round IH l
      end
    | eexists; (split; [repeat rewrite <- app_assoc; reflexivity|]);
      cbn [app length]; rewrite !count_scrolls_cons; cbn [is_scroll];
      rewrite ?String.eqb_refl; change (count_scrolls []) with 0;
      (split; [lia|]); (split; [lia|]); done ].

Lemma search_scroll_rounds page n log :
  exists new,
    (SearchExtractor.scroll_rounds env page n log).2 = log ++ new /\
    count_scrolls new <= n /\ length new <= 5 * n /\
    (is_ok (SearchExtractor.scroll_rounds env page n log).1 = true ->
     count_scrolls new = n).
Proof.
  revert log. induction n as [|n IH]; intros log.
  - exists []. simpl. by rewrite app_nil_r.
  - cbn [SearchExtractor.scroll_rounds]. run_round; close_round IH.
Qed.

Lemma pinterest_scroll_rounds page n log :
  exists new,
    (PinterestPinExtractor.scroll_rounds env page n log).2 = log ++ new /\
    count_scrolls new <= n /\ length new <= 2 * n /\
    (is_ok (PinterestPinExtractor.scroll_rounds env page n log).1 = true ->
     count_scrolls new = n).
Proof.
  revert log. induction n as [|n IH]; intros log.
  - exists []. simpl. by rewrite app_nil_r.
  - cbn [PinterestPinExtractor.scroll_rounds]. run_round; close_round IH.
Qed.

Example still_listing_three_scrolls :
  let r := SearchExtractor.scroll_to_load_more still_listing_env 0 3 [] in
  r.1 = Ok tt /\ count_scrolls r.2 = 3 /\ length r.2 = 9.
Proof. vm_compute. repeat split; reflexivity. Qed.

Example still_listing_five_scrolls :
  let r := PinterestPinExtractor._scroll_to_load still_listing_env 0 5 [] in
  r.1 = Ok tt /\ count_scrolls r.2 = 5 /\ length r.2 = 10.
Proof. vm_compute. repeat split; reflexivity. Qed.

(** C8. Whatever the page does, also when the listing never grows,
    [scroll_to_load_more] and [_scroll_to_load] return after at most
    [scroll_count] scroll-advances (and a bounded number of calls to the
    browser); they make exactly that many when no call raises. *)
Theorem scroll_terminates page scroll_count scrolls log :
  (exists new,
     (SearchExtractor.scroll_to_load_more env page scroll_count log).2 = log ++ new /\
     count_scrolls new <= Z.to_nat scroll_count /\
     length new <= 5 * Z.to_nat scroll_count /\
     (is_ok (SearchExtractor.scroll_to_load_more env page scroll_count log).1 = true ->
      count_scrolls new = Z.to_nat scroll_count)) /\
  (exists new,
     (PinterestPinExtractor._scroll_to_load env page scrolls log).2 = log ++ new /\
     count_scrolls new <= Z.to_nat scrolls /\
     length new <= 2 * Z.to_nat scrolls /\
     (is_ok (PinterestPinExtractor._scroll_to_load env page scrolls log).1 = true ->
      count_scrolls new = Z.to_nat scrolls)).
Proof.
  split; [apply search_scroll_rounds | apply pinterest_scroll_rounds].
Qed.

End ScrollFacts.

(** * Further properties of the code *)

(** ** Tags of a project *)

Section TagFacts.
Import ProjectModel.

Lemma deduplicate_from_app v seen result :
  deduplicate_from v seen result = result ++ deduplicate_from v seen [].
Proof.
  revert seen result. induction v as [|tag rest IH]; intros seen result; simpl.
  - by rewrite app_nil_r.
  - case_bool_decide; [apply IH|].
    rewrite (IH _ (result ++ [tag])), (IH _ [tag]). by rewrite <- app_assoc.
Qed.

Lemma deduplicate_from_cons tag rest seen :
  deduplicate_from (tag :: rest) seen [] =
  if bool_decide (tag ∈ seen) then deduplicate_from rest seen []
  else tag :: deduplicate_from rest ({[ tag ]} ∪ seen) [].
Proof. simpl. case_bool_decide; [done|]. by rewrite deduplicate_from_app. Qed.

Lemma deduplicate_from_seen v seen t :
  t ∈ deduplicate_from v seen [] <-> t ∈ v /\ t ∉ seen.
Proof.
  revert seen. induction v as [|tag rest IH]; intros seen.
  - simpl. set_solver.
  - rewrite deduplicate_from_cons. case_bool_decide as Hin.
    + rewrite IH. set_solver.
    + rewrite !elem_of_cons, IH. split.
      * intros [->|[H1 H2]]; [by auto|]. set_solver.
      * intros [[->|H1] H2]; [by left|].
        destruct (decide (t = tag)) as [->|Hne]; [by left|right]. set_solver.
Qed.

Lemma deduplicate_from_NoDup v seen : NoDup (deduplicate_from v seen []).
Proof.
  revert seen. induction v as [|tag rest IH]; intros seen.
  - constructor.
  - rewrite deduplicate_from_cons. case_bool_decide; [apply IH|].
    apply NoDup_cons. split; [|apply IH].
    rewrite deduplicate_from_seen. set_solver.
Qed.

Lemma deduplicate_from_sublist v seen : sublist (deduplicate_from v seen []) v.
Proof.
  revert seen. induction v as [|tag rest IH]; intros seen.
  - constructor.
  - rewrite deduplicate_from_cons. case_bool_decide.
    + by apply sublist_cons.
    + by apply sublist_skip.
Qed.

Lemma filter_all {A} (P : A -> Prop) `{!forall x, Decision (P x)} (l : list A) :
  Forall P l -> filter P l = l.
Proof.
  induction 1 as [|x l Hx _ IH]; [done|]. by rewrite filter_cons_True, IH.
Qed.

Lemma deduplicate_from_insert v seen t :
  deduplicate_from v ({[ t ]} ∪ seen) [] =
  filter (fun x => x <> t) (deduplicate_from v seen []).
Proof.
  revert seen. induction v as [|x rest IH]; intros seen; [done|].
  rewrite !deduplicate_from_cons.
  destruct (decide (x = t)) as [->|Hne].
  - rewrite bool_decide_eq_true_2 by set_solver.
    case_bool_decide; [apply IH|].
    rewrite filter_cons_False by (intros H'; by apply H').
    rewrite IH. symmetry. apply filter_all, Forall_forall.
    intros y Hy. by apply list_elem_of_filter in Hy as [? _].
  - case_bool_decide as H1; case_bool_decide as H2; try set_solver.
    rewrite filter_cons_True by done. f_equal.
    rewrite <- IH. f_equal. set_solver.
Qed.

(** X1. [deduplicate_tags] keeps the first occurrence of every tag, in the
    order of the input: the result has no duplicate, holds the same tags,
    is a sublist of the input, starts with the first tag of the input, and
    a list without duplicates comes back unchanged. *)
Theorem deduplicate_tags_first_occurrences v :
  NoDup (deduplicate_tags v) /\
  (forall t, t ∈ deduplicate_tags v <-> t ∈ v) /\
  sublist (deduplicate_tags v) v /\
  (forall t, deduplicate_tags (t :: v) =
             t :: filter (fun x => x <> t) (deduplicate_tags v)) /\
  deduplicate_tags (deduplicate_tags v) = deduplicate_tags v.
Proof.
  unfold deduplicate_tags.
  assert (Hfix : forall l, NoDup l -> deduplicate_from l ∅ [] = l).
  { induction l as [|t l IH]; intros Hnd; [done|].
    apply NoDup_cons in Hnd as [Ht Hnd].
    rewrite deduplicate_from_cons, bool_decide_eq_false_2 by set_solver.
    rewrite (union_empty_r_L {[t]}).
    replace ({[t]} : gset string) with ({[t]} ∪ (∅ : gset string)) by set_solver.
    rewrite deduplicate_from_insert, (IH Hnd). f_equal.
    apply filter_all, Forall_forall. by intros x Hx ->. }
  split; [apply deduplicate_from_NoDup|].
  split; [intros t; rewrite deduplicate_from_seen; set_solver|].
  split; [apply deduplicate_from_sublist|].
  split.
  - intros t. rewrite deduplicate_from_cons, bool_decide_eq_false_2 by set_solver.
    by rewrite deduplicate_from_insert.
  - apply Hfix, deduplicate_from_NoDup.
Qed.

Example deduplicate_tags_example :
  deduplicate_tags ["logo"; "brand"; "logo"; "ui"; "brand"] = ["logo"; "brand"; "ui"].
Proof. vm_compute. reflexivity. Qed.

End TagFacts.

(** ** Reading, updating and deleting stored documents *)

Section RepositoryOperations.
Import Mongo.

Implicit Types (d : gmap string value) (c : collection).

Lemma count_all c : ProjectRepository.count c = length (docs c).
Proof.
  unfold ProjectRepository.count, count_documents.
  f_equal. apply filter_all, Forall_forall. done.
Qed.


Lemma remove_first_count (p : gmap string value -> bool) l :
  length (filter (fun d => p d = true) (remove_first p l)) =
  length (filter (fun d => p d = true) l) - 1.
Proof.
  induction l as [|d l IH]; [done|]. simpl.
  destruct (p d) eqn:E.
  - rewrite filter_cons_True by done. simpl. lia.
  - rewrite !filter_cons_False by congruence. done.
Qed.

Lemma remove_first_length (p : gmap string value -> bool) l :
  length (remove_first p l) =
  length l - Nat.min 1 (length (filter (fun d => p d = true) l)).
Proof.
  induction l as [|d l IH]; [done|]. simpl.
  destruct (p d) eqn:E.
  - rewrite filter_cons_True by done. simpl. lia.
  - rewrite filter_cons_False by congruence. simpl. rewrite IH.
    pose proof (length_filter (fun d => p d = true) l).
    destruct (length (filter (fun d => p d = true) l)); simpl; lia.
Qed.

Lemma remove_first_none (p : gmap string value -> bool) l :
  length (filter (fun d => p d = true) l) = 0 -> remove_first p l = l.
Proof.
  induction l as [|d l IH]; [done|]. simpl.
  destruct (p d) eqn:E.
  - by rewrite filter_cons_True.
  - rewrite filter_cons_False by congruence. intros H. by rewrite IH.
Qed.




Lemma update_one_no_upsert q fields c :
  apply_update_one q fields false c =
  if (count_documents (matches q) c =? 0)%nat then c
  else apply_update_one q fields true c.
Proof.
  unfold apply_update_one, count_documents.
  destruct (update_first _ _ (docs c)) as [l|] eqn:E.
  - destruct (Nat.eqb_spec (length (filter (fun d => matches q d = true) (docs c))) 0)
      as [H0|_]; [|done].
    apply length_zero_iff_nil in H0.
    assert (update_first (matches q) (fun d => fields ∪ d) (docs c) = None);
      [|congruence].
    apply update_first_None, Forall_forall. intros d Hd.
    destruct (matches q d) eqn:Hm; [|done].
    exfalso. exact (filter_nil_not_elem_of _ _ d H0 Hm Hd).
  - apply update_first_None in E. rewrite filter_none.
    + done.
    + eapply Forall_impl; [exact E|]. simpl. intros d ->. done.
Qed.

Lemma remove_first_split (p : gmap string value -> bool) l :
  (Forall (fun d => p d = false) l /\ remove_first p l = l) \/
  (exists before d after,
     l = before ++ d :: after /\ Forall (fun d' => p d' = false) before /\
     p d = true /\ remove_first p l = before ++ after).
Proof.
  induction l as [|d l IH]; [left; by split|]. simpl.
  destruct (p d) eqn:E.
  - right. exists [], d, l. by repeat split.
  - destruct IH as [[Hall ->]|(before & d' & after & -> & Hall & Hd & ->)].
    + left. split; [by constructor | done].
    + right. exists (d :: before), d', after. repeat split; try done.
      by constructor.
Qed.

Lemma count_none (p : gmap string value -> bool) l :
  Forall (fun d => p d = false) l ->
  length (filter (fun d => p d = true) l) = 0.
Proof.
  intros H. rewrite filter_none; [done|].
  eapply Forall_impl; [exact H|]. simpl. intros d ->. done.
Qed.


Lemma update_run p c :
  ProjectRepository.update p c =
  if ProjectRepository.fits p
  then (Ok tt, apply_update_one (FieldEqInt "id" (ProjectModel.id p))
                 (ProjectRepository.project_dict p) false c)
  else (Raise not_encodable, c).
Proof.
  unfold ProjectRepository.update, update_one, encoded.
  fold (ProjectRepository.project_dict p). rewrite project_dict_encodable.
  unfold ProjectRepository.fits, query_encodable.
  by destruct (int64 (ProjectModel.id p)).
Qed.



(** X3. [ProjectRepository.update] changes nothing when no document of
    the project's id is stored, and does what [upsert] does otherwise; it
    returns or raises as [upsert] does. *)
Theorem update_needs_a_document p c :
  (ProjectRepository.update p c).1 = (ProjectRepository.upsert p c).1 /\
  (ProjectRepository.update p c).2 =
  if (ProjectRepository.count_id (ProjectModel.id p) c =? 0)%nat then c
  else (ProjectRepository.upsert p c).2.
Proof.
  rewrite update_run, upsert_run.
  destruct (ProjectRepository.fits p); cbn [fst snd].
  - split; [done|]. apply update_one_no_upsert.
  - split; [done|]. by destruct (_ =? 0)%nat.
Qed.

(** X4. [ProjectRepository.delete] removes the first stored document of
    the id and nothing else: the documents before it and after it stay as
    they are and in their order; a collection without the id is left as it
    is.  With an id that does not fit BSON the call raises and removes
    nothing. *)
Theorem delete_removes_one n c :
  if int64 n
  then exists c1,
         ProjectRepository.delete n c = (Ok tt, c1) /\
         next_oid c1 = next_oid c /\
         ((ProjectRepository.count_id n c = 0 /\ c1 = c) \/
          (exists before d after,
             docs c = before ++ d :: after /\
             Forall (fun d' => matches (FieldEqInt "id" n) d' = false) before /\
             matches (FieldEqInt "id" n) d = true /\
             docs c1 = before ++ after)) /\
         ProjectRepository.count_id n c1 = ProjectRepository.count_id n c - 1 /\
         ProjectRepository.count c1 =
           ProjectRepository.count c - Nat.min 1 (ProjectRepository.count_id n c)
  else ProjectRepository.delete n c = (Raise not_encodable, c).
Proof.
  unfold ProjectRepository.delete, delete_one, encoded. cbn [query_encodable].
  destruct (int64 n); [|done].
  eexists. split; [reflexivity|]. split; [reflexivity|].
  rewrite !count_all.
  unfold ProjectRepository.count_id, apply_delete_one, count_documents.
  cbn [docs]. split; [|split; [apply remove_first_count | apply remove_first_length]].
  destruct (remove_first_split (matches (FieldEqInt "id" n)) (docs c))
    as [[Hall Hsame]|(before & d & after & Hdocs & Hall & Hd & Hrem)].
  - left. split; [by apply count_none|]. rewrite Hsame. by destruct c.
  - right. by exists before, d, after.
Qed.

Section Reading.
Variable Project_of_doc : gmap string value -> result ProjectModel.Project.





End Reading.

End RepositoryOperations.


Section ImageRepositoryOperations.
Import Mongo.

Variable Image_of_doc : gmap string value -> result ImageModel.Image.

#[local] Abbreviation images_of_docs := (ImageRepository.images_of_docs Image_of_doc).

Lemma images_of_docs_app ds1 ds2 l1 l2 :
  images_of_docs ds1 = Ok l1 -> images_of_docs ds2 = Ok l2 ->
  images_of_docs (ds1 ++ ds2) = Ok (l1 ++ l2).
Proof.
  revert l1. induction ds1 as [|d ds1 IH]; intros l1; simpl.
  - by intros [= <-].
  - unfold mbind, result_bind, mret, result_ret.
    destruct (Image_of_doc d) as [i|]; [|done].
    destruct (images_of_docs ds1) as [l|] eqn:E; [|done].
    intros [= <-] H2. by rewrite (IH l eq_refl H2).
Qed.

Lemma image_dict_project i oid pid :
  matches (FieldEqInt "project_id" pid)
    (<["_id" := VOid oid]> (ImageRepository.image_dict i)) =
  (ImageModel.project_id i =? pid)%Z.
Proof. reflexivity. Qed.

Lemma images_of_stamp pid images n :
  (forall i oid, i ∈ images ->
     Image_of_doc (<["_id" := VOid oid]> (ImageRepository.image_dict i)) = Ok i) ->
  images_of_docs
    (List.filter (matches (FieldEqInt "project_id" pid))
       (stamp n (map ImageRepository.image_dict images))) =
  Ok (List.filter (fun i => (ImageModel.project_id i =? pid)%Z) images).
Proof.
  revert n. induction images as [|i images IH]; intros n Hback; [done|].
  cbn [map stamp List.filter]. rewrite image_dict_project.
  assert (Hrest : forall i' oid, i' ∈ images ->
            Image_of_doc (<["_id" := VOid oid]> (ImageRepository.image_dict i')) = Ok i')
    by (intros i' oid Hi'; apply Hback; set_solver).
  destruct (ImageModel.project_id i =? pid)%Z; [|by apply IH].
  cbn [ImageRepository.images_of_docs]. unfold mbind, result_bind.
  rewrite (Hback i n) by set_solver. by rewrite (IH (S n) Hrest).
Qed.

Lemma find_by_project_run pid c :
  ImageRepository.find_by_project Image_of_doc pid c =
  if int64 pid
  then (images_of_docs
          (List.filter (matches (FieldEqInt "project_id" pid)) (docs c)), c)
  else (Raise not_encodable, c).
Proof.
  unfold ImageRepository.find_by_project, find, encoded, mbind, sx_bind, lift.
  cbn [query_encodable]. by destruct (int64 pid).
Qed.

(** X6. [save_many] refuses an empty list.  For a list that is not empty,
    of images whose integers fit BSON and that the model reads back from
    their stored documents, [find_by_project] after [save_many] returns
    what it returned before followed by the saved images of that project,
    in the order of the list. *)
Theorem save_many_found_by_project sent images c pid found :
  images <> [] ->
  forallb ImageRepository.fits images = true ->
  (forall i oid, i ∈ images ->
     Image_of_doc (<["_id" := VOid oid]> (ImageRepository.image_dict i)) = Ok i) ->
  ImageRepository.find_by_project Image_of_doc pid c = (Ok found, c) ->
  ImageRepository.save_many sent [] c =
    (Raise (TypeError "documents must be a non-empty list"), c) /\
  exists c',
    ImageRepository.save_many sent images c = (Ok tt, c') /\
    ImageRepository.find_by_project Image_of_doc pid c' =
      (Ok (found ++
           List.filter (fun i => (ImageModel.project_id i =? pid)%Z) images), c').
Proof.
  intros Hne Hfit Hback Hfound. split; [reflexivity|].
  rewrite save_many_run, Hfit. destruct images as [|i0 images]; [done|].
  cbv zeta. eexists. split; [reflexivity|].
  rewrite find_by_project_run in Hfound |- *.
  destruct (int64 pid); [|done]. f_equal. simplify_eq.
  cbn [apply_insert_many docs]. rewrite List.filter_app.
  apply images_of_docs_app; [done|]. by apply images_of_stamp.
Qed.

End ImageRepositoryOperations.

Lemma save_many_found_by_project_witness :
  let img := ImageModel.mkImage "https://cdn/a.png" 1920 1080 0 "png" 7 in
  let other := ImageModel.mkImage "https://cdn/b.png" 640 480 0 "png" 8 in
  let decode := fun d : gmap string Mongo.value =>
    match d !! "url", d !! "width", d !! "height", d !! "size", d !! "format",
          d !! "project_id" with
    | Some (Mongo.VStr u), Some (Mongo.VInt w), Some (Mongo.VInt h),
      Some (Mongo.VInt s), Some (Mongo.VStr f), Some (Mongo.VInt p) =>
        Ok (ImageModel.mkImage u w h s f p)
    | _, _, _, _, _, _ => Raise (ValidationError ["document"])
    end in
  exists c',
    ImageRepository.save_many (fun _ => 0) [img; other] Mongo.empty_collection = (Ok tt, c') /\
    ImageRepository.find_by_project decode 7 c' = (Ok [img], c').
Proof.
  intros img other decode.
  assert (Hne : [img; other] <> []) by discriminate.
  assert (Hback : forall i oid, i ∈ [img; other] ->
            decode (<["_id" := Mongo.VOid oid]> (ImageRepository.image_dict i)) = Ok i).
  { intros i oid Hi. apply elem_of_cons in Hi as [->|Hi]; [reflexivity|].
    apply list_elem_of_singleton in Hi. subst i. reflexivity. }
  destruct (save_many_found_by_project decode (fun _ => 0) [img; other] Mongo.empty_collection 7 []
              Hne eq_refl Hback eq_refl) as (_ & c' & H1 & H2).
  exists c'. split; [exact H1 | exact H2].
Defined.

(** ** The links of a listing *)

Section LinkFacts.
Import SearchExtractor.

Variable select : string -> list (option string).

#[local] Abbreviation links_invariant := (SearchExtractor.links_invariant select).

Lemma collect_links_invariant selectors selector hrefs seen_urls project_links :
  selector ∈ selectors ->
  (forall href, href ∈ hrefs -> href ∈ select selector) ->
  links_invariant selectors seen_urls project_links ->
  links_invariant selectors (collect_links hrefs seen_urls project_links).1
    (collect_links hrefs seen_urls project_links).2.
Proof.
  intros Hsel. revert seen_urls project_links.
  induction hrefs as [|href rest IH]; intros seen_urls project_links Hin Hinv;
    [done|].
  assert (Hrest : forall h, h ∈ rest -> h ∈ select selector)
    by (intros h Hh; apply Hin; set_solver).
  simpl. destruct href as [href|]; [|by apply IH].
  destruct (String.eqb href ""); [by apply IH|].
  case_bool_decide as Hseen; simpl; [by apply IH|].
  destruct (PyStr.contains "/gallery/" (base_url_of (full_url_of href))) eqn:Hg;
    [|by apply IH].
  apply IH; [done|].
  destruct Hinv as (Hs & Hnd & Hgal & Hprov). subst seen_urls.
  unfold SearchExtractor.links_invariant.
  rewrite fmap_app, list_to_set_app_L. simpl.
  split; [set_solver|]. split; [|split].
  - apply NoDup_app. split; [done|]. split; [|apply NoDup_singleton].
    intros x Hx Hx'. apply list_elem_of_singleton in Hx'. subst x.
    apply Hseen. by apply elem_of_list_to_set.
  - apply Forall_app. split; [done|]. by constructor.
  - apply Forall_app. split; [done|]. constructor; [|done].
    exists selector, href. split; [done|]. split; [|done]. apply Hin. set_solver.
Qed.

Lemma links_invariant_mono selectors selectors' seen_urls project_links :
  selectors ⊆ selectors' ->
  links_invariant selectors seen_urls project_links ->
  links_invariant selectors' seen_urls project_links.
Proof.
  intros Hsub (Hs & Hnd & Hgal & Hprov). repeat split; try done.
  eapply Forall_impl; [exact Hprov|]. simpl.
  intros u (selector & href & H1 & H2 & H3). exists selector, href. set_solver.
Qed.

Lemma collect_selectors_invariant all selectors seen_urls project_links :
  selectors ⊆ all ->
  links_invariant all seen_urls project_links ->
  links_invariant all
    (collect_selectors select selectors seen_urls project_links).1
    (collect_selectors select selectors seen_urls project_links).2.
Proof.
  revert seen_urls project_links.
  induction selectors as [|selector rest IH]; intros seen_urls project_links Hsub Hinv;
    [done|].
  simpl.
  pose proof (collect_links_invariant all selector (select selector) seen_urls
                project_links ltac:(set_solver) ltac:(done) Hinv) as H1.
  destruct (collect_links (select selector) seen_urls project_links) as [s1 l1].
  apply IH; [set_solver | done].
Qed.

Lemma NoDup_fmap_inv {A B} (f : A -> B) (l : list A) : NoDup (f <$> l) -> NoDup l.
Proof.
  induction l as [|x l IH]; [constructor|]. rewrite fmap_cons, !NoDup_cons.
  intros [Hx Hnd]. split; [|by apply IH].
  intros Hin. apply Hx. by apply list_elem_of_fmap_2.
Qed.

(** X7. The project links of a listing: no two of them have the same URL
    before the query string (so no link is returned twice), every one holds
    [/gallery/] before its query string, and every one is the [href] of an
    element of one of the three selectors, put under the site when it is
    relative. *)
Theorem extract_project_links_distinct :
  NoDup (base_url_of <$> extract_project_links select) /\
  NoDup (extract_project_links select) /\
  Forall (fun u => PyStr.contains "/gallery/" (base_url_of u) = true)
    (extract_project_links select) /\
  Forall (fun u => exists selector href,
            selector ∈ link_selectors /\ Some href ∈ select selector /\
            u = full_url_of href)
    (extract_project_links select).
Proof.
  destruct (collect_selectors_invariant link_selectors link_selectors ∅ [])
    as (_ & Hnd & Hgal & Hprov); [done | |].
  { repeat split; try constructor. }
  unfold extract_project_links.
  split; [done|]. split; [by eapply NoDup_fmap_inv|]. done.
Qed.

Example extract_project_links_example :
  extract_project_links
    (fun selector =>
       if String.eqb selector "a[href*='/gallery/']"
       then [Some "/gallery/1/a?tracking_source=search";
             Some "/gallery/1/a"; None; Some "";
             Some "https://www.behance.net/gallery/2/b"]
       else [Some "/gallery/2/b"; Some "/adobe"]) =
  ["https://www.behance.net/gallery/1/a?tracking_source=search";
   "https://www.behance.net/gallery/2/b"].
Proof. vm_compute. reflexivity. Qed.

End LinkFacts.

(** ** What a download leaves on the disk *)

Section DownloadFacts.
Import ImagePipeline.

Variable md5_hexdigest : string -> string.
Variable urlparse_path : string -> result string.
Variable path_suffix : string -> string.
Variable path_join : string -> string -> string.

#[local] Abbreviation generate_filename :=
  (generate_filename md5_hexdigest urlparse_path path_suffix).
#[local] Abbreviation download_image :=
  (download_image md5_hexdigest urlparse_path path_suffix path_join).

Ltac run_download :=
  unfold ImagePipeline.download_image, ImagePipeline.download_body, mbind,
    sx_bind, ensure_output_dir, aiofiles_open, file_write, file_close,
    client_aclose, client_get, external, finally, lift, mret, sx_ret;
  simpl.

Lemma raise_for_status_ok r :
  raise_for_status r = Ok tt <-> (200 <= status_code r <= 299)%Z.
Proof.
  unfold raise_for_status.
  destruct (200 <=? status_code r)%Z eqn:E1, (status_code r <=? 299)%Z eqn:E2;
    simpl; split; try done; try lia.
Qed.

(** X8. A download that reports a success has stored, at the path it
    reports, the body of a response with a success status that the network
    gave for the URL, and has touched no other file.  When the network gives
    no response with a success status, the download reports a failure and
    the files are as they were. *)
Theorem download_image_stores_body env out u w :
  let r := (download_image env out u w).1 in
  let w' := (download_image env out u w).2 in
  (success r = true ->
   exists f resp,
     generate_filename u = Ok f /\
     net env (S (clock w)) u = Ok resp /\
     (200 <= status_code resp <= 299)%Z /\
     local_path r = Some (path_join out f) /\
     files w' = <[path_join out f := content resp]> (files w)) /\
  ((forall resp, net env (S (clock w)) u = Ok resp ->
      ~ (200 <= status_code resp <= 299)%Z) ->
   success r = false /\ files w' = files w).
Proof.
  cbv zeta. split.
  - run_download.
    repeat (case_match; simplify_eq/=); intros Hs; try discriminate.
    all: match goal with
         | H : raise_for_status ?r = Ok _ |- _ =>
             destruct (raise_for_status_ok r) as [Hst _];
             match type of H with _ = Ok ?t => destruct t end;
             specialize (Hst H)
         end.
    all: eexists _, _; repeat split; try eassumption; try lia.
    all: by rewrite insert_insert_eq.
  - intros Hnone. run_download.
    repeat (case_match; simplify_eq/=); try done.
    all: match goal with
         | H : raise_for_status ?r = Ok ?t, E : net _ _ _ = Ok ?r |- _ =>
             exfalso; apply (Hnone r E); apply raise_for_status_ok; by destruct t
         end.
Qed.

Example download_image_failed_write :
  let env := {| net := fun _ _ => Ok {| status_code := 200; content := "GIF89a" |};
                fault := fun n => if (n =? 3)%nat then Some (OtherError "No space left on device")
                                  else None |} in
  let r := ImagePipeline.download_image (fun _ => "0cc175b9") (fun _ => Ok "/a.gif")
             (fun _ => ".gif") (fun d f => d +:+ "/" +:+ f) env "out"
             "https://cdn.example/a.gif" {| clock := 0; files := ∅; dirs := ∅ |} in
  success r.1 = false /\ files r.2 !! "out/0cc175b9.gif" = Some "".
Proof. vm_compute. split; reflexivity. Qed.

End DownloadFacts.

(** ** The accounts of the collection loops *)

Section CollectorAccounts.
Import BehanceScraper.

Variable W : Type.
Variable scrape_project : string -> sx W unit.

Lemma skipped_app l1 l2 : skipped (l1 ++ l2) = skipped l1 + skipped l2.
Proof. unfold skipped. by rewrite List.filter_app, length_app. Qed.

Lemma sleeps_app l1 l2 : sleeps (l1 ++ l2) = sleeps l1 + sleeps l2.
Proof. unfold sleeps. by rewrite List.filter_app, length_app. Qed.

Lemma errors_plus l1 l2 : errors (l1 ++ l2) = errors l1 + errors l2.
Proof. unfold errors. by rewrite List.filter_app, length_app. Qed.

Lemma attempted_plus l1 l2 : attempted (l1 ++ l2) = attempted l1 ++ attempted l2.
Proof. apply omap_app. Qed.

(** The loop, from any point of the listing: [i] is the index of the head
    of what is left, so that the last link has index [n]. *)
Lemma scrape_each_accounts project_links n i count (st : State W) :
  i + length project_links = S n ->
  let r := scrape_each W scrape_project n i project_links count st in
  exists new,
    output r.2 = output st ++ new /\
    r.1 + errors new + skipped new = count + length project_links /\
    count + length (attempted new) = r.1 + errors new /\
    size (processed_projects r.2) + count = size (processed_projects st) + r.1 /\
    processed_projects r.2 ⊆ processed_projects st ∪ list_to_set project_links /\
    count + sleeps new <= r.1 /\ r.1 <= count + S (sleeps new) /\
    (errors new = 0 -> forall u, u ∈ project_links -> u ∈ processed_projects r.2).
Proof.
  revert i count st.
  induction project_links as [|u rest IH]; intros i count st Hi.
  - exists []. simpl. rewrite app_nil_r.
    change (sleeps []) with 0. change (errors []) with 0.
    change (skipped []) with 0.
    repeat split; try lia; try set_solver.
  - simpl in Hi. simpl. case_bool_decide as Hin.
    + match goal with
      | |- context [scrape_each _ _ _ _ _ ?c ?st1] =>
          destruct (IH (S i) c st1 ltac:(lia))
            as (new & Eo & Ec & Ea & Es & Hsub & Hlo & Hhi & Hall)
      end.
      cbn [output world processed_projects] in *.
      exists (Skipping u :: new). rewrite Eo, <- app_assoc.
      split; [done|].
      change (errors (Skipping u :: new)) with (errors new).
      change (skipped (Skipping u :: new)) with (S (skipped new)).
      change (sleeps (Skipping u :: new)) with (sleeps new).
      change (attempted (Skipping u :: new)) with (attempted new).
      repeat split; try lia; [set_solver|].
      intros He u' Hu'. apply elem_of_cons in Hu' as [->|Hu']; [|by apply Hall].
      pose proof (scrape_each_trace W scrape_project rest n (S i) count
                    (mkState (processed_projects st) (world st)
                       (output st ++ [Skipping u]))) as (? & _ & _ & _ & Hmono).
      cbn [processed_projects] in Hmono. set_solver.
    + destruct (scrape_project u (world st)) as [[[]|e] w] eqn:Es'.
      * match goal with
        | |- context [scrape_each _ _ _ _ _ ?c ?st1] =>
            pose proof (scrape_each_trace W scrape_project rest n (S i) c st1)
              as (? & _ & _ & _ & Hmono);
            destruct (IH (S i) c st1 ltac:(lia))
              as (new & Eo & Ec & Ea & Es & Hsub & Hlo & Hhi & Hall)
        end.
        cbn [output world processed_projects] in *.
        rewrite size_union in Es by set_solver. rewrite size_singleton in Es.
        exists ((Processing u :: (if (i <? n)%nat then [Sleep 3] else [])) ++ new).
        rewrite Eo, <- !app_assoc. split; [done|].
        rewrite errors_plus, skipped_app, sleeps_app, attempted_plus, length_app.
        assert (Hrest : (i <? n)%nat = false -> rest = [])
          by (intros Hf; apply Nat.ltb_ge in Hf; destruct rest; [done|simpl in Hi; lia]).
        destruct (i <? n)%nat eqn:Ei; simpl;
          change (errors [Processing u; Sleep 3]) with 0;
          change (errors [Processing u]) with 0;
          change (skipped [Processing u; Sleep 3]) with 0;
          change (skipped [Processing u]) with 0;
          change (sleeps [Processing u; Sleep 3]) with 1;
          change (sleeps [Processing u]) with 0.
        -- repeat split; try lia; [set_solver|].
           intros He u' Hu'. apply elem_of_cons in Hu' as [->|Hu'];
             [set_solver | by apply Hall].
        -- specialize (Hrest eq_refl). subst rest. simpl in *.
           repeat split; try lia; [set_solver|].
           intros He u' Hu'. apply elem_of_cons in Hu' as [->|Hu'];
             [set_solver | by apply Hall].
      * match goal with
        | |- context [scrape_each _ _ _ _ _ ?c ?st1] =>
            destruct (IH (S i) c st1 ltac:(lia))
              as (new & Eo & Ec & Ea & Es & Hsub & Hlo & Hhi & Hall)
        end.
        cbn [output world processed_projects] in *.
        exists (Processing u :: ErrorScraping (exn_str e) :: new).
        rewrite Eo, <- app_assoc. split; [done|].
        change (errors (Processing u :: ErrorScraping ?m :: new)) with (S (errors new)).
        change (skipped (Processing u :: ErrorScraping ?m :: new)) with (skipped new).
        change (sleeps (Processing u :: ErrorScraping ?m :: new)) with (sleeps new).
        change (attempted (Processing u :: ErrorScraping ?m :: new))
          with (u :: attempted new).
        simpl. repeat split; try lia; set_solver.
Qed.

Lemma slice_to_length {A} (stop : Z) (l : list A) :
  length (slice_to stop l) <= length l /\
  ((0 <= stop)%Z -> length (slice_to stop l) <= Z.to_nat stop).
Proof.
  unfold slice_to. destruct (0 <=? stop)%Z eqn:E; rewrite length_take; split; lia.
Qed.

Lemma slice_to_sublist {A} (stop : Z) (l : list A) : slice_to stop l `prefix_of` l.
Proof. unfold slice_to. destruct (0 <=? stop)%Z; apply prefix_take. Qed.

(** The events of the loop, link by link: what is printed for the link of
    index [j] of what is left. *)
Lemma scrape_each_blocks project_links n i count (st : State W) :
  i + length project_links = S n ->
  let r := scrape_each W scrape_project n i project_links count st in
  exists blocks,
    output r.2 = output st ++ concat blocks /\
    length blocks = length project_links /\
    forall j u b,
      project_links !! j = Some u -> blocks !! j = Some b ->
      b = [Skipping u] \/
      (exists msg, b = [Processing u; ErrorScraping msg]) \/
      (b = [Processing u; Sleep 3] /\ i + j < n) \/
      (b = [Processing u] /\ i + j = n).
Proof.
  revert i count st.
  induction project_links as [|u rest IH]; intros i count st Hi.
  - exists []. simpl. rewrite app_nil_r. repeat split; done.
  - simpl in Hi. simpl.
    assert (Hstep : forall (b0 : list Event) c st1,
              output st1 = output st ++ b0 ->
              (b0 = [Skipping u] \/
               (exists msg, b0 = [Processing u; ErrorScraping msg]) \/
               (b0 = [Processing u; Sleep 3] /\ i + 0 < n) \/
               (b0 = [Processing u] /\ i + 0 = n)) ->
              exists blocks,
                output (scrape_each W scrape_project n (S i) rest c st1).2 =
                  output st ++ concat blocks /\
                length blocks = S (length rest) /\
                forall j u' b,
                  (u :: rest) !! j = Some u' -> blocks !! j = Some b ->
                  b = [Skipping u'] \/
                  (exists msg, b = [Processing u'; ErrorScraping msg]) \/
                  (b = [Processing u'; Sleep 3] /\ i + j < n) \/
                  (b = [Processing u'] /\ i + j = n)).
    { intros b0 c st1 Hout Hb0.
      destruct (IH (S i) c st1 ltac:(lia)) as (blocks & Eo & Hlen & Hall).
      exists (b0 :: blocks). rewrite Eo, Hout, <- app_assoc.
      split; [done|]. split; [simpl; lia|].
      intros [|j] u' b Hu' Hb; simpl in Hu', Hb; simplify_eq; [done|].
      replace (i + S j) with (S i + j) by lia. by eapply Hall. }
    case_bool_decide as Hin.
    + apply (Hstep [Skipping u]); [done | by left].
    + destruct (scrape_project u (world st)) as [[[]|e] w] eqn:Es.
      * destruct (i <? n)%nat eqn:Ei.
        -- apply (Hstep [Processing u; Sleep 3]); [done|].
           apply Nat.ltb_lt in Ei. right. right. left. split; [done | lia].
        -- apply (Hstep [Processing u]); [done|].
           apply Nat.ltb_ge in Ei. right. right. right. split; [done | lia].
      * apply (Hstep [Processing u; ErrorScraping (exn_str e)]); [done|].
        right. left. by eexists.
Qed.

(** X9. The accounts of [scrape_search]: the run prints, for every kept
    link in order, either a skip, or the processing of the link followed by
    an error, or the processing of the link followed by a pause of three
    seconds, the pause being left out for the last kept link and for it
    alone.  The count returned is the number of URLs the run added to the
    processed set, all of them kept links; it is at most [max_projects]
    when that is not negative. *)
Theorem scrape_search_accounts project_links max_projects (st : State W) :
  let kept := slice_to max_projects project_links in
  let r := scrape_search W scrape_project project_links max_projects st in
  exists new blocks,
    output r.2 = output st ++ new /\
    new = concat blocks /\ length blocks = length kept /\
    (forall j u b,
       kept !! j = Some u -> blocks !! j = Some b ->
       b = [Skipping u] \/
       (exists msg, b = [Processing u; ErrorScraping msg]) \/
       (b = [Processing u; Sleep 3] /\ S j < length kept) \/
       (b = [Processing u] /\ S j = length kept)) /\
    r.1 + errors new + skipped new = length kept /\
    length (attempted new) = r.1 + errors new /\
    size (processed_projects r.2) = size (processed_projects st) + r.1 /\
    processed_projects r.2 ⊆ processed_projects st ∪ list_to_set kept /\
    sleeps new <= r.1 <= S (sleeps new) /\
    r.1 <= length project_links /\
    ((0 <= max_projects)%Z -> r.1 <= Z.to_nat max_projects).
Proof.
  intros kept r.
  destruct (scrape_each_accounts kept (length kept) 1 0 st ltac:(lia))
    as (new & Eo & Ec & Ea & Es & Hsub & Hlo & Hhi & _).
  destruct (scrape_each_blocks kept (length kept) 1 0 st ltac:(lia))
    as (blocks & Eb & Hlen & Hblocks).
  rewrite Eo in Eb. apply app_inv_head in Eb.
  destruct (slice_to_length max_projects project_links) as [Hlen' Hmax].
  fold kept in Hlen', Hmax.
  exists new, blocks. unfold r, scrape_search. fold kept.
  split; [done|]. split; [done|]. split; [done|]. split.
  { intros j u b Hu Hb. exact (Hblocks j u b Hu Hb). }
  repeat split; try done; lia.
Qed.

Lemma scrape_each_all_processed project_links n i count (st : State W) :
  (forall u, u ∈ project_links -> u ∈ processed_projects st) ->
  scrape_each W scrape_project n i project_links count st =
  (count, mkState (processed_projects st) (world st)
            (output st ++ (Skipping <$> project_links))).
Proof.
  revert i st. induction project_links as [|u rest IH]; intros i st Hall.
  - simpl. rewrite app_nil_r. by destruct st.
  - simpl. rewrite bool_decide_eq_true_2 by (apply Hall; set_solver).
    rewrite IH by (cbn [processed_projects]; intros u' Hu'; apply Hall; set_solver).
    cbn [processed_projects world output]. by rewrite <- app_assoc.
Qed.

(** X10. After a pass of [scrape_search] that met no error, a second pass
    over the same listing scrapes nothing: it returns 0, prints one skip per
    kept link, and leaves the processed set and everything outside the
    scraper as they were. *)
Theorem scrape_search_again project_links max_projects (st : State W) new :
  let r1 := scrape_search W scrape_project project_links max_projects st in
  let r2 := scrape_search W scrape_project project_links max_projects r1.2 in
  output r1.2 = output st ++ new ->
  errors new = 0 ->
  r2 = (0, mkState (processed_projects r1.2) (world r1.2)
             (output r1.2 ++ (Skipping <$> slice_to max_projects project_links))).
Proof.
  intros r1 r2 Hnew Herr.
  set (kept := slice_to max_projects project_links).
  destruct (scrape_each_accounts kept (length kept) 1 0 st ltac:(lia))
    as (new' & Eo & _ & _ & _ & _ & _ & _ & Hall).
  change (scrape_each W scrape_project (length kept) 1 kept 0 st) with r1 in *.
  rewrite Hnew in Eo. apply app_inv_head in Eo. subst new'.
  unfold r2, scrape_search. fold kept.
  apply scrape_each_all_processed. by apply Hall.
Qed.

End CollectorAccounts.

Lemma scrape_search_again_witness :
  let links := ["https://www.behance.net/gallery/1/a";
                "https://www.behance.net/gallery/2/b";
                "https://www.behance.net/gallery/3/c"] in
  let scrape_project := BehanceScraper.timing_out "https://www.behance.net/gallery/9/z" in
  let st := BehanceScraper.mkState ∅ [] [] in
  let r1 := BehanceScraper.scrape_search (list string) scrape_project links 2 st in
  let r2 := BehanceScraper.scrape_search (list string) scrape_project links 2 r1.2 in
  r1.1 = 2 /\ r2.1 = 0 /\ BehanceScraper.world r2.2 = BehanceScraper.world r1.2.
Proof.
  intros links scrape_project st r1 r2.
  pose proof (scrape_search_again (list string) scrape_project links 2 st
                [BehanceScraper.Processing "https://www.behance.net/gallery/1/a";
                 BehanceScraper.Sleep 3;
                 BehanceScraper.Processing "https://www.behance.net/gallery/2/b"]
                ltac:(vm_compute; reflexivity) ltac:(vm_compute; reflexivity)) as H.
  fold r1 in H. fold r2 in H. rewrite H.
  split; [vm_compute; reflexivity|]. split; reflexivity.
Defined.

Section CronAccounts.
Import CronScraper.

Variable W : Type.
Variable scrape_one : string -> sx W (option nat).

(** X11. The project loop of the cron scraper, whatever the scraping step
    does: every link is handed to it once, in listing order, each on the
    state the one before left; no counter goes down, and the projects
    counted and the errors counted are together at most the links. *)
Theorem cron_loop_accounts project_links stats w visited :
  let r := scrape_each W scrape_one project_links stats w visited in
  r.2 = visited ++ project_links /\
  r.1.2 = fold_left (fun w u => (scrape_one u w).2) project_links w /\
  projects_scraped stats <= projects_scraped r.1.1 /\
  images_downloaded stats <= images_downloaded r.1.1 /\
  errors stats <= errors r.1.1 /\
  projects_scraped r.1.1 + errors r.1.1 <=
    projects_scraped stats + errors stats + length project_links.
Proof.
  revert stats w visited.
  induction project_links as [|u rest IH]; intros stats w visited.
  - simpl. rewrite app_nil_r. repeat split; lia.
  - simpl. destruct (scrape_one u w) as [[[c|]|e] w'];
      match goal with
      | |- context [scrape_each _ _ _ ?s ?w1 ?v] =>
          destruct (IH s w1 v) as (Ev & Ew & Hp & Hi & He & Hsum)
      end;
      cbn [projects_scraped images_downloaded errors] in *;
      rewrite Ev, Ew, <- app_assoc; repeat split; lia.
Qed.

End CronAccounts.

Section BoardAccounts.
Import PinterestBoards.

Variable W : Type.
Variable scrape_board : Board -> sx W (nat * nat).

(** X12. The statistics of the board loop agree with one another: the run
    appends one summary per board it counts, the processed set grows by as
    many URLs, and the pins and the images it adds to the totals are the
    sums over these summaries; a board without pins adds no image. *)
Theorem board_loop_accounts boards0 (st : State W) :
  let st' := scrape_each W scrape_board boards0 st in
  exists new,
    boards (stats st') = boards (stats st) ++ new /\
    boards_scraped (stats st') = boards_scraped (stats st) + length new /\
    pins_scraped (stats st') =
      pins_scraped (stats st) + sum_list ((fun b => b.1.2) <$> new) /\
    images_downloaded (stats st') =
      images_downloaded (stats st) + sum_list ((fun b => b.2) <$> new) /\
    size (processed_boards st') = size (processed_boards st) + length new /\
    length new <= length boards0 /\
    Forall (fun b => b.1.2 = 0 -> b.2 = 0) new.
Proof.
  revert st. induction boards0 as [|board rest IH]; intros st.
  - exists []. simpl. rewrite app_nil_r. repeat split; try lia. constructor.
  - simpl. case_bool_decide as Hin.
    + destruct (IH st) as (new & Eb & Ec & Ep & Ei & Es & Hl & Hz).
      exists new. repeat split; try done. lia.
    + destruct (scrape_board board (world st)) as [[[pins success_count]|e] w].
      * cbv zeta. destruct (0 <? pins)%nat eqn:E0;
          match goal with
          | |- context [scrape_each _ _ _ ?st1] =>
              destruct (IH st1) as (new & Eb & Ec & Ep & Ei & Es & Hl & Hz)
          end;
          cbn [stats processed_boards boards boards_scraped pins_scraped
               images_downloaded] in *;
          rewrite size_union in Es by set_solver; rewrite size_singleton in Es;
          [exists ((name board, pins, success_count) :: new)
          |exists ((name board, pins, 0) :: new)];
          rewrite Eb, Ec, Ep, Ei, Es, <- app_assoc;
          cbn [fmap list_fmap sum_list sum_list_with length fst snd]; unfold id;
          [apply Nat.ltb_lt in E0 | apply Nat.ltb_ge in E0];
          repeat split; try done; try lia;
          constructor; try done; cbn [fst snd]; intros; lia.
      * match goal with
        | |- context [scrape_each _ _ _ ?st1] =>
            destruct (IH st1) as (new & Eb & Ec & Ep & Ei & Es & Hl & Hz)
        end.
        cbn [stats processed_boards] in *.
        exists new. repeat split; try done. lia.
Qed.

End BoardAccounts.

(** ** The direct login and the cookie file *)

Section DirectLogin.
Import Playwright PinterestAuth.

Variable env : nat -> Call -> result Answer.

(** X13. The direct login reports a success only at the end of one
    sequence of calls: it opens the login page, types the e-mail into the
    e-mail field and the password into the password field, clicks the
    submit button, and then reads a page URL that does not hold [login]. *)
Theorem login_types_credentials page e p log :
  (login env page e p log).1 = true ->
  exists h1 h2 h3 u,
    (login env page e p log).2 =
      log ++ [Print direct_start; Goto page login_url "domcontentloaded";
              WaitForTimeout page 2000;
              WaitForSelector page "input[id='email']"; Fill h1 e;
              WaitForTimeout page 500;
              WaitForSelector page "input[id='password']"; Fill h2 p;
              WaitForTimeout page 500;
              WaitForSelector page "button[type='submit']"; Click h3;
              WaitForTimeout page 5000; PageUrl page] /\
    env (length log + 12) (PageUrl page) = Ok (AStr u) /\
    PyStr.contains "login" (PyStr.lower u) = false.
Proof.
  unfold login, login_body, except_false, print, goto, wait_for_timeout,
    wait_for_selector, fill, click, page_url, query_selector, text_content,
    on_handle, call, lift, mbind, sx_bind, mret, sx_ret.
  intros H.
  repeat (case_match; simplify_eq/=).
  match goal with
  | Hu : as_str ?a = Ok ?u, He : env _ (PageUrl page) = Ok ?a |- _ =>
      destruct a; simplify_eq/=;
      repeat rewrite length_app in He; simpl in He;
      match type of He with
      | env ?n _ = Ok (AStr ?s) =>
          replace n with (length log + 12) in He by lia
      end
  end.
  do 4 eexists. repeat rewrite <- app_assoc.
  split; [reflexivity|]. split; [eassumption|]. by apply negb_true_iff.
Qed.

(** X14. [save_cookies] reports a success exactly when the context gives
    its cookies, the directory of the file is made and the file is written;
    what it writes is what the context gave, at the path it was given. *)
Theorem save_cookies_writes_context_cookies path log :
  ((save_cookies env path log).1 = true <->
   exists cookies,
     env (length log) GetCookies = Ok (ACookies cookies) /\
     env (S (length log)) (MkdirParent path) = Ok AUnit /\
     env (S (S (length log))) (WriteJson path cookies) = Ok AUnit) /\
  exists new,
    (save_cookies env path log).2 = log ++ new /\
    (new `prefix_of` [GetCookies; MkdirParent path] \/
     exists cookies,
       env (length log) GetCookies = Ok (ACookies cookies) /\
       new = [GetCookies; MkdirParent path; WriteJson path cookies]).
Proof.
  unfold save_cookies, except_false, mbind, sx_bind, call, lift, mret, sx_ret.
  split; [split|].
  - intros H. repeat (case_match; simplify_eq/=).
    repeat match goal with
           | E : context [length (_ ++ _)] |- _ =>
               rewrite length_app in E; simpl in E; rewrite Nat.add_1_r in E
           end.
    repeat match goal with
           | Hu : as_unit ?a = Ok _ |- _ => destruct a; simplify_eq/=
           | Hc : as_cookies ?a = Ok _ |- _ => destruct a; simplify_eq/=
           end.
    eauto.
  - intros (cookies & H1 & H2 & H3). rewrite H1. simpl.
    rewrite length_app. simpl. rewrite Nat.add_1_r, H2. simpl.
    rewrite !length_app. simpl. rewrite !Nat.add_1_r, H3. reflexivity.
  - repeat (case_match; simplify_eq/=); rewrite <- ?app_assoc; simpl;
      eexists; (split; [reflexivity|]);
      try (left; eexists; reflexivity);
      right;
      repeat match goal with
             | Hc : as_cookies ?a = Ok _ |- _ => destruct a; simplify_eq/=
             end;
      eauto.
Qed.

End DirectLogin.

Lemma login_types_credentials_witness :
  (PinterestAuth.login PinterestAuth.google_env 0 "e" "p" []).1 = true /\
  exists h1 h2 h3,
    In (Playwright.Fill h1 "e")
      (PinterestAuth.login PinterestAuth.google_env 0 "e" "p" []).2 /\
    In (Playwright.Fill h2 "p")
      (PinterestAuth.login PinterestAuth.google_env 0 "e" "p" []).2 /\
    In (Playwright.Click h3)
      (PinterestAuth.login PinterestAuth.google_env 0 "e" "p" []).2.
Proof.
  split; [reflexivity|].
  destruct (login_types_credentials PinterestAuth.google_env 0 "e" "p" [] eq_refl)
    as (h1 & h2 & h3 & u & E & _).
  exists h1, h2, h3. rewrite E. simpl. tauto.
Defined.

(** ** When the cookie file is written *)

Section CookieWrites.
Import Playwright PinterestAuth PinterestScraper.

Variable env : nat -> Call -> result Answer.

#[local] Abbreviation quiet := (fun c : Call => writes_file c = false).

Lemma quiet_find_button page selectors :
  emits (Forall quiet) (find_button env page selectors).
Proof.
  induction selectors as [|selector rest IH]; simpl; [apply calls_ret|].
  calls_run; try assumption; reflexivity.
Qed.

Lemma quiet_click_first page selectors :
  emits (Forall quiet) (click_first env page selectors).
Proof.
  induction selectors as [|selector rest IH]; simpl; [apply calls_ret|].
  calls_run; try assumption; reflexivity.
Qed.

Lemma quiet_find_indicator page indicators :
  emits (Forall quiet) (find_indicator env page indicators).
Proof.
  induction indicators as [|indicator rest IH]; simpl; [apply calls_ret|].
  calls_run; try assumption; reflexivity.
Qed.

Lemma quiet_print msg : emits (Forall quiet) (print msg).
Proof. apply emits_print. by constructor. Qed.

Lemma quiet_login_with_google page e p log :
  exists l, (login_with_google env page e p log).2 = log ++ l /\ Forall quiet l.
Proof.
  unfold login_with_google, login_with_google_body.
  apply emits_except_false.
  repeat first
    [ apply quiet_print | apply quiet_find_button | apply quiet_click_first
    | apply quiet_find_indicator | progress calls_run ];
    reflexivity.
Qed.

Lemma quiet_login page e p log :
  exists l, (login env page e p log).2 = log ++ l /\ Forall quiet l.
Proof.
  unfold login, login_body. apply emits_except_false.
  repeat first [ apply quiet_print | progress calls_run ]; reflexivity.
Qed.

Lemma quiet_login_with_cookies path log :
  exists l, (login_with_cookies env path log).2 = log ++ l /\ Forall quiet l.
Proof.
  unfold login_with_cookies, login_with_cookies_body. apply emits_except_false.
  calls_run; reflexivity.
Qed.

Lemma save_cookies_log path log :
  exists l,
    (save_cookies env path log).2 = log ++ l /\
    forall path' cookies, WriteJson path' cookies ∈ l -> path' = path.
Proof.
  unfold save_cookies, except_false, mbind, sx_bind, call, lift, mret, sx_ret.
  repeat (case_match; simplify_eq/=); rewrite <- ?app_assoc; simpl;
    eexists; (split; [reflexivity|]); intros path' cookies Hin;
    repeat (apply elem_of_cons in Hin as [Hin|Hin]; [by simplify_eq|]);
    by apply elem_of_nil in Hin.
Qed.

Lemma quiet_no_write l path cookies :
  Forall quiet l -> WriteJson path cookies ∉ l.
Proof.
  intros Hq Hin. rewrite Forall_forall in Hq. by specialize (Hq _ Hin).
Qed.

(** X15. The authentication block writes the cookie file only after a
    login with the credentials has succeeded: then the block reports a
    login, the file is the configured cookie file, and the session restore
    from that file had not reported a session. *)
Theorem authenticate_saves_after_login cfg page log :
  let r := authenticate env cfg page log in
  exists new,
    r.2 = log ++ new /\
    forall path cookies,
      WriteJson path cookies ∈ new ->
      r.1 = true /\
      truthy (cookies_path cfg) = true /\ path = text (cookies_path cfg) /\
      truthy (email cfg) = true /\ truthy (password cfg) = true /\
      (login_with_cookies env path log).1 = false.
Proof.
  intros r. subst r. unfold authenticate.
  assert (Hc : exists l1 b1,
            (if truthy (cookies_path cfg)
             then login_with_cookies env (text (cookies_path cfg)) log
             else (false, log)) = (b1, log ++ l1) /\ Forall quiet l1 /\
            (truthy (cookies_path cfg) = true ->
             (login_with_cookies env (text (cookies_path cfg)) log).1 = b1)).
  { destruct (truthy (cookies_path cfg)).
    - destruct (quiet_login_with_cookies (text (cookies_path cfg)) log)
        as (l1 & E1 & Q1).
      destruct (login_with_cookies env (text (cookies_path cfg)) log) as [b1 log1].
      simpl in E1. subst log1. by exists l1, b1.
    - exists [], false. by rewrite app_nil_r. }
  destruct Hc as (l1 & b1 & -> & Q1 & Hb1).
  destruct b1; cbn [negb andb].
  { exists l1. split; [done|]. intros path cookies Hin.
    by destruct (quiet_no_write _ _ _ Q1 Hin). }
  destruct (truthy (email cfg)) eqn:Ee, (truthy (password cfg)) eqn:Ep;
    cbn [andb negb].
  2-4: exists (l1 ++ [Print not_logged_in; Print login_hint]);
    rewrite app_assoc; (split; [done|]); intros path cookies Hin;
    apply elem_of_app in Hin as [Hin|Hin];
    [by destruct (quiet_no_write _ _ _ Q1 Hin)|];
    repeat (apply elem_of_cons in Hin as [Hin|Hin]; [discriminate|]);
    by apply elem_of_nil in Hin.
  destruct (quiet_login_with_google page (text (email cfg)) (text (password cfg))
              (log ++ l1)) as (lg & Eg & Qg).
  destruct (login_with_google env page (text (email cfg)) (text (password cfg))
              (log ++ l1)) as [bg logg].
  simpl in Eg. subst logg.
  assert (Hd : exists ld bd,
            (if negb bg
             then login env page (text (email cfg)) (text (password cfg))
                    ((log ++ l1) ++ lg)
             else (bg, (log ++ l1) ++ lg)) = (bd, ((log ++ l1) ++ lg) ++ ld) /\
            Forall quiet ld).
  { destruct bg; cbn [negb].
    - exists [], true. by rewrite app_nil_r.
    - destruct (quiet_login page (text (email cfg)) (text (password cfg))
                  ((log ++ l1) ++ lg)) as (ld & Ed & Qd).
      destruct (login env page (text (email cfg)) (text (password cfg))
                  ((log ++ l1) ++ lg)) as [bd logd].
      simpl in Ed. subst logd. by exists ld, bd. }
  destruct Hd as (ld & bd & -> & Qd).
  destruct (save_cookies_log (text (cookies_path cfg)) (((log ++ l1) ++ lg) ++ ld))
    as (ls & Es & Hs).
  assert (Hpre : forall path cookies,
            WriteJson path cookies ∉ l1 ++ lg ++ ld).
  { intros path cookies Hin.
    apply elem_of_app in Hin as [Hin|Hin];
      [by destruct (quiet_no_write _ _ _ Q1 Hin)|].
    apply elem_of_app in Hin as [Hin|Hin];
      [by destruct (quiet_no_write _ _ _ Qg Hin)
      |by destruct (quiet_no_write _ _ _ Qd Hin)]. }
  destruct bd; cbn [andb negb].
  - destruct (truthy (cookies_path cfg)) eqn:Ec.
    + rewrite Es. exists (l1 ++ lg ++ ld ++ ls). rewrite !app_assoc.
      split; [done|]. intros path cookies Hin.
      rewrite <- !app_assoc in Hin. rewrite !app_assoc in Hin.
      apply elem_of_app in Hin as [Hin|Hin].
      * rewrite <- !app_assoc in Hin. by destruct (Hpre _ _ Hin).
      * specialize (Hs _ _ Hin). subst path. repeat split; auto.
    + exists (l1 ++ lg ++ ld). rewrite !app_assoc. split; [done|].
      intros path cookies Hin. rewrite <- !app_assoc in Hin.
      by destruct (Hpre _ _ Hin).
  - exists (l1 ++ lg ++ ld ++ [Print not_logged_in; Print login_hint]).
    rewrite !app_assoc. split; [done|]. intros path cookies Hin.
    apply elem_of_app in Hin as [Hin|Hin].
    + rewrite <- !app_assoc in Hin. by destruct (Hpre _ _ Hin).
    + repeat (apply elem_of_cons in Hin as [Hin|Hin]; [discriminate|]).
      by apply elem_of_nil in Hin.
Qed.

End CookieWrites.

(** ** The Google login *)

Section GoogleLogin.
Import Playwright PinterestAuth.

Variable env : nat -> Call -> result Answer.

#[local] Abbreviation any := (Forall (fun _ : Call => True)).

Lemma true_after_false P : true_after P (mret false).
Proof. intros log log' H. discriminate. Qed.

Lemma true_after_emits (m : sx (list Call) bool) :
  emits any m -> true_after (fun _ => True) m.
Proof.
  intros Hm log log' H. destruct (Hm log) as (l & E & _).
  rewrite H in E. by exists l.
Qed.

Lemma true_after_bind {A} P (m : sx (list Call) A) (k : A -> sx (list Call) bool) :
  (forall l0 l, P l -> P (l0 ++ l)) ->
  emits any m -> (forall a, true_after P (k a)) -> true_after P (m ≫= k).
Proof.
  intros Hpre Hm Hk log log'. unfold mbind, sx_bind.
  destruct (Hm log) as (l1 & E1 & _).
  destruct (m log) as [[a|e] log1]; simpl in E1; subst log1; [|discriminate].
  intros H. destruct (Hk a _ _ H) as (l2 & -> & H2).
  exists (l1 ++ l2). rewrite app_assoc. auto.
Qed.

Lemma true_after_attempt {A} (P1 P2 P : list Call -> Prop)
    (m : sx (list Call) A) (k : result A -> sx (list Call) bool) :
  (forall log a log', m log = (Ok a, log') -> exists l, log' = log ++ l /\ P1 l) ->
  (forall e, true_after (fun _ => False) (k (Raise e))) ->
  (forall a, true_after P2 (k (Ok a))) ->
  (forall l1 l2, P1 l1 -> P2 l2 -> P (l1 ++ l2)) ->
  true_after P (attempt m ≫= k).
Proof.
  intros Hm Hraise Hok Hcat log log'. unfold mbind, sx_bind, attempt.
  destruct (m log) as [[a|e] log1] eqn:Em.
  - destruct (Hm _ _ _ Em) as (l1 & -> & H1).
    intros H. destruct (Hok a _ _ H) as (l2 & -> & H2).
    exists (l1 ++ l2). rewrite app_assoc. auto.
  - intros H. by destruct (Hraise e _ _ H) as (? & _ & []).
Qed.

Lemma any_find_button page selectors : emits any (find_button env page selectors).
Proof.
  induction selectors as [|selector rest IH]; simpl; [apply calls_ret|].
  calls_run; try assumption; done.
Qed.

Lemma any_click_first page selectors : emits any (click_first env page selectors).
Proof.
  induction selectors as [|selector rest IH]; simpl; [apply calls_ret|].
  calls_run; try assumption; done.
Qed.

Lemma any_find_indicator page indicators :
  emits any (find_indicator env page indicators).
Proof.
  induction indicators as [|indicator rest IH]; simpl; [apply calls_ret|].
  calls_run; try assumption; done.
Qed.

Lemma any_print msg : emits any (print msg).
Proof. apply emits_print. by constructor. Qed.

Ltac any_run :=
  repeat first
    [ apply any_print | apply any_find_button | apply any_click_first
    | apply any_find_indicator | progress calls_run ];
  done.

(** The block that waits for a field and fills it. *)
Lemma fill_block page selector text ms log (h : option nat) log' :
  (input ← wait_for_selector env page selector;
   _ ← fill env input text;
   _ ← wait_for_timeout env page ms;
   mret input) log = (Ok h, log') ->
  exists n, log' = log ++ [WaitForSelector page selector; Fill n text;
                           WaitForTimeout page ms].
Proof.
  unfold wait_for_selector, fill, wait_for_timeout, on_handle, call, lift,
    mbind, sx_bind, mret, sx_ret.
  intros H. repeat (case_match; simplify_eq/=).
  eexists. by repeat rewrite <- app_assoc.
Qed.

Lemma types_password_prefix gp p l0 l :
  types_password gp p l -> types_password gp p (l0 ++ l).
Proof.
  intros (h & l2 & l3 & ->). exists h, (l0 ++ l2), l3. by rewrite <- app_assoc.
Qed.

Lemma types_credentials_prefix gp e p l0 l :
  types_credentials gp e p l -> types_credentials gp e p (l0 ++ l).
Proof.
  intros (h & l1 & l' & -> & Hp). exists h, (l0 ++ l1), l'.
  by rewrite <- app_assoc.
Qed.

Lemma login_with_google_body_types page e p :
  true_after (fun l => exists gp, types_credentials gp e p l)
    (login_with_google_body env page e p).
Proof.
  assert (Hpre : forall l0 l,
            (exists gp, types_credentials gp e p l) ->
            exists gp, types_credentials gp e p (l0 ++ l)).
  { intros l0 l [gp H]. exists gp. by apply types_credentials_prefix. }
  unfold login_with_google_body.
  apply true_after_bind; [exact Hpre | any_run | intros _].
  apply true_after_bind; [exact Hpre | any_run | intros _].
  apply true_after_bind; [exact Hpre | any_run | intros _].
  apply true_after_bind; [exact Hpre | any_run | intros google_button].
  destruct google_button as [b|]; [|apply true_after_false].
  apply true_after_bind; [exact Hpre | any_run | intros _].
  apply true_after_bind; [exact Hpre | any_run | intros _].
  apply true_after_bind; [exact Hpre | any_run | intros current_url].
  apply true_after_bind; [exact Hpre | any_run | intros target].
  destruct target as [google_page|]; [|apply true_after_false].
  apply (true_after_attempt
           (fun l => exists n, l = [WaitForSelector google_page "input[type='email']";
                                    Fill n e; WaitForTimeout google_page 1000])
           (types_password google_page p)).
  - intros log h log' H. destruct (fill_block _ _ _ _ _ _ _ H) as [n ->]. eauto.
  - intros ex. apply true_after_false.
  - intros email_input.
    apply true_after_bind; [apply types_password_prefix | any_run | intros next_clicked].
    apply true_after_bind; [apply types_password_prefix | any_run | intros _].
    apply true_after_bind; [apply types_password_prefix | any_run | intros _].
    apply (true_after_attempt
             (fun l => exists n,
                l = [WaitForSelector google_page "input[type='password']";
                     Fill n p; WaitForTimeout google_page 1000])
             (fun _ => True)).
    + intros log h log' H. destruct (fill_block _ _ _ _ _ _ _ H) as [n ->]. eauto.
    + intros ex. apply true_after_false.
    + intros password_input. apply true_after_emits. any_run.
    + intros l1 l2 [n ->] _. exists n, [], (WaitForTimeout google_page 1000 :: l2).
      reflexivity.
  - intros l1 l2 [n ->] Hp. exists google_page, n, [], (WaitForTimeout google_page 1000 :: l2).
    split; [reflexivity|]. by apply (types_password_prefix _ _ [_]).
Qed.

(** X16. The Google login reports a success only after it has typed the
    e-mail into the e-mail field of the Google page and, later, the
    password into the password field of the same page. *)
Theorem login_with_google_types_credentials page e p log :
  (login_with_google env page e p log).1 = true ->
  exists google_page h1 h2 l1 l2 l3,
    (login_with_google env page e p log).2 =
      log ++ l1 ++
      [WaitForSelector google_page "input[type='email']"; Fill h1 e] ++ l2 ++
      [WaitForSelector google_page "input[type='password']"; Fill h2 p] ++ l3.
Proof.
  unfold login_with_google, except_false.
  destruct (login_with_google_body env page e p log) as [[[]|ex] log'] eqn:E;
    try discriminate.
  intros _.
  destruct (login_with_google_body_types page e p _ _ E)
    as (l & -> & gp & h1 & l1 & l' & -> & h2 & l2 & l3 & ->).
  by exists gp, h1, h2, l1, l2, l3.
Qed.

End GoogleLogin.

Lemma login_with_google_types_credentials_witness :
  (PinterestAuth.login_with_google PinterestAuth.google_env 0 "e" "p" []).1 = true /\
  exists h1 h2,
    In (Playwright.Fill h1 "e")
      (PinterestAuth.login_with_google PinterestAuth.google_env 0 "e" "p" []).2 /\
    In (Playwright.Fill h2 "p")
      (PinterestAuth.login_with_google PinterestAuth.google_env 0 "e" "p" []).2.
Proof.
  split; [reflexivity|].
  destruct (login_with_google_types_credentials PinterestAuth.google_env 0 "e" "p" []
              eq_refl)
    as (gp & h1 & h2 & l1 & l2 & l3 & E).
  exists h1, h2. rewrite E. split; apply list_elem_of_In; set_solver.
Defined.

(** ** The profile links of a listing *)

Section UserLinkFacts.
Import SearchExtractor.

Lemma after_prefix_app p s t : after_prefix p s = Some t -> s = (p +:+ t)%string.
Proof.
  revert s. induction p as [|a p IH]; intros s H; simpl in *; [by simplify_eq|].
  destruct s as [|b s]; [done|].
  destruct (Ascii.eqb_spec a b) as [->|]; [|done].
  unfold String.app; simpl. f_equal. by apply IH.
Qed.

Lemma prefix_has_slash p s :
  String.prefix p s = true -> PyStr.has_slash p = true -> PyStr.has_slash s = true.
Proof.
  revert s. induction p as [|a p IH]; intros s Hp Hs; [done|].
  destruct s as [|b s]; [done|]. simpl in *.
  destruct (ascii_dec a b) as [->|]; [|done].
  apply orb_true_iff in Hs as [Hs|Hs]; [by rewrite Hs|].
  rewrite (IH s Hp Hs). by rewrite orb_true_r.
Qed.

Lemma contains_has_slash needle s :
  PyStr.has_slash needle = true -> PyStr.has_slash s = false ->
  PyStr.contains needle s = false.
Proof.
  intros Hn. induction s as [|c t IH]; intros Hs.
  - simpl. rewrite orb_false_r.
    destruct (String.prefix needle "") eqn:E; [|done].
    by rewrite (prefix_has_slash _ _ E Hn) in Hs.
  - simpl in Hs. apply orb_false_iff in Hs as [Hc Ht].
    cbn [PyStr.contains]. rewrite (IH Ht), orb_false_r.
    destruct (String.prefix needle (String c t)) eqn:E; [|done].
    pose proof (prefix_has_slash _ _ E Hn) as Hs. simpl in Hs.
    by rewrite Hc, Ht in Hs.
Qed.

Lemma username_char_no_slash c : username_char c = true -> Ascii.eqb c "/" = false.
Proof.
  destruct (Ascii.eqb_spec c "/") as [->|]; [|done]. by vm_compute.
Qed.

Lemma username_rest_no_slash s : username_rest s = true -> PyStr.has_slash s = false.
Proof.
  induction s as [|c t IH]; [done|]. simpl.
  destruct (username_char c) eqn:Ec.
  - intros Ht. by rewrite (username_char_no_slash c Ec), (IH Ht).
  - intros H. apply andb_true_iff in H as [Hc Ht].
    apply Ascii.eqb_eq in Hc. apply String.eqb_eq in Ht. by subst.
Qed.

Lemma contains_step needle a s :
  PyStr.contains needle (String a s) =
  String.prefix needle (String a s) || PyStr.contains needle s.
Proof. reflexivity. Qed.

Lemma prefix_gallery_miss a b r :
  (a, b) <> ("/"%char, "g"%char) ->
  String.prefix "/gallery/" (String a (String b r)) = false.
Proof.
  intros H. cbn [String.prefix]. destruct (ascii_dec "/" a) as [<-|]; [|done].
  destruct (ascii_dec "g" b) as [<-|]; [by destruct H|done].
Qed.

Lemma profile_no_gallery base_url :
  is_profile_url base_url = true -> PyStr.contains "/gallery/" base_url = false.
Proof.
  unfold is_profile_url.
  destruct (after_prefix "https://www.behance.net/" base_url) as [[|c t]|] eqn:E;
    try done.
  intros H. apply andb_true_iff in H as [Hc Ht].
  apply after_prefix_app in E. subst base_url.
  assert (Hs : PyStr.has_slash (String c t) = false).
  { simpl. by rewrite (username_char_no_slash c Hc), (username_rest_no_slash t Ht). }
  pose proof (contains_has_slash "/gallery/" _ eq_refl Hs) as Hin.
  pose proof (contains_has_slash "gallery/" _ eq_refl Hs) as Hin'.
  cbn [PyStr.contains] in Hin'. apply orb_false_iff in Hin' as [Hpre _].
  cbv beta iota delta [append].
  do 23 (rewrite contains_step, prefix_gallery_miss by (intros [=])).
  rewrite contains_step.
  change (String.prefix "/gallery/" (String "/" (String c t)))
    with (String.prefix "gallery/" (String c t)).
  by rewrite Hpre, Hin.
Qed.


Lemma collect_user_links_invariant all hrefs seen_urls user_links :
  (forall href, href ∈ hrefs -> href ∈ all) ->
  user_links_invariant all seen_urls user_links ->
  exists seen_urls',
    user_links_invariant all seen_urls'
      (collect_user_links hrefs seen_urls user_links).
Proof.
  revert seen_urls user_links.
  induction hrefs as [|href rest IH]; intros seen_urls user_links Hin Hinv;
    [by exists seen_urls|].
  assert (Hrest : forall h, h ∈ rest -> h ∈ all)
    by (intros h Hh; apply Hin; set_solver).
  cbn [collect_user_links]. cbv zeta. destruct href as [href|]; [|by apply IH].
  destruct (String.eqb href "" || PyStr.str_in href skipped_hrefs) eqn:Eskip;
    [by apply IH|].
  destruct (existsb (fun skip => PyStr.contains skip href) skipped_parts) eqn:Epart;
    [by apply IH|].
  destruct (is_profile_url (base_url_of (full_url_of href))) eqn:Eprofile;
    [|by apply IH].
  case_bool_decide as Hseen; cbn [negb]; [by apply IH|].
  apply IH; [done|].
  destruct Hinv as (Hs & Hnd & Hall). subst seen_urls.
  unfold user_links_invariant.
  rewrite fmap_app, list_to_set_app_L. simpl.
  split; [set_solver|]. split.
  - apply NoDup_app. split; [done|]. split; [|apply NoDup_singleton].
    intros x Hx Hx'. apply list_elem_of_singleton in Hx'. subst x.
    apply Hseen. by apply elem_of_list_to_set.
  - apply Forall_app. split; [done|]. constructor; [|done].
    split; [done|]. exists href. apply orb_false_iff in Eskip as [_ Eskip].
    repeat split; try done. apply Hin. set_solver.
Qed.

Lemma username_rest_shape t :
  username_rest t = true ->
  exists name tail,
    t = name +:+ tail /\ username name = true /\
    (tail = "" \/ tail = String "010" "").
Proof.
  induction t as [|c t IH]; cbn [username_rest].
  - intros _. exists "", "". auto.
  - destruct (username_char c) eqn:Ec.
    + intros Ht. destruct (IH Ht) as (name & tail & -> & Hname & Htail).
      exists (String c name), tail. repeat split; [|done].
      cbn [username]. by rewrite Ec, Hname.
    + intros H. apply andb_true_iff in H as [Hc Ht].
      apply Ascii.eqb_eq in Hc. apply String.eqb_eq in Ht. subst.
      exists "", (String "010" ""). auto.
Qed.

Lemma is_profile_url_shape base_url :
  is_profile_url base_url = true -> profile_shape base_url.
Proof.
  unfold is_profile_url.
  destruct (after_prefix "https://www.behance.net/" base_url) as [[|c t]|] eqn:E;
    try done.
  intros H. apply andb_true_iff in H as [Hc Ht].
  apply after_prefix_app in E. subst base_url.
  destruct (username_rest_shape t Ht) as (name & tail & -> & Hname & Htail).
  exists (String c name), tail. repeat split; [done| |done].
  cbn [username]. by rewrite Hc, Hname.
Qed.

(** X17. The profile links of a listing: no two of them have the same URL
    before the query string; every one is, before its query string, the
    site followed by one segment of letters, digits, [_] and [-], not
    empty, and then nothing or one final newline (which the [$] of the
    pattern lets through); every one is the [href] of a selected element
    that is neither one of the skipped pages nor holds one of the skipped
    parts.  No profile link has the URL of a project link of any page. *)
Theorem extract_user_links_profiles hrefs :
  NoDup (base_url_of <$> extract_user_links hrefs) /\
  Forall (fun u =>
            profile_shape (base_url_of u) /\
            exists href,
              Some href ∈ hrefs /\ u = full_url_of href /\
              PyStr.str_in href skipped_hrefs = false /\
              existsb (fun skip => PyStr.contains skip href) skipped_parts = false)
    (extract_user_links hrefs) /\
  forall select u,
    u ∈ extract_user_links hrefs ->
    base_url_of u ∉ base_url_of <$> extract_project_links select.
Proof.
  destruct (collect_user_links_invariant hrefs hrefs ∅ []) as (seen & _ & Hnd & Hall);
    [done | by repeat split; try constructor |].
  fold (extract_user_links hrefs) in Hnd, Hall.
  split; [done|]. split.
  { eapply Forall_impl; [exact Hall|]. cbv beta.
    intros u [Hprofile Hhref]. split; [by apply is_profile_url_shape | done]. }
  intros select u Hu Hin.
  rewrite Forall_forall in Hall. destruct (Hall u Hu) as [Hprofile _].
  apply profile_no_gallery in Hprofile.
  apply list_elem_of_fmap in Hin as (v & Hv & Hin).
  destruct (collect_selectors_invariant select link_selectors link_selectors ∅ [])
    as (_ & _ & Hgal & _); [done | by repeat split; try constructor |].
  fold (extract_project_links select) in Hgal.
  rewrite Forall_forall in Hgal. specialize (Hgal v Hin). congruence.
Qed.

Example extract_user_links_newline :
  extract_user_links [Some (String "/" (String "j" (String "o" (String "e"
                              (String "010" "")))))] =
  [String.append "https://www.behance.net/joe" (String "010" "")].
Proof. vm_compute. reflexivity. Qed.

Example extract_user_links_example :
  extract_user_links
    [Some "/adobe"; Some "/adobe?tracking_source=search"; Some "/"; None;
     Some "/about"; Some "/joe/moodboards"; Some "/search?q=1"] =
  ["https://www.behance.net/adobe"; "https://www.behance.net/search?q=1"].
Proof. vm_compute. reflexivity. Qed.

End UserLinkFacts.

(** ** The images of a project page *)

Section PageImages.
Import PyStr ImageModel ImageExtractor.

Variable http_url : string -> result string.
Variable int_of_str : string -> result Z.
Variable select : string -> list ImgElement.

#[local] Abbreviation collect_images := (collect_images http_url int_of_str).
#[local] Abbreviation collect_selectors :=
  (ImageExtractor.collect_selectors http_url int_of_str select).
#[local] Abbreviation extract_from_page :=
  (extract_from_page http_url int_of_str select).
#[local] Abbreviation extracted := (extracted http_url int_of_str select).
#[local] Abbreviation images_invariant :=
  (images_invariant http_url int_of_str select).

Lemma collect_images_invariant pid selector img_elements img_urls seen_urls
    images seen_urls' images' :
  selector ∈ image_selectors ->
  (forall img_elem, img_elem ∈ img_elements -> img_elem ∈ select selector) ->
  images_invariant pid img_urls seen_urls images ->
  collect_images pid img_elements seen_urls images = Ok (seen_urls', images') ->
  exists img_urls', images_invariant pid img_urls' seen_urls' images'.
Proof.
  intros Hsel. revert img_urls seen_urls images.
  induction img_elements as [|img_elem rest IH];
    intros img_urls seen_urls images Hin Hinv Hrun.
  { simpl in Hrun. simplify_eq. by exists img_urls. }
  assert (Hrest : forall e, e ∈ rest -> e ∈ select selector)
    by (intros e He; apply Hin; set_solver).
  cbn [ImageExtractor.collect_images] in Hrun. cbv zeta in Hrun.
  destruct (or_else (src img_elem) (data_src img_elem)) as [img_url|] eqn:Eurl;
    [|by eapply IH].
  destruct (String.eqb img_url "" || bool_decide (img_url ∈ seen_urls)) eqn:Eseen;
    [by eapply IH|].
  destruct (existsb (fun size => contains size img_url) small_markers) eqn:Esmall;
    [by eapply IH|].
  destruct (int_attr int_of_str (width_attr img_elem) 1920) as [w|] eqn:Ew;
    [|discriminate].
  destruct (int_attr int_of_str (height_attr img_elem) 1080) as [h|] eqn:Eh;
    [|discriminate].
  cbn [mbind result_bind] in Hrun.
  destruct (Image_init http_url img_url w h 0 (extract_format img_url) pid)
    as [image|] eqn:Einit; [|discriminate].
  cbn [mbind result_bind] in Hrun.
  refine (IH (img_urls ++ [img_url]) _ _ Hrest _ Hrun).
  destruct Hinv as (-> & Hnd & Hall).
  apply orb_false_iff in Eseen as [_ Eseen]. apply bool_decide_eq_false in Eseen.
  split; [rewrite list_to_set_app_L; set_solver|]. split.
  - apply NoDup_app. split; [done|]. split; [|apply NoDup_singleton].
    intros x Hx Hx'. apply list_elem_of_singleton in Hx'. subst x.
    apply Eseen. by apply elem_of_list_to_set.
  - apply Forall2_app; [done|]. constructor; [|constructor].
    apply Image_init_ok in Einit as (Hu & Hw & Hh & Hf & Hs & Hp).
    apply gt0_ok in Hw as [Hw1 Hw2], Hh as [Hh1 Hh2].
    rewrite validate_extractor_format in Hf by apply extract_format_cases.
    simplify_eq. unfold ImageExtractor.extracted.
    split; [|by repeat split].
    exists selector, img_elem.
    repeat split; try done. apply Hin. set_solver.
Qed.

Lemma collect_selectors_images pid selectors img_urls seen_urls images
    seen_urls' images' :
  selectors ⊆ image_selectors ->
  images_invariant pid img_urls seen_urls images ->
  collect_selectors pid selectors seen_urls images = Ok (seen_urls', images') ->
  exists img_urls', images_invariant pid img_urls' seen_urls' images'.
Proof.
  revert img_urls seen_urls images.
  induction selectors as [|selector rest IH];
    intros img_urls seen_urls images Hsub Hinv Hrun.
  { simpl in Hrun. simplify_eq. by exists img_urls. }
  cbn [ImageExtractor.collect_selectors] in Hrun.
  destruct (collect_images pid (select selector) seen_urls images)
    as [[seen1 images1]|] eqn:E1; [|discriminate].
  cbn [mbind result_bind fst snd] in Hrun.
  destruct (collect_images_invariant pid selector _ _ _ _ _ _
              ltac:(set_solver) ltac:(done) Hinv E1) as (img_urls1 & Hinv1).
  apply (IH img_urls1 _ _ ltac:(set_solver) Hinv1 Hrun).
Qed.

(** X18. When [extract_from_page] returns, its images were made from
    pairwise different source URLs, one image per URL in order; each source
    URL is the [src] (or else the [data-src]) of an element of one of the
    three selectors and holds none of the markers of small images; each
    image has the size 0, the given project id, positive dimensions read
    from the element (1920 by 1080 by default), and the format
    [extract_format] gives for its source URL, one of jpg, png, gif, webp
    and svg. *)
Theorem extract_from_page_images pid images :
  extract_from_page pid = Ok images ->
  exists img_urls,
    NoDup img_urls /\
    Forall2 (extracted pid) img_urls images /\
    Forall (fun image => format image ∈ extractor_formats) images.
Proof.
  unfold ImageExtractor.extract_from_page. intros Hrun.
  destruct (collect_selectors pid image_selectors ∅ []) as [[seen images']|] eqn:E;
    [|discriminate].
  cbn in Hrun. unfold mret, result_ret in Hrun. simplify_eq.
  assert (Hinv : images_invariant pid [] ∅ [])
    by (split; [done|]; split; constructor).
  destruct (collect_selectors_images pid image_selectors [] ∅ [] seen images
              ltac:(set_solver) Hinv E) as (img_urls & _ & Hnd & Hall).
  exists img_urls. split; [done|]. split; [done|].
  clear -Hall. induction Hall as [|u i us imgs Hx _ IH]; constructor; [|done].
  destruct Hx as (_ & _ & _ & -> & _). apply extract_format_cases.
Qed.

End PageImages.

Lemma extract_from_page_images_witness :
  let select := fun selector : string =>
    if String.eqb selector "img[src*='behance.net']"
    then [ImageExtractor.mkImgElement (Some "https://mir-s3-cdn-cf.behance.net/a.png")
            None (Some "640") None;
          ImageExtractor.mkImgElement (Some "https://mir-s3-cdn-cf.behance.net/a_thumb.png")
            None None None;
          ImageExtractor.mkImgElement (Some "") (Some "https://a.behance.net/b.gif")
            None None]
    else [ImageExtractor.mkImgElement (Some "https://mir-s3-cdn-cf.behance.net/a.png")
            None None None] in
  let int_of_str := fun s : string =>
    if String.eqb s "640" then Ok 640%Z else Raise (ValueError "invalid literal") in
  let images :=
    [ImageModel.mkImage "https://mir-s3-cdn-cf.behance.net/a.png" 640 1080 0 "png" 7;
     ImageModel.mkImage "https://a.behance.net/b.gif" 1920 1080 0 "gif" 7] in
  ImageExtractor.extract_from_page Ok int_of_str select 7 = Ok images /\
  exists img_urls : list string, NoDup img_urls /\ length img_urls = 2.
Proof.
  intros select int_of_str images.
  assert (H : ImageExtractor.extract_from_page Ok int_of_str select 7 = Ok images)
    by (vm_compute; reflexivity).
  split; [exact H|].
  destruct (extract_from_page_images Ok int_of_str select 7 images H)
    as (img_urls & Hnd & Hall & _).
  exists img_urls. split; [exact Hnd|].
  by rewrite (Forall2_length _ _ _ Hall).
Defined.

(** ** The query of a search URL *)

Section QueryFacts.
Import CronScraper.

Lemma before_amp_clean s : PyStr.has_amp (PyStr.before "&" s) = false.
Proof.
  induction s as [|c t IH]; [done|]. cbn [PyStr.before].
  destruct (Ascii.eqb c "&") eqn:E; [done|]. cbn [PyStr.has_amp]. by rewrite E.
Qed.

Lemma before_amp_whole s : PyStr.has_amp s = false -> PyStr.before "&" s = s.
Proof.
  induction s as [|c t IH]; [done|]. cbn [PyStr.has_amp PyStr.before].
  intros H. apply orb_false_iff in H as [-> Ht]. by rewrite (IH Ht).
Qed.

Lemma before_amp_app s rest :
  PyStr.has_amp s = false -> PyStr.before "&" (s +:+ "&" +:+ rest) = s.
Proof.
  induction s as [|c t IH]; [done|]. cbn [PyStr.has_amp].
  intros H. apply orb_false_iff in H as [Hc Ht].
  change (String c t +:+ "&" +:+ rest) with (String c (t +:+ "&" +:+ rest)).
  cbn [PyStr.before]. by rewrite Hc, (IH Ht).
Qed.

Lemma search_query_clean search_url query :
  search_query search_url = Some query ->
  query <> "" /\ PyStr.has_amp query = false.
Proof.
  revert query. induction search_url as [|a s IH]; intros query.
  - cbn. discriminate.
  - cbn [search_query]. cbv zeta.
    destruct (SearchExtractor.after_prefix "search=" (String a s)) as [[|c t]|];
      try apply IH.
    destruct (Ascii.eqb c "&") eqn:E; [apply IH|].
    intros [= <-]. rewrite E. split; [done|].
    cbn [PyStr.has_amp]. rewrite E. apply before_amp_clean.
Qed.

Lemma search_query_step a s :
  SearchExtractor.after_prefix "search=" (String a s) = None ->
  search_query (String a s) = search_query s.
Proof. intros H. cbn [search_query]. cbv zeta. by rewrite H. Qed.

Lemma search_query_here c t :
  Ascii.eqb c "&" = false ->
  search_query ("search=" +:+ String c t) = Some (PyStr.before "&" (String c t)).
Proof.
  intros H. change ("search=" +:+ String c t)
    with (String "s" ("earch=" +:+ String c t)).
  cbn [search_query]. cbv zeta.
  change (SearchExtractor.after_prefix "search=" (String "s" ("earch=" +:+ String c t)))
    with (Some (String c t)).
  cbv beta iota. by rewrite H.
Qed.

Lemma search_query_of_url c t :
  Ascii.eqb c "&" = false ->
  search_query ("https://www.behance.net/search/projects?search=" +:+ String c t) =
  Some (PyStr.before "&" (String c t)).
Proof.
  intros H.
  change ("https://www.behance.net/search/projects?search=" +:+ String c t)
    with ("https://www.behance.net/search/projects?" +:+ "search=" +:+ String c t).
  cbv beta iota delta [append].
  do 40 (rewrite search_query_step by reflexivity).
  by apply search_query_here.
Qed.

(** X19. The query the cron scraper reads from a search URL is never empty
    and holds no [&]; from the URL [search_projects] builds for a query
    that is not empty and holds no [&], also when further parameters
    follow, it reads this query back. *)
Theorem query_of_search_url :
  (forall search_url,
     query_of search_url <> "" /\ PyStr.has_amp (query_of search_url) = false) /\
  (forall query rest,
     query <> "" -> PyStr.has_amp query = false ->
     query_of (search_url_of query) = query /\
     query_of (search_url_of (query +:+ "&" +:+ rest)) = query) /\
  query_of <$> configured_urls = ["magenta"; "branding"] /\
  query_of "https://www.behance.net/featured" = "design".
Proof.
  split; [|split; [|split; reflexivity]].
  - intros search_url. unfold query_of.
    destruct (search_query search_url) as [query|] eqn:E; [|done].
    by apply search_query_clean in E.
  - intros query rest Hne Hamp. unfold query_of, search_url_of.
    destruct query as [|c t]; [done|].
    cbn [PyStr.has_amp] in Hamp. pose proof Hamp as Hamp'.
    apply orb_false_iff in Hamp as [Hc Ht].
    change (String c t +:+ "&" +:+ rest) with (String c (t +:+ "&" +:+ rest)).
    rewrite !search_query_of_url by done. cbn [default].
    split; [by apply before_amp_whole|].
    change (String c (t +:+ "&" +:+ rest)) with (String c t +:+ "&" +:+ rest).
    by apply before_amp_app.
Qed.

End QueryFacts.

(** ** The life cycle of the browser manager *)

Section ManagerFacts.
Import BrowserManager.

Variable env : nat -> Request -> result nat.

Ltac run_manager :=
  unfold close, create_context, launch, request, get, set, lift, mbind,
    sx_bind, mret, sx_ret;
  cbn [fst snd].

(** X20. [close] releases in order and is not safe against exceptions.
    When it returns, it has asked the browser to close and Playwright to
    stop, in this order and each only if the manager held it; the manager
    then holds no browser, no Playwright handle and no context, and a
    second [close] does nothing.  When the closing of the browser raises,
    Playwright is not stopped and the manager keeps all its handles.  When
    the stopping of Playwright raises, with or without a browser closed
    before it, the manager keeps the Playwright handle and all its
    contexts, and of a browser that was closed only the handle is gone. *)
Theorem close_releases m log :
  let r := close env (m, log) in
  (is_ok r.1 = true ->
   r.2.1 = mkManager (config m) None [] None /\
   r.2.2 = log ++ match browser m with Some b => [CloseBrowser b] | None => [] end
               ++ match _playwright m with Some p => [Stop p] | None => [] end /\
   close env r.2 = (Ok tt, r.2)) /\
  (forall b e,
     browser m = Some b -> env (length log) (CloseBrowser b) = Raise e ->
     r = (Raise e, (m, log ++ [CloseBrowser b]))) /\
  (forall p e,
     browser m = None -> _playwright m = Some p ->
     env (length log) (Stop p) = Raise e ->
     r = (Raise e, (m, log ++ [Stop p]))) /\
  (forall b closed p e,
     browser m = Some b -> _playwright m = Some p ->
     env (length log) (CloseBrowser b) = Ok closed ->
     env (S (length log)) (Stop p) = Raise e ->
     r = (Raise e, (mkManager (config m) None (contexts m) (Some p),
                    log ++ [CloseBrowser b; Stop p]))).
Proof.
  cbv zeta. destruct m as [cfg b cs p]. split; [|split; [|split]].
  - run_manager. cbn.
    destruct b as [b|], p as [p|]; cbn;
      repeat (case_match; simplify_eq/=); try done;
      rewrite <- ?app_assoc, ?app_nil_r; done.
  - intros b' e Hb He. cbn in Hb. subst b. run_manager. cbn. by rewrite He.
  - intros p' e Hb Hp He. cbn in Hb, Hp. subst b p. run_manager. cbn.
    by rewrite He.
  - intros b' closed p' e Hb Hp Hc He. cbn in Hb, Hp. subst b p.
    run_manager. cbn. rewrite Hc. cbn.
    rewrite length_app, Nat.add_1_r. cbn. rewrite He.
    by rewrite <- app_assoc.
Qed.

Example close_after_launch_stop_raises :
  let env := fun (n : nat) (r : Request) =>
               match r with
               | Stop _ => Raise (OtherError "playwright is gone")
               | _ => Ok n
               end in
  let cfg := mkBrowserConfig true None 1920 1080 true in
  exists launched context,
    (launch env (Manager_init cfg, [])).2 = launched /\
    (create_context env launched).1 = Ok context /\
    (close env (create_context env launched).2).1 =
      Raise (OtherError "playwright is gone") /\
    (close env (create_context env launched).2).2.1 =
      mkManager cfg None [context] (Some 0%nat).
Proof. cbv zeta. eexists _, _. vm_compute. repeat split. Qed.

(** X21. [create_context] needs a launched browser: on a manager without
    a browser (a new one, or one that was closed) it raises
    [AttributeError] before any request; with a browser it asks for one
    context with the viewport of the configuration, and tracks the context
    it is given; when the request raises, the manager is unchanged. *)
Theorem create_context_needs_browser m log :
  let r := create_context env (m, log) in
  (browser m = None ->
   exists msg, r = (Raise (AttributeError msg), (m, log))) /\
  (forall b,
     browser m = Some b ->
     r.2.2 = log ++ [NewContext b (viewport_width (config m))
                       (viewport_height (config m))] /\
     match r.1 with
     | Ok context =>
         contexts r.2.1 = contexts m ++ [context] /\
         browser r.2.1 = Some b /\ config r.2.1 = config m
     | Raise _ => r.2.1 = m
     end) /\
  (forall cfg, browser (Manager_init cfg) = None) /\
  (is_ok (close env (m, log)).1 = true ->
   browser (close env (m, log)).2.1 = None).
Proof.
  cbv zeta. destruct m as [cfg b cs p]. split; [|split; [|split]].
  - cbn. intros ->. run_manager. cbn. eauto.
  - intros b' Hb. cbn in Hb. subst b. run_manager. cbn.
    destruct (env (length log) _); cbn; done.
  - done.
  - run_manager. cbn.
    destruct b as [b|], p as [p|]; cbn;
      repeat (case_match; simplify_eq/=); try done.
Qed.

(** X22. [launch] starts Playwright and then the browser, with the three
    fixed arguments and, in stealth mode, two more; the user data
    directory is passed only when it is configured and not empty.  After a
    launch that returned, the manager holds the handles it was given, and
    [create_context] is answered by the browser. *)
Theorem launch_then_context m log :
  let r := launch env (m, log) in
  is_ok r.1 = true ->
  exists pw b dir,
    env (length log) Start = Ok pw /\
    r.2.2 = log ++ [Start; Launch (headless (config m))
                             (launch_args (stealth_mode (config m))) dir] /\
    (dir = None \/ (dir <> Some "" /\ dir = user_data_dir (config m))) /\
    r.2.1 = mkManager (config m) (Some b) (contexts m) (Some pw) /\
    (create_context env r.2).2.2 =
      r.2.2 ++ [NewContext b (viewport_width (config m))
                  (viewport_height (config m))].
Proof.
  cbv zeta. destruct m as [cfg b0 cs p0]. run_manager. cbn -[launch_args].
  destruct (env (length log) Start) as [pw|] eqn:Es; cbn -[launch_args]; [|done].
  match goal with
  | |- context [Launch _ _ ?d] => set (dir := d)
  end.
  destruct (env (length (log ++ [Start])) (Launch (headless cfg)
              (launch_args (stealth_mode cfg)) dir)) as [b|] eqn:El; cbn -[launch_args]; [|done].
  intros _. exists pw, b, dir. split; [done|].
  split; [by rewrite <- app_assoc|]. split.
  - subst dir. destruct (user_data_dir cfg) as [d|]; [|by left].
    destruct (String.eqb d "") eqn:Ed; [by left|right].
    apply String.eqb_neq in Ed. split; [congruence | done].
  - split; [done|]. by destruct (env _ (NewContext _ _ _)).
Qed.


End ManagerFacts.

Lemma launch_then_context_witness :
  let env := fun (n : nat) (r : BrowserManager.Request) => Ok n in
  let cfg := BrowserManager.mkBrowserConfig true None 1920 1080 true in
  let r := BrowserManager.launch env (BrowserManager.Manager_init cfg, []) in
  is_ok r.1 = true /\
  exists args, r.2.2 = [BrowserManager.Start; BrowserManager.Launch true args None] /\
               length args = 5.
Proof.
  intros env cfg r.
  assert (H : is_ok r.1 = true) by reflexivity.
  split; [exact H|].
  destruct (launch_then_context env (BrowserManager.Manager_init cfg) [] H)
    as (pw & b & dir & _ & E & _).
  eexists. split; [reflexivity | reflexivity].
Defined.

(** ** Saving images one by one or together *)

Section SaveManyFacts.
Import Mongo ImageModel ImageRepository.

Lemma image_save_run image c :
  ImageRepository.save image c =
  if ImageRepository.fits image
  then (Ok image, apply_insert_one (image_dict image) c)
  else (Raise not_encodable, c).
Proof.
  unfold ImageRepository.save, insert_one, encoded, mbind, sx_bind.
  fold (image_dict image). rewrite image_dict_encodable.
  by destruct (ImageRepository.fits image).
Qed.

(** One insertion after the other stores what one batch stores. *)
Lemma insert_each ds c :
  fold_left (fun c' d => apply_insert_one d c') ds c = apply_insert_many ds c.
Proof.
  revert c. induction ds as [|d ds IH]; intros [l n].
  - unfold apply_insert_many. cbn. by rewrite app_nil_r, Nat.add_0_r.
  - cbn [fold_left]. rewrite IH. unfold apply_insert_many, apply_insert_one.
    cbn [docs next_oid stamp length]. f_equal.
    + by rewrite <- app_assoc.
    + lia.
Qed.

Lemma save_each images c :
  forallb ImageRepository.fits images = true ->
  fold_left (fun c' image => (ImageRepository.save image c').2) images c =
  apply_insert_many (map image_dict images) c.
Proof.
  rewrite <- insert_each. revert c.
  induction images as [|i images IH]; intros c Hfit; [done|].
  cbn [forallb] in Hfit. apply andb_true_iff in Hfit as [Hi Hfit].
  cbn [fold_left map]. rewrite image_save_run, Hi. cbn [snd]. by apply IH.
Qed.

(** X24. [ImageRepository.save] stores one image: when its integers fit
    BSON it returns the image, keeps the stored documents and appends the
    dict of the image under a fresh [_id]; otherwise it raises
    [OverflowError] and the collection is as it was.
    [ImageRepository.save_many], on a list that is not empty and whose
    images all fit, leaves the collection that [save] leaves when it is
    called on the images one after the other, in the order of the list,
    and each of these calls returns its image.  On the empty list
    [save_many] raises, where no call of [save] is made. *)
Theorem save_many_is_save_each sent images c :
  (forall image,
     if ImageRepository.fits image
     then exists c1,
            ImageRepository.save image c = (Ok image, c1) /\
            docs c1 = docs c ++ [<["_id" := VOid (next_oid c)]> (image_dict image)] /\
            next_oid c1 = S (next_oid c)
     else ImageRepository.save image c = (Raise not_encodable, c)) /\
  (images <> [] -> forallb ImageRepository.fits images = true ->
   save_many sent images c =
     (Ok tt, fold_left (fun c' image => (ImageRepository.save image c').2) images c) /\
   forall before image after,
     images = before ++ image :: after ->
     (ImageRepository.save image
        (fold_left (fun c' image => (ImageRepository.save image c').2) before c)).1 =
     Ok image) /\
  (exists msg, save_many sent [] c = (Raise (TypeError msg), c)).
Proof.
  split; [|split; [|by eexists]].
  - intros image. rewrite image_save_run.
    destruct (ImageRepository.fits image); [|done]. by eexists.
  - intros Hne Hfit. split.
    + rewrite save_many_run, Hfit, save_each by done.
      by destruct images.
    + intros before image after ->.
      rewrite forallb_app in Hfit. apply andb_true_iff in Hfit as [_ Hfit].
      cbn [forallb] in Hfit. apply andb_true_iff in Hfit as [Hi _].
      by rewrite image_save_run, Hi.
Qed.

Example save_many_stops_where_save_goes_on :
  let good := ImageModel.mkImage "https://cdn/a.png" 1920 1080 0 "png" 7 in
  let big := ImageModel.mkImage "https://cdn/b.png" (2 ^ 63) 1080 0 "png" 7 in
  (ImageRepository.save big (ImageRepository.save good empty_collection).2).1 =
    Raise not_encodable /\
  length (docs (ImageRepository.save big
                  (ImageRepository.save good empty_collection).2).2) = 1 /\
  save_many (fun _ => 0) [good; big] empty_collection =
    (Raise not_encodable, empty_collection).
Proof. vm_compute. repeat split. Qed.

End SaveManyFacts.
(** ** The pins of a board *)

Section PinFacts.
Import PinterestPins.

Variables W Elem Pin : Type.
Variable _extract_pin_from_element : Elem -> sx W (option Pin).

#[local] Abbreviation extract_each :=
  (extract_each W Elem Pin _extract_pin_from_element).
#[local] Abbreviation pins_of := (pins_of W Elem Pin _extract_pin_from_element).

Lemma extract_each_pins pin_elements pins w :
  (extract_each pin_elements pins w).1 = pins ++ pins_of pin_elements w /\
  (extract_each pin_elements pins w).2 =
    fold_left (fun w elem => (_extract_pin_from_element elem w).2) pin_elements w /\
  length (pins_of pin_elements w) <= length pin_elements.
Proof.
  revert pins w. induction pin_elements as [|elem rest IH]; intros pins w.
  - simpl. by rewrite app_nil_r.
  - simpl. destruct (_extract_pin_from_element elem w) as [[[pin|]|e] w']; simpl.
    + destruct (IH (pins ++ [pin]) w') as (-> & -> & Hlen).
      rewrite <- app_assoc. repeat split; try done; lia.
    + destruct (IH pins w') as (-> & -> & Hlen). repeat split; try done; lia.
    + destruct (IH pins w') as (-> & -> & Hlen). repeat split; try done; lia.
Qed.

(** X25. The pin loop of [extract_pins_from_board] hands every element of
    [pin_elements[:max_pins]] to the extraction once, in order, whatever
    the extraction of the others does; it returns the pins these
    extractions gave, in order, and so at most [max_pins] pins when that is
    not negative. *)
Theorem extract_pins_bounded pin_elements max_pins w :
  let kept := BehanceScraper.slice_to max_pins pin_elements in
  let r := extract_pins W Elem Pin _extract_pin_from_element pin_elements max_pins w in
  r.1 = pins_of kept w /\
  r.2 = fold_left (fun w elem => (_extract_pin_from_element elem w).2) kept w /\
  length r.1 <= length pin_elements /\
  ((0 <= max_pins)%Z -> length r.1 <= Z.to_nat max_pins).
Proof.
  intros kept r. subst r. unfold extract_pins. fold kept.
  destruct (extract_each_pins kept [] w) as (-> & -> & Hlen).
  destruct (slice_to_length max_pins pin_elements) as [H1 H2]. fold kept in H1, H2.
  cbn [app]. repeat split; try done; lia.
Qed.

End PinFacts.
